(** * Maze generator: a shallow embedding of [maze_tool.py] and
      [app_streamlit_maze.py], with the properties of their core functions.

    The Python functions [generate_maze], [add_loops], [find_farthest_cell],
    [export_compact_lines], [build_data], the dimension clamp of [main] and
    the two text renderers, [render_maze_grid] and [render_ascii_grid], are
    translated into Rocq functions.  Python exceptions are results of an
    error monad, [while] loops run on fuel (one unit per iteration), list
    indexing follows Python (negative indices wrap around, anything else out
    of range raises [IndexError]), and the module-level random generator is
    an explicit state threaded through the calls. *)

From Stdlib Require Import ZArith Lia SpecFloat.
From stdpp Require Import base tactics option list relations strings pretty.

Open Scope Z_scope.

(** ** Python results *)

Inductive exn := IndexError | TypeError | ValueError | OverflowError.

(** [Diverges] only ever comes from a loop that ran out of fuel. *)
Inductive res (A : Type) : Type :=
  | Returns (a : A)
  | Raises (e : exn)
  | Diverges.
Arguments Returns {A} a.
Arguments Raises {A} e.
Arguments Diverges {A}.

#[global] Instance res_ret : MRet res := λ A a, Returns a.
#[global] Instance res_bind : MBind res := λ A B f m,
  match m with
  | Returns a => f a
  | Raises e => Raises e
  | Diverges => Diverges
  end.

(** ** Python lists *)

(** The position a Python index [i] denotes in a list of length [n]. *)
Definition py_norm (n : nat) (i : Z) : option nat :=
  if bool_decide (0 ≤ i < Z.of_nat n) then Some (Z.to_nat i)
  else if bool_decide (- Z.of_nat n ≤ i < 0) then Some (Z.to_nat (Z.of_nat n + i))
  else None.

(** [l[i]] *)
Definition py_get {A} (l : list A) (i : Z) : res A :=
  match py_norm (length l) i ≫= (l !!.) with
  | Some a => Returns a
  | None => Raises IndexError
  end.

(** [l[i] = a] *)
Definition py_set {A} (l : list A) (i : Z) (a : A) : res (list A) :=
  match py_norm (length l) i with
  | Some k => Returns (<[k:=a]> l)
  | None => Raises IndexError
  end.

(** [range(n)] *)
Definition range (n : Z) : list Z := Z.of_nat <$> seq 0 (Z.to_nat n).

(** [[f(a) for a in l]], the first exception wins. *)
Fixpoint for_each {A B} (f : A → res B) (l : list A) : res (list B) :=
  match l with
  | [] => Returns []
  | a :: l' => b ← f a; bs ← for_each f l'; Returns (b :: bs)
  end.

(** [for a in l: s = f(s, a)] *)
Fixpoint for_fold {A S} (f : S → A → res S) (s : S) (l : list A) : res S :=
  match l with
  | [] => Returns s
  | a :: l' => s' ← f s a; for_fold f s' l'
  end.

(** The [for d in range(4): if test(d): acc.append(d)] idiom. *)
Definition select (test : Z → res bool) (ds : list Z) : res (list Z) :=
  for_fold (λ acc d, b ← test d; Returns (if b : bool then acc ++ [d] else acc)) [] ds.

(** [while cond(s): s = body(s)]; every iteration uses one unit of fuel, and
    the final test of the condition needs one more. *)
Fixpoint while {S} (fuel : nat) (cond : S → bool) (body : S → res S) (s : S) : res S :=
  match fuel with
  | O => Diverges
  | S fuel' => if cond s then s' ← body s; while fuel' cond body s' else Returns s
  end.

(** The state reached after [k] iterations of the loop, or at its exit when
    that comes earlier. *)
Fixpoint iterations {S} (k : nat) (cond : S → bool) (body : S → res S) (s : S) : res S :=
  match k with
  | O => Returns s
  | S k' => if cond s then s' ← body s; iterations k' cond body s' else Returns s
  end.

(** ** The Python runtime the tool relies on

    The generator behind the [random] module and the [int] parser are not
    part of the repository; they are taken as an interface.  [randbelow g n]
    is [Random._randbelow(n)], a number below [n], and [rng_seed] the state
    [random.seed(seed)] installs.  [parse_ints s] stands for
    [tuple(map(int, s.split(',')))]. *)
Class Runtime := {
  rng : Type;
  rng_seed : Z → rng;
  randbelow : rng → nat → nat * rng;
  randbelow_lt : ∀ g n, (0 < n)%nat → ((randbelow g n).1 < n)%nat;
  parse_ints : string → res (list Z)
}.

Section Maze.
Context `{RT : Runtime}.

(** [random.choice(seq)] *)
Definition choice {A} (g : rng) (seq : list A) : res (A * rng) :=
  match seq with
  | [] => Raises IndexError
  | _ => let r := randbelow g (length seq) in
         a ← py_get seq (Z.of_nat r.1); Returns (a, r.2)
  end.

(** [random.randint(a, b)], which is also [random.randrange(b + 1)] when
    [a = 0]. *)
Definition randint (g : rng) (a b : Z) : res (Z * rng) :=
  if bool_decide (0 < b - a + 1) then
    let r := randbelow g (Z.to_nat (b - a + 1)) in
    Returns (a + Z.of_nat r.1, r.2)
  else Raises ValueError.

(** ** Cells and grids *)

(** [{"position": [x, y], "directions": [N, E, S, W]}] *)
Record cell := Cell { position : Z * Z; directions : list Z }.

Definition DX : list Z := [0; 1; 0; -1].
Definition DY : list Z := [-1; 0; 1; 0].

Definition dx (d : Z) : Z := default 0 (DX !! Z.to_nat d).
Definition dy (d : Z) : Z := default 0 (DY !! Z.to_nat d).

Definition make_cell (x y : Z) : cell := Cell (x, y) [0; 0; 0; 0].

(** [0 <= x < width and 0 <= y < height] *)
Definition in_bounds (width height x y : Z) : bool :=
  bool_decide (0 ≤ x < width) && bool_decide (0 ≤ y < height).

(** [[[v for _ in range(width)] for _ in range(height)]] *)
Definition new_grid {A} (width height : Z) (v : A) : list (list A) :=
  replicate (Z.to_nat height) (replicate (Z.to_nat width) v).

(** [grid[y][x]] *)
Definition grid_get {A} (grid : list (list A)) (x y : Z) : res A :=
  row ← py_get grid y; py_get row x.

(** [grid[y][x] = a] *)
Definition grid_set {A} (grid : list (list A)) (x y : Z) (a : A) : res (list (list A)) :=
  row ← py_get grid y; row' ← py_set row x a; py_set grid y row'.

(** [c["directions"][d] = 1] on a cell value *)
Definition open_flag (c : cell) (d : Z) : res cell :=
  ds ← py_set (directions c) d 1; Returns (Cell (position c) ds).

(** ** [generate_maze] *)

(** The carving grid holds [None] or a cell; no cell of it is reachable
    from anywhere else before the function returns, so cells are values. *)
Definition cgrid := list (list (option cell)).

(** [grid[y][x]["directions"][d] = 1] *)
Definition carve_flag (grid : cgrid) (x y d : Z) : res cgrid :=
  oc ← grid_get grid x y;
  match oc with
  | None => Raises TypeError
  | Some c => c' ← open_flag c d; grid_set grid x y (Some c')
  end.

(** The stack is kept top first: [stack[-1]] is the head, [append] conses
    and [pop] takes the tail. *)
Record carve_state := CarveState {
  cs_grid : cgrid;
  cs_stack : list (Z * Z);
  cs_rng : rng
}.

Definition unvisited (grid : cgrid) (width height x y d : Z) : res bool :=
  let nx := x + dx d in
  let ny := y + dy d in
  if in_bounds width height nx ny then
    oc ← grid_get grid nx ny; Returns (bool_decide (oc = None))
  else Returns false.

Definition carve_cond (s : carve_state) : bool :=
  match cs_stack s with [] => false | _ => true end.

Definition carve_body (width height : Z) (s : carve_state) : res carve_state :=
  match cs_stack s with
  | [] => Raises IndexError
  | (x, y) :: rest =>
      neighbors ← select (unvisited (cs_grid s) width height x y) (range 4);
      match neighbors with
      | [] => Returns (CarveState (cs_grid s) rest (cs_rng s))
      | _ =>
          '(d, g) ← choice (cs_rng s) neighbors;
          let nx := x + dx d in
          let ny := y + dy d in
          grid1 ← grid_set (cs_grid s) nx ny (Some (make_cell nx ny));
          grid2 ← carve_flag grid1 x y d;
          grid3 ← carve_flag grid2 nx ny ((d + 2) `mod` 4);
          Returns (CarveState grid3 ((nx, ny) :: cs_stack s) g)
      end
  end.

(** The flatten step, with its defensive branch for a [None] entry. *)
Definition flatten (grid : cgrid) (width height : Z) : res (list cell) :=
  rows ← for_each (λ y,
            for_each (λ x, oc ← grid_get grid x y;
                           Returns (default (make_cell x y) oc))
                     (range width))
          (range height);
  Returns (concat rows).

(** [carve] is the function up to the end of its [while] loop. *)
Definition carve (fuel : nat) (width height : Z) (seed : option Z) (g : rng)
  : res carve_state :=
  let g0 := match seed with Some s => rng_seed s | None => g end in
  let grid := new_grid width height None in
  grid ← grid_set grid 0 0 (Some (make_cell 0 0));
  while fuel carve_cond (carve_body width height) (CarveState grid [(0, 0)] g0).

(** [generate_maze(width, height, seed)], started with the module generator
    in state [g]; it returns the cells and the generator's new state. *)
Definition generate_maze (fuel : nat) (width height : Z) (seed : option Z) (g : rng)
  : res (list cell * rng) :=
  s ← carve fuel width height seed g;
  cells ← flatten (cs_grid s) width height;
  Returns (cells, cs_rng s).

(** ** Floats

    A Python [float] is an IEEE binary64 number: [spec_float] with a 53 bit
    mantissa and exponents below 1024. *)
Definition float_zero : spec_float := S754_zero false.

(** The conversion of an [int] operand of a float operation; Python raises
    [OverflowError] where the rounded value would be infinite. *)
Definition float_of_int (n : Z) : res spec_float :=
  match binary_normalize 53 1024 n 0 false with
  | S754_infinity _ => Raises OverflowError
  | f => Returns f
  end.

(** [int(f)] truncates towards zero. *)
Definition int_of_float (f : spec_float) : res Z :=
  match f with
  | S754_zero _ => Returns 0
  | S754_nan => Raises ValueError
  | S754_infinity _ => Raises OverflowError
  | S754_finite s m e =>
      let a := Z.shiftl (Zpos m) e in Returns (if s then - a else a)
  end.

(** [int(width * height * loop_factor)] *)
Definition total_loops (width height : Z) (loop_factor : spec_float) : res Z :=
  f ← float_of_int (width * height);
  int_of_float (SFmul 53 1024 f loop_factor).

(** ** [add_loops]

    The function mutates the cell dictionaries it is given, through the
    references its local grid holds.  The list [cells] is the store of these
    objects, one per list position, and the grid holds list positions. *)
Definition rgrid := list (list (option nat)).

(** [for cell in cells: x, y = cell["position"]; grid[y][x] = cell] *)
Definition index_cells (cells : list cell) (width height : Z) : res rgrid :=
  for_fold (λ grid ic, grid_set grid (position ic.2).1 (position ic.2).2 (Some ic.1))
           (new_grid width height None)
           (zip (seq 0 (length cells)) cells).

(** [cell["directions"]] for a grid entry [cell]; subscripting [None] is a
    [TypeError].  Every reference of the grid is a position of the list. *)
Definition cell_dirs (store : list cell) (r : option nat) : res (list Z) :=
  match r with
  | None => Raises TypeError
  | Some i =>
      match store !! i with
      | Some c => Returns (directions c)
      | None => Raises IndexError
      end
  end.

(** [cell["directions"][d] = 1] for a grid entry [cell] *)
Definition store_open (store : list cell) (r : option nat) (d : Z) : res (list cell) :=
  match r with
  | None => Raises TypeError
  | Some i =>
      match store !! i with
      | Some c => c' ← open_flag c d; Returns (<[i:=c']> store)
      | None => Raises IndexError
      end
  end.

(** The two copies of the function: [Cli] is [maze_tool.py], [App] is
    [app_streamlit_maze.py].  They differ in the attempt cap, and the first
    also reads [grid[ny][nx]] while it collects the candidates. *)
Inductive variant := Cli | App.

Definition max_attempts (v : variant) (total : Z) : Z :=
  match v with
  | Cli => total * 10
  | App => Z.max 1000 (total * 10)
  end.

Record loop_state := LoopState {
  ls_cells : list cell;
  ls_added : Z;
  ls_attempts : Z;
  ls_rng : rng
}.

Definition closed_towards (v : variant) (store : list cell) (grid : rgrid)
    (width height x y : Z) (cell : option nat) (d : Z) : res bool :=
  let nx := x + dx d in
  let ny := y + dy d in
  if in_bounds width height nx ny then
    _ ← match v with
        | Cli => grid_get grid nx ny
        | App => Returns None
        end;
    ds ← cell_dirs store cell;
    f ← py_get ds d;
    Returns (bool_decide (f = 0))
  else Returns false.

Definition loops_cond (total cap : Z) (s : loop_state) : bool :=
  bool_decide (ls_added s < total) && bool_decide (ls_attempts s < cap).

(** One attempt.  [random.randrange(width)] of the second copy is
    [random.randint(0, width - 1)]. *)
Definition loops_body (v : variant) (width height : Z) (grid : rgrid)
    (s : loop_state) : res loop_state :=
  '(x, g1) ← randint (ls_rng s) 0 (width - 1);
  '(y, g2) ← randint g1 0 (height - 1);
  cell ← grid_get grid x y;
  candidates ← select (closed_towards v (ls_cells s) grid width height x y cell)
                      (range 4);
  match candidates with
  | [] => Returns (LoopState (ls_cells s) (ls_added s) (ls_attempts s + 1) g2)
  | _ =>
      '(d, g3) ← choice g2 candidates;
      neighbor ← grid_get grid (x + dx d) (y + dy d);
      store1 ← store_open (ls_cells s) cell d;
      store2 ← store_open store1 neighbor ((d + 2) `mod` 4);
      Returns (LoopState store2 (ls_added s + 1) (ls_attempts s + 1) g3)
  end.

(** The state in which the loop of [add_loops] starts, and the function.
    It returns [None]; its effects are the cells and the generator, which
    the final state holds together with the two counters. *)
Definition add_loops (v : variant) (fuel : nat) (cells : list cell)
    (width height : Z) (loop_factor : spec_float) (g : rng) : res loop_state :=
  total ← total_loops width height loop_factor;
  grid ← index_cells cells width height;
  while fuel (loops_cond total (max_attempts v total))
        (loops_body v width height grid) (LoopState cells 0 0 g).

(** The state after [k] attempts. *)
Definition add_loops_after (v : variant) (k : nat) (cells : list cell)
    (width height : Z) (loop_factor : spec_float) (g : rng) : res loop_state :=
  total ← total_loops width height loop_factor;
  grid ← index_cells cells width height;
  iterations k (loops_cond total (max_attempts v total))
             (loops_body v width height grid) (LoopState cells 0 0 g).

(** ** [find_farthest_cell] *)

(** Coordinates are tuples of integers; [visited] and the queue are local. *)
Record bfs_state := BfsState {
  bs_visited : list (list bool);
  bs_queue : list (Z * Z * Z);
  bs_far : list Z;
  bs_max : Z
}.

Definition bfs_visit (store : list cell) (width height x y dist : Z)
    (cell : option nat) (vq : list (list bool) * list (Z * Z * Z)) (d : Z)
  : res (list (list bool) * list (Z * Z * Z)) :=
  ds ← cell_dirs store cell;
  f ← py_get ds d;
  if bool_decide (f = 1) then
    let nx := x + dx d in
    let ny := y + dy d in
    if in_bounds width height nx ny then
      seen ← grid_get vq.1 nx ny;
      if seen : bool then Returns vq
      else
        visited ← grid_set vq.1 nx ny true;
        Returns (visited, vq.2 ++ [(nx, ny, dist + 1)])
    else Returns vq
  else Returns vq.

Definition bfs_cond (s : bfs_state) : bool :=
  match bs_queue s with [] => false | _ => true end.

Definition bfs_body (store : list cell) (width height : Z) (grid : rgrid)
    (s : bfs_state) : res bfs_state :=
  match bs_queue s with
  | [] => Raises IndexError
  | (x, y, dist) :: queue =>
      let far := if bool_decide (bs_max s < dist) then [x; y] else bs_far s in
      let mx := if bool_decide (bs_max s < dist) then dist else bs_max s in
      cell ← grid_get grid x y;
      vq ← for_fold (bfs_visit store width height x y dist cell)
                    (bs_visited s, queue) (range 4);
      Returns (BfsState vq.1 vq.2 far mx)
  end.

Definition find_farthest_cell (fuel : nat) (cells : list cell) (width height : Z)
    (start : list Z) : res (list Z) :=
  grid ← index_cells cells width height;
  let visited := new_grid width height false in
  sx ← py_get start 0;
  sy ← py_get start 1;
  visited ← grid_set visited sx sy true;
  s ← while fuel bfs_cond (bfs_body cells width height grid)
             (BfsState visited [(sx, sy, 0)] start 0);
  Returns (bs_far s).

(** ** [export_compact_lines] *)

Definition quote : string :=
  String (Ascii.Ascii false true false false false true false false) EmptyString.
Definition newline : string :=
  String (Ascii.Ascii false true false true false false false false) EmptyString.

(** [str(n)] for an [int] *)
Definition str (n : Z) : string := pretty n.

(** [sep.join(l)] *)
Fixpoint join (sep : string) (l : list string) : string :=
  match l with
  | [] => EmptyString
  | [a] => a
  | a :: l' => a +:+ sep +:+ join sep l'
  end.

(** The dictionary [build_data] returns. *)
Record maze := Maze {
  m_width : Z;
  m_height : Z;
  m_cells : list cell;
  m_start : list Z;
  m_end : list Z;
  m_loops : spec_float
}.

Definition key (k : string) : string := "  " +:+ quote +:+ k +:+ quote +:+ ": ".

Definition cell_line (n i : nat) (c : cell) : string :=
  "    { " +:+ quote +:+ "position" +:+ quote +:+ ": ["
  +:+ str (position c).1 +:+ ", " +:+ str (position c).2 +:+ "], "
  +:+ quote +:+ "directions" +:+ quote +:+ ": ["
  +:+ join ", " (str <$> directions c) +:+ "] }"
  +:+ (if bool_decide (Z.of_nat i < Z.of_nat n - 1) then "," else EmptyString).

(** [sx, sy = data[k]] and the line written for it *)
Definition coord_line (k : string) (p : list Z) : res string :=
  match p with
  | [a; b] => Returns (key k +:+ "[" +:+ str a +:+ ", " +:+ str b +:+ "],")
  | _ => Raises ValueError
  end.

Definition export_compact_lines (v : variant) (data : maze) : res string :=
  extra ← match v with
          | Cli => Returns []
          | App => s ← coord_line "start" (m_start data);
                   e ← coord_line "end" (m_end data);
                   Returns [s; e]
          end;
  Returns (join newline
    (["{"; key "width" +:+ str (m_width data) +:+ ",";
      key "height" +:+ str (m_height data) +:+ ","]
     ++ extra
     ++ ["  " +:+ quote +:+ "cells" +:+ quote +:+ ": ["]
     ++ imap (cell_line (length (m_cells data))) (m_cells data)
     ++ ["  ]"; "}"])).

(** ** [build_data] and [main] *)

(** [if s: tuple(map(int, s.split(','))) else: dflt] *)
Definition coordinate_or (s : option string) (dflt : res (list Z)) : res (list Z) :=
  match s with
  | None => dflt
  | Some EmptyString => dflt
  | Some s => parse_ints s
  end.

Definition build_data (fuel : nat) (width height : Z) (seed : option Z)
    (loops : spec_float) (start_str end_str : option string) (g : rng)
  : res (maze * rng) :=
  '(cells, g1) ← generate_maze fuel width height seed g;
  '(cells, g2) ← (if SFltb float_zero loops then
                    s ← add_loops Cli fuel cells width height loops g1;
                    Returns (ls_cells s, ls_rng s)
                  else Returns (cells, g1));
  start ← coordinate_or start_str (Returns [0; 0]);
  end_ ← coordinate_or end_str (find_farthest_cell fuel cells width height start);
  Returns (Maze width height cells start end_ loops, g2).

(** [main] up to its call of [build_data]: the two dimensions are clamped
    with [max(1, _)]. *)
Definition main_data (fuel : nat) (args_width args_height : Z) (seed : option Z)
    (loops : spec_float) (start_str end_str : option string) (g : rng)
  : res (maze * rng) :=
  build_data fuel (Z.max 1 args_width) (Z.max 1 args_height) seed loops
             start_str end_str g.

End Maze.

(** ** The two renderers

    [render_maze_grid] of [maze_tool.py] prints its lines;
    [render_ascii_grid] of [app_streamlit_maze.py] collects them and returns
    them joined.  Both index the cells first, as [add_loops] does. *)

(** [s * n] for a string [s]: nothing for [n] below 1. *)
Fixpoint str_times (s : string) (n : nat) : string :=
  match n with
  | O => EmptyString
  | S n' => s +:+ str_times s n'
  end.
Definition str_mul (s : string) (n : Z) : string := str_times s (Z.to_nat n).

(** The inside of a cell: [(x, y) == start], then [(x, y) == end], for
    tuples of integers [start] and [end]. *)
Definition cell_content (start end_ : list Z) (x y : Z) : string :=
  if bool_decide ([x; y] = start) then " S "
  else if bool_decide ([x; y] = end_) then " E "
  else "   ".

(** The body of the first inner loop, in [maze_tool.py] ... *)
Definition vert_step_cli (store : list cell) (grid : rgrid) (start end_ : list Z)
    (y : Z) (line_vert : string) (x : Z) : res string :=
  cell ← grid_get grid x y;
  let line_vert := line_vert +:+ cell_content start end_ x y in
  ds ← cell_dirs store cell;
  east ← py_get ds 1;
  Returns (line_vert +:+ (if bool_decide (east = 1) then " " else "|")).

(** ... and in [app_streamlit_maze.py]. *)
Definition vert_step_app (store : list cell) (grid : rgrid) (start end_ : list Z)
    (y : Z) (line_vert : string) (x : Z) : res string :=
  let content := cell_content start end_ x y in
  cell ← grid_get grid x y;
  ds ← cell_dirs store cell;
  east ← py_get ds 1;
  Returns (line_vert +:+ (content +:+ (if bool_decide (east = 1) then " " else "|"))).

(** The body of the second inner loop, the same in both files. *)
Definition horz_step (store : list cell) (grid : rgrid) (y : Z)
    (line_horz : string) (x : Z) : res string :=
  cell ← grid_get grid x y;
  ds ← cell_dirs store cell;
  south ← py_get ds 2;
  Returns (line_horz +:+ (if bool_decide (south = 1) then "   +" else "---+")).

(** [maze_tool.py]: the rows [ys] still to print after the lines [printed].
    An exception ends the function with the lines printed before it. *)
Fixpoint print_rows (store : list cell) (grid : rgrid) (width : Z)
    (start end_ : list Z) (ys : list Z) (printed : list string)
  : list string * res unit :=
  match ys with
  | [] => (printed, Returns tt)
  | y :: ys' =>
      match for_fold (vert_step_cli store grid start end_ y) "|" (range width) with
      | Returns line_vert =>
          let printed := printed ++ [line_vert] in
          match for_fold (horz_step store grid y) "+" (range width) with
          | Returns line_horz =>
              print_rows store grid width start end_ ys' (printed ++ [line_horz])
          | Raises e => (printed, Raises e)
          | Diverges => (printed, Diverges)
          end
      | Raises e => (printed, Raises e)
      | Diverges => (printed, Diverges)
      end
  end.

(** The lines printed and the outcome. *)
Definition render_maze_grid (m : maze) (start end_ : list Z)
  : list string * res unit :=
  match index_cells (m_cells m) (m_width m) (m_height m) with
  | Returns grid =>
      let top_line := fold_left (λ l _, l +:+ "---+") (range (m_width m)) "+" in
      print_rows (m_cells m) grid (m_width m) start end_ (range (m_height m))
                 [top_line]
  | Raises e => ([], Raises e)
  | Diverges => ([], Diverges)
  end.

Definition render_ascii_grid (m : maze) (start end_ : list Z) : res string :=
  let width := m_width m in
  let height := m_height m in
  grid ← index_cells (m_cells m) width height;
  out_lines ←
    for_fold (λ out_lines y,
        line_vert ← for_fold (vert_step_app (m_cells m) grid start end_ y) "|"
                             (range width);
        let out_lines := out_lines ++ [line_vert] in
        line_h ← for_fold (horz_step (m_cells m) grid y) "+" (range width);
        Returns (out_lines ++ [line_h]))
      ["+" +:+ str_mul "---+" width] (range height);
  Returns (join newline out_lines).

(** * Properties of grids *)

Definition inb (width height : Z) (p : Z * Z) : Prop :=
  0 ≤ p.1 < width ∧ 0 ≤ p.2 < height.

Definition shape {A} (width height : Z) (grid : list (list A)) : Prop :=
  length grid = Z.to_nat height ∧ Forall (λ row, length row = Z.to_nat width) grid.

(** The entry at a coordinate inside the grid. *)
Definition entry {A} (grid : list (list A)) (p : Z * Z) : option A :=
  if bool_decide (0 ≤ p.1 ∧ 0 ≤ p.2)
  then grid !! Z.to_nat p.2 ≫= (.!! Z.to_nat p.1) else None.

(** The sum of a weight over all entries. *)
Definition gsum {A} (f : A → nat) (grid : list (list A)) : nat :=
  sum_list_with (sum_list_with f) grid.

(** The neighbouring coordinate in direction [d], and the opposite
    direction. *)
Definition nbr (p : Z * Z) (d : Z) : Z * Z := (p.1 + dx d, p.2 + dy d).
Definition opp (d : Z) : Z := (d + 2) `mod` 4.

(** Passage flags as a predicate of coordinate and direction. *)
Definition flags := Z * Z → Z → Prop.

(** An open flag points into the grid and is matched by the opposite flag
    of the neighbour.  Applied at the neighbour it gives the converse, and
    it leaves no open flag towards the outside. *)
Definition symmetric_flags (width height : Z) (F : flags) : Prop :=
  ∀ p d, 0 ≤ d < 4 → F p d → inb width height (nbr p d) ∧ F (nbr p d) (opp d).

(** One step through an open passage. *)
Definition passage (width height : Z) (F : flags) (p q : Z * Z) : Prop :=
  ∃ d, 0 ≤ d < 4 ∧ F p d ∧ q = nbr p d ∧ inb width height q.

(** The flags of a carving grid. *)
Definition visited (grid : cgrid) (p : Z * Z) : Prop :=
  ∃ c, entry grid p = Some (Some c).
Definition cflag (grid : cgrid) : flags := λ p d,
  ∃ c, entry grid p = Some (Some c) ∧ directions c !! Z.to_nat d = Some 1.

(** Weights to count with: visited cells, unvisited entries, and the open
    East and South flags (one per passage between two cells). *)
Definition flag_weight (c : cell) (d : nat) : nat :=
  if bool_decide (directions c !! d = Some 1) then 1 else 0.
Definition pair_weight (c : cell) : nat := (flag_weight c 1 + flag_weight c 2)%nat.
Definition visit_weight (oc : option cell) : nat := if oc is Some _ then 1 else 0.
Definition hole_weight (oc : option cell) : nat := if oc is Some _ then 0 else 1.
Definition opair_weight (oc : option cell) : nat := if oc is Some c then pair_weight c else 0.

(** *** Lists of cells, as the functions return and receive them *)

(** The flags of a list of cells. *)
Definition lflag (cells : list cell) : flags := λ p d,
  ∃ c, c ∈ cells ∧ position c = p ∧ directions c !! Z.to_nat d = Some 1.

(** A Grid: every cell lies inside and has four flags, every coordinate
    has a cell, and no coordinate has two. *)
Record is_grid (width height : Z) (cells : list cell) : Prop := {
  grid_inside : ∀ c, c ∈ cells →
                  inb width height (position c) ∧ length (directions c) = 4%nat;
  grid_covers : ∀ p, inb width height p → ∃ c, c ∈ cells ∧ position c = p;
  grid_nodup : NoDup (position <$> cells)
}.

(** The passage graph is connected. *)
Definition connected (width height : Z) (cells : list cell) : Prop :=
  ∀ p q, inb width height p → inb width height q →
         rtc (passage width height (lflag cells)) p q.

(** The first cell of the list at a coordinate. *)
Definition cell_at (cells : list cell) (p : Z * Z) : option cell :=
  head (filter (λ c, position c = p) cells).

Definition flag_open (c : cell) (d : Z) : bool :=
  bool_decide (directions c !! Z.to_nat d = Some 1).

(** The passage from [c] in direction [d] is open on both sides. *)
Definition pair_open (cells : list cell) (c : cell) (d : Z) : bool :=
  flag_open c d &&
  match cell_at cells (nbr (position c) d) with
  | Some c' => flag_open c' (opp d)
  | None => false
  end.

(** The number of passages open on both sides; each is counted at its
    western or northern cell. *)
Definition passage_pairs (cells : list cell) : nat :=
  sum_list_with (λ c, (if pair_open cells c 1 then 1 else 0)
                      + (if pair_open cells c 2 then 1 else 0))%nat cells.

(** The local grid of [add_loops] and [find_farthest_cell] refers, at every
    coordinate, to a cell of the list that lies there. *)
Definition indexes (width height : Z) (grid : list (list (option nat)))
    (cells : list cell) : Prop :=
  shape width height grid ∧
  ∀ p, inb width height p →
    ∃ i c, entry grid p = Some (Some i) ∧ cells !! i = Some c ∧ position c = p.

(** A cell with the flag of direction [d] set. *)
Definition opened (c : cell) (d : Z) : cell :=
  Cell (position c) (<[Z.to_nat d := 1]> (directions c)).

(** A cell of [visited] still to be reached counts one. *)
Definition unseen_weight (b : bool) : nat := if b then 0 else 1.

(** Symmetry as the data model words it: towards a neighbour inside the
    grid a flag is open exactly when the neighbour's opposite flag is, and
    no flag is open towards the outside. *)
Definition symmetric (width height : Z) (cells : list cell) : Prop :=
  ∀ a d, a ∈ cells → 0 ≤ d < 4 →
    (inb width height (nbr (position a) d) →
     ∀ b, b ∈ cells → position b = nbr (position a) d →
       (directions a !! Z.to_nat d = Some 1
        ↔ directions b !! Z.to_nat (opp d) = Some 1))
    ∧ (¬ inb width height (nbr (position a) d) →
       directions a !! Z.to_nat d ≠ Some 1).

(** The 1x5 maze: one column, every cell open towards the next row. *)
Definition corridor : list cell :=
  [Cell (0, 0) [0; 0; 1; 0]; Cell (0, 1) [1; 0; 1; 0]; Cell (0, 2) [1; 0; 1; 0];
   Cell (0, 3) [1; 0; 1; 0]; Cell (0, 4) [1; 0; 0; 0]].

(** The 5x1 maze: one row, every cell open towards the next column. *)
Definition corridor_row : list cell :=
  [Cell (0, 0) [0; 1; 0; 0]; Cell (1, 0) [0; 1; 0; 1]; Cell (2, 0) [0; 1; 0; 1];
   Cell (3, 0) [0; 1; 0; 1]; Cell (4, 0) [0; 0; 0; 1]].

(** The floats 0.5 and 1.0. *)
Definition float_half : spec_float := S754_finite false 4503599627370496 (-53).
Definition float_one : spec_float := S754_finite false 4503599627370496 (-52).

(** ** What the loops keep

    The invariants and the measures of the three loops. *)

(** The rows that the flatten step reads off a grid. *)
Definition flat_rows (grid : cgrid) (width height : Z) : list (list cell) :=
  (λ y, (λ x, default (make_cell x y) (default None (entry grid (x, y))))
          <$> range width) <$> range height.

Section Invariants.
Context `{RT : Runtime}.

(** What holds of the grid and the stack at every test of the loop. *)
Record carve_inv (w h : Z) (s : carve_state) : Prop := {
  ci_shape : shape w h (cs_grid s);
  ci_cells : ∀ p c, entry (cs_grid s) p = Some (Some c) →
               position c = p ∧ length (directions c) = 4%nat;
  ci_stack : ∀ p, p ∈ cs_stack s → visited (cs_grid s) p;
  ci_origin : visited (cs_grid s) (0, 0);
  ci_done : ∀ p d, visited (cs_grid s) p → p ∉ cs_stack s → 0 ≤ d < 4 →
              inb w h (nbr p d) → visited (cs_grid s) (nbr p d);
  ci_sym : symmetric_flags w h (cflag (cs_grid s));
  ci_reach : ∀ p, visited (cs_grid s) p →
               rtc (passage w h (cflag (cs_grid s))) (0, 0) p;
  ci_count : (gsum opair_weight (cs_grid s) + 1 = gsum visit_weight (cs_grid s))%nat
}.

Definition carve_measure (s : carve_state) : nat :=
  (2 * gsum hole_weight (cs_grid s) + length (cs_stack s))%nat.

(** What every state of the loop keeps of the list [cells0] it started
    from. *)
Record loops_inv (w h : Z) (grid : rgrid) (cells0 : list cell) (s : loop_state)
  : Prop := {
  li_grid : is_grid w h (ls_cells s);
  li_indexes : indexes w h grid (ls_cells s);
  li_sym : symmetric_flags w h (lflag cells0) →
           symmetric_flags w h (lflag (ls_cells s));
  li_mono : ∀ p e, 0 ≤ e < 4 → lflag cells0 p e → lflag (ls_cells s) p e;
  li_attempts : 0 ≤ ls_attempts s
}.

End Invariants.

(** Where Python's indices reach: below the width and height, and down
    to their negations; a negative index [i] of a list of length [n] is the
    position [n + i]. *)
Definition wrapped (width height : Z) (p : Z * Z) : Prop :=
  - width ≤ p.1 < width ∧ - height ≤ p.2 < height.
Definition wrap (n i : Z) : Z := if bool_decide (i < 0) then n + i else i.

(** The part of the state the inner [for] loop works on: [visited] has the
    shape of the grid, the queue holds coordinates in [P], and the cells not
    yet seen together with the queue number [n]. *)
Definition bfs_ok (P : Z * Z → Prop) (w h : Z) (n : nat)
    (vq : list (list bool) * list (Z * Z * Z)) : Prop :=
  shape w h vq.1 ∧ Forall (λ e, P (e.1.1, e.1.2)) vq.2
  ∧ (gsum unseen_weight vq.1 + length vq.2 = n)%nat.

(** What every state of the search keeps. *)
Record bfs_inv (P : Z * Z → Prop) (w h : Z) (s : bfs_state) : Prop := {
  bi_shape : shape w h (bs_visited s);
  bi_queue : Forall (λ e, P (e.1.1, e.1.2)) (bs_queue s);
  bi_far : ∃ x y, bs_far s = [x; y] ∧ P (x, y)
}.

Definition bfs_measure (s : bfs_state) : nat :=
  (gsum unseen_weight (bs_visited s) + length (bs_queue s))%nat.

(** ** What a mutation of the list keeps

    The cell at every index keeps its position and the number of its flags,
    and every flag that is 1 stays 1. *)
Definition keeps (store store' : list cell) : Prop :=
  length store' = length store ∧
  ∀ i c, store !! i = Some c →
    ∃ c', store' !! i = Some c' ∧ position c' = position c
          ∧ length (directions c') = length (directions c)
          ∧ ∀ e, directions c !! e = Some 1 → directions c' !! e = Some 1.

(** Every flag is 0 or 1. *)
Definition bits (c : cell) : Prop := Forall (λ f, f = 0 ∨ f = 1) (directions c).

(** A 2x2 maze, and the same after [add_loops] has opened the passage
    between (0, 0) and (0, 1). *)
Definition maze_2x2 : list cell :=
  [Cell (0, 0) [0; 1; 0; 0]; Cell (1, 0) [0; 0; 1; 1];
   Cell (0, 1) [0; 1; 0; 0]; Cell (1, 1) [1; 0; 0; 1]].
Definition float_quarter : spec_float := S754_finite false 4503599627370496 (-54).
Definition maze_2x2_looped : list cell :=
  [Cell (0, 0) [0; 1; 1; 0]; Cell (1, 0) [0; 0; 1; 1];
   Cell (0, 1) [1; 1; 0; 0]; Cell (1, 1) [1; 0; 0; 1]].

(** ** What [add_loops] counts *)

Section Counted.
Context `{RT : Runtime}.

(** The loop's count of added passages is the growth of the maze. *)
Record count_inv (w h : Z) (grid : rgrid) (cells0 : list cell) (t : Z)
    (s : loop_state) : Prop := {
  cn_grid : is_grid w h (ls_cells s);
  cn_indexes : indexes w h grid (ls_cells s);
  cn_sym : symmetric_flags w h (lflag (ls_cells s));
  cn_count : sum_list_with pair_weight (ls_cells s)
             = (sum_list_with pair_weight cells0 + Z.to_nat (ls_added s))%nat;
  cn_added : 0 ≤ ls_added s ≤ Z.max 0 t
}.

End Counted.

(** Every cell of a carving grid satisfies [Q]. *)
Definition all_cells (Q : cell → Prop) (grid : cgrid) : Prop :=
  Forall (Forall (λ oc, ∀ c, oc = Some c → Q c)) grid.

(** ** Distances in the maze

    A walk takes one open passage after the other; the distance of a cell
    is the length of a shortest walk to it. *)
Inductive walk (width height : Z) (F : flags) (p : Z * Z) : nat → Z * Z → Prop :=
  | walk_here : walk width height F p 0 p
  | walk_step n q r :
      walk width height F p n q → passage width height F q r →
      walk width height F p (S n) r.

Definition distance (width height : Z) (F : flags) (p q : Z * Z) (n : nat) : Prop :=
  walk width height F p n q ∧ ∀ m, walk width height F p m q → (n ≤ m)%nat.

(** The cells the search has marked in [visited]. *)
Definition is_seen (V : list (list bool)) (p : Z * Z) : Prop := entry V p = Some true.

(** A queue in the order of a breadth-first search: entries at distance [D],
    then entries at distance [D + 1]. *)
Definition levels (D : Z) (Q : list (Z * Z * Z)) : Prop :=
  ∃ Q1 Q2, Q = Q1 ++ Q2 ∧ Forall (λ e, e.2 = D) Q1 ∧ Forall (λ e, e.2 = D + 1) Q2.

(** What the search knows, for the entries [F] still to be finished (the
    queue, and in front of it the cell whose flags are being read): every
    entry is marked and carries its distance from the start, and a marked
    cell is either such an entry or finished: not farther than [mx], with
    every cell one passage away marked. *)
Record front_inv (w h : Z) (cells : list cell) (start : Z * Z)
    (V : list (list bool)) (F : list (Z * Z * Z)) (mx : Z) : Prop := {
  fi_shape : shape w h V;
  fi_start : is_seen V start;
  fi_front : ∀ e, e ∈ F →
      is_seen V e.1 ∧ ∃ n, e.2 = Z.of_nat n ∧ distance w h (lflag cells) start e.1 n;
  fi_seen : ∀ p, is_seen V p →
      ∃ n, distance w h (lflag cells) start p n
           ∧ ((p, Z.of_nat n) ∈ F
              ∨ (Z.of_nat n ≤ mx ∧ ∀ q, passage w h (lflag cells) p q → is_seen V q))
}.

(** Inside the [for] loop over the directions of the cell [(x, y)], before
    direction [k]. *)
Definition visit_inv (w h : Z) (cells : list cell) (start : Z * Z)
    (x y dist mx : Z) (k : Z) (vq : list (list bool) * list (Z * Z * Z)) : Prop :=
  front_inv w h cells start vq.1 ((x, y, dist) :: vq.2) mx
  ∧ levels dist ((x, y, dist) :: vq.2)
  ∧ ∀ d, 0 ≤ d < k → lflag cells (x, y) d → inb w h (nbr (x, y) d) →
         is_seen vq.1 (nbr (x, y) d).

(** Between two iterations of the [while] loop. *)
Record search_inv (w h : Z) (cells : list cell) (start : Z * Z)
    (s : bfs_state) : Prop := {
  si_front : front_inv w h cells start (bs_visited s) (bs_queue s) (bs_max s);
  si_levels : ∃ D, levels D (bs_queue s);
  si_far : ∃ x y n, bs_far s = [x; y] ∧ bs_max s = Z.of_nat n
                    ∧ distance w h (lflag cells) start (x, y) n
}.

(** ** What the renderers draw

    In the line of row [y] that holds the cells, the cell at column [x]
    takes the four characters from position [4 * x + 1]: its content, then
    one character for its East side, a wall unless the flag is 1.  In the line
    below, the same four positions hold its South side and a corner. *)
Definition vert_drawn (cells : list cell) (start end_ : list Z) (width y : Z)
    (line : string) : Prop :=
  ∀ x c, 0 ≤ x < width → c ∈ cells → position c = (x, y) →
    String.substring (Z.to_nat (4 * x + 1)) 4 line
    = cell_content start end_ x y
      +:+ (if bool_decide (directions c !! 1%nat = Some 1) then " " else "|").

Definition horz_drawn (cells : list cell) (width y : Z) (line : string) : Prop :=
  ∀ x c, 0 ≤ x < width → c ∈ cells → position c = (x, y) →
    String.substring (Z.to_nat (4 * x + 1)) 4 line
    = (if bool_decide (directions c !! 2%nat = Some 1) then "   +" else "---+").

(** The lines of a whole drawing. *)
Definition drawing (cells : list cell) (start end_ : list Z) (width height : Z)
    (lines : list string) : Prop :=
  length lines = Z.to_nat (2 * height + 1)
  ∧ Forall (λ l, String.length l = Z.to_nat (4 * width + 1)) lines
  ∧ lines !! 0%nat = Some ("+" +:+ str_mul "---+" width)
  ∧ ∀ y, 0 ≤ y < height →
      ∃ lv lh, lines !! Z.to_nat (2 * y + 1) = Some lv
               ∧ lines !! Z.to_nat (2 * y + 2) = Some lh
               ∧ vert_drawn cells start end_ width y lv
               ∧ horz_drawn cells width y lh.

(** ** Reading the exported text

    The characters of a printed integer, and a text that cannot continue
    one. *)
Definition numeric (c : Ascii.ascii) : bool :=
  let n := Ascii.N_of_ascii c in
  (n =? 45)%N || ((48 <=? n)%N && (n <=? 57)%N).

Fixpoint all_numeric (s : string) : bool :=
  match s with
  | EmptyString => true
  | String c s' => numeric c && all_numeric s'
  end.

Definition stops (s : string) : Prop :=
  match s with
  | EmptyString => True
  | String c _ => numeric c = false
  end.

(** The line of a cell, with or without the comma after it. *)
Definition cell_text (c : cell) (comma : bool) : string :=
  "    { " +:+ quote +:+ "position" +:+ quote +:+ ": ["
  +:+ str (position c).1 +:+ ", " +:+ str (position c).2 +:+ "], "
  +:+ quote +:+ "directions" +:+ quote +:+ ": ["
  +:+ join ", " (str <$> directions c) +:+ "] }"
  +:+ (if comma then "," else EmptyString).

(** ** A runtime to run the functions with *)

(** A small linear congruential generator, to run the functions. *)
Definition lcg_below (g : Z) (n : nat) : nat * Z :=
  (Z.to_nat ((g / 7) `mod` Z.of_nat n), (g * 1103 + 12345) `mod` 65536).

Lemma lcg_below_lt g n : (0 < n)%nat → ((lcg_below g n).1 < n)%nat.
Proof.
  intros Hn. simpl.
  pose proof (Z.mod_pos_bound (g / 7) (Z.of_nat n)). lia.
Qed.

Definition lcg : Runtime := {|
  rng := Z;
  rng_seed s := s;
  randbelow := lcg_below;
  randbelow_lt := lcg_below_lt;
  parse_ints _ := Raises ValueError
|}.

(** The same with a parser, for decimal integers between commas. *)
Fixpoint parse_digits (s : string) (acc : Z) : option Z :=
  match s with
  | EmptyString => Some acc
  | String c s' =>
      let n := Z.of_N (Ascii.N_of_ascii c) in
      if bool_decide (48 ≤ n ≤ 57) then parse_digits s' (10 * acc + (n - 48))
      else None
  end.

Definition parse_int (s : string) : option Z :=
  match s with
  | EmptyString => None
  | String c s' =>
      if bool_decide (Ascii.N_of_ascii c = 45%N) then
        if bool_decide (s' = EmptyString) then None
        else Z.opp <$> parse_digits s' 0
      else parse_digits s 0
  end.

Fixpoint split_commas (s field : string) : list string :=
  match s with
  | EmptyString => [field]
  | String c s' =>
      if bool_decide (Ascii.N_of_ascii c = 44%N)
      then field :: split_commas s' EmptyString
      else split_commas s' (field +:+ String c EmptyString)
  end.

Definition parse_csv (s : string) : res (list Z) :=
  match mapM parse_int (split_commas s EmptyString) with
  | Some l => Returns l
  | None => Raises ValueError
  end.

Definition lcg_parsing : Runtime := {|
  rng := Z;
  rng_seed s := s;
  randbelow := lcg_below;
  randbelow_lt := lcg_below_lt;
  parse_ints := parse_csv
|}.

(** * Reasoning about the embedding *)

(** ** Loops *)

Lemma while_total {S} (I : S → Prop) (m : S → nat) cond (body : S → res S) :
  (∀ s, I s → cond s = true → ∃ s', body s = Returns s' ∧ I s' ∧ (m s' < m s)%nat) →
  ∀ fuel s, I s → (m s < fuel)%nat →
    ∃ s', while fuel cond body s = Returns s' ∧ I s' ∧ cond s' = false.
Proof.
  intros Hstep fuel. induction fuel as [|fuel IH]; intros s HI Hm; [lia|].
  simpl. destruct (cond s) eqn:Hc; [|eauto].
  destruct (Hstep s HI Hc) as (s' & -> & HI' & Hlt). simpl.
  apply IH; [assumption|lia].
Qed.

Lemma iterations_inv {S} (I : S → Prop) cond (body : S → res S) :
  (∀ s, I s → cond s = true → ∃ s', body s = Returns s' ∧ I s') →
  ∀ k s, I s → ∃ s', iterations k cond body s = Returns s' ∧ I s'.
Proof.
  intros Hstep k. induction k as [|k IH]; intros s HI; simpl; [eauto|].
  destruct (cond s) eqn:Hc; [|eauto].
  destruct (Hstep s HI Hc) as (s' & -> & HI'). simpl. eauto.
Qed.

Lemma for_fold_inv {A S} (I : S → Prop) (f : S → A → res S) (l : list A) :
  (∀ s a, I s → a ∈ l → ∃ s', f s a = Returns s' ∧ I s') →
  ∀ s, I s → ∃ s', for_fold f s l = Returns s' ∧ I s'.
Proof.
  induction l as [|a l IH]; intros Hstep s HI; simpl; [eauto|].
  destruct (Hstep s a HI) as (s' & -> & HI'); [left|]. simpl.
  apply IH; [|assumption]. intros s1 b H1 Hb. apply Hstep; [assumption|by right].
Qed.

Lemma select_spec (test : Z → res bool) (ds : list Z) :
  (∀ d, d ∈ ds → ∃ b, test d = Returns b) →
  ∃ l, select test ds = Returns l ∧ ∀ d, d ∈ l ↔ d ∈ ds ∧ test d = Returns true.
Proof.
  unfold select. intros Hall.
  cut (∀ acc, ∃ l, for_fold (λ acc d, b ← test d;
                       Returns (if b : bool then acc ++ [d] else acc)) acc ds = Returns l
              ∧ ∀ d, d ∈ l ↔ d ∈ acc ∨ (d ∈ ds ∧ test d = Returns true)).
  { intros H. destruct (H []) as (l & Hl & Hin). exists l. split; [assumption|].
    intros d. rewrite Hin. rewrite elem_of_nil. tauto. }
  induction ds as [|d ds IH]; intros acc; simpl.
  - exists acc. split; [reflexivity|]. intros d. rewrite elem_of_nil. tauto.
  - destruct (Hall d) as [b Hb]; [left|]. rewrite Hb. simpl.
    destruct (IH (λ d' H', Hall d' (list_elem_of_further _ _ _ H'))
                 (if b then acc ++ [d] else acc)) as (l & Hl & Hin).
    exists l. split; [assumption|]. intros d'. rewrite Hin. rewrite elem_of_cons.
    destruct b.
    + rewrite elem_of_app, list_elem_of_singleton. split.
      * intros [[?| ->]|[? ?]]; eauto.
      * intros [?|[[ -> |?] ?]]; eauto.
    + split.
      * intros [?|[? ?]]; eauto.
      * intros [?|[[ -> |?] ?]]; eauto. congruence.
Qed.

(** ** Python indexing inside the bounds *)

Lemma py_norm_in n i : 0 ≤ i < Z.of_nat n → py_norm n i = Some (Z.to_nat i).
Proof. intros H. unfold py_norm. rewrite bool_decide_eq_true_2; done. Qed.

Lemma py_get_in {A} (l : list A) i a :
  0 ≤ i → l !! Z.to_nat i = Some a → py_get l i = Returns a.
Proof.
  intros Hi Hl. unfold py_get. apply lookup_lt_Some in Hl as Hlt.
  rewrite py_norm_in by lia. simpl. by rewrite Hl.
Qed.

Lemma py_set_in {A} (l : list A) i a :
  0 ≤ i < Z.of_nat (length l) → py_set l i a = Returns (<[Z.to_nat i:=a]> l).
Proof. intros Hi. unfold py_set. by rewrite py_norm_in. Qed.

Lemma py_get_out {A} (l : list A) i :
  Z.of_nat (length l) ≤ i ∨ i < - Z.of_nat (length l) → py_get l i = Raises IndexError.
Proof.
  intros Hi. unfold py_get, py_norm.
  rewrite !bool_decide_eq_false_2 by lia. reflexivity.
Qed.

Lemma sum_list_with_insert {A} (f : A → nat) (l : list A) i a b :
  l !! i = Some a →
  (sum_list_with f (<[i:=b]> l) + f a = sum_list_with f l + f b)%nat.
Proof.
  revert i. induction l as [|c l IH]; intros [|i] H; simplify_eq/=; [lia|].
  specialize (IH _ H). lia.
Qed.

(** ** Grids seen as functions of the coordinates *)

Lemma in_bounds_inb w h x y : in_bounds w h x y = true ↔ inb w h (x, y).
Proof.
  unfold in_bounds, inb. rewrite andb_true_iff, !bool_decide_eq_true. reflexivity.
Qed.

Lemma in_bounds_not_inb w h x y : in_bounds w h x y = false ↔ ¬ inb w h (x, y).
Proof. rewrite <- in_bounds_inb. destruct (in_bounds w h x y); naive_solver. Qed.

Lemma shape_new_grid {A} w h (v : A) : shape w h (new_grid w h v).
Proof.
  unfold shape, new_grid. rewrite length_replicate. split; [done|].
  apply Forall_replicate. apply length_replicate.
Qed.

Lemma entry_new_grid {A} w h (v : A) p : inb w h p → entry (new_grid w h v) p = Some v.
Proof.
  intros [Hx Hy]. unfold entry, new_grid.
  rewrite bool_decide_eq_true_2 by lia.
  rewrite lookup_replicate_2 by lia. simpl. rewrite lookup_replicate_2 by lia. done.
Qed.

Lemma gsum_new_grid {A} (f : A → nat) w h v :
  gsum f (new_grid w h v) = (Z.to_nat h * (Z.to_nat w * f v))%nat.
Proof.
  unfold gsum, new_grid.
  assert (Hrow : ∀ n, sum_list_with f (replicate n v) = (n * f v)%nat).
  { induction n as [|n IH]; simpl; [done|]. rewrite IH. lia. }
  induction (Z.to_nat h) as [|n IH]; simpl; [done|]. rewrite IH, Hrow. lia.
Qed.

Lemma entry_inb {A} w h (grid : list (list A)) p :
  shape w h grid → inb w h p → is_Some (entry grid p).
Proof.
  intros [Hlen Hrows] [Hx Hy]. unfold entry. rewrite bool_decide_eq_true_2 by lia.
  destruct (lookup_lt_is_Some_2 grid (Z.to_nat p.2)) as [row Hrow]; [lia|].
  rewrite Hrow. simpl. apply lookup_lt_is_Some_2.
  rewrite Forall_lookup in Hrows. rewrite (Hrows _ _ Hrow). lia.
Qed.

Lemma entry_Some_inb {A} w h (grid : list (list A)) p a :
  shape w h grid → entry grid p = Some a → inb w h p.
Proof.
  intros [Hlen Hrows] H. unfold entry in H. case_bool_decide; [|done].
  destruct (grid !! Z.to_nat p.2) as [row|] eqn:Hrow; [|done]. simpl in H.
  apply lookup_lt_Some in Hrow as Hy, H as Hx.
  rewrite Forall_lookup in Hrows. rewrite (Hrows _ _ Hrow) in Hx.
  unfold inb. lia.
Qed.

Lemma grid_get_entry {A} w h (grid : list (list A)) x y a :
  shape w h grid → entry grid (x, y) = Some a → grid_get grid x y = Returns a.
Proof.
  intros Hs H. unfold entry in H. simpl in H. case_bool_decide; [|done].
  destruct (grid !! Z.to_nat y) as [row|] eqn:Hrow; [|done]. simpl in H.
  unfold grid_get. rewrite (py_get_in _ _ _ (proj2 H0) Hrow). simpl.
  apply py_get_in; [lia|done].
Qed.

Lemma grid_set_entry {A} w h (grid : list (list A)) x y old a :
  shape w h grid → entry grid (x, y) = Some old →
  ∃ grid', grid_set grid x y a = Returns grid' ∧ shape w h grid'
    ∧ entry grid' (x, y) = Some a
    ∧ (∀ q, q ≠ (x, y) → entry grid' q = entry grid q)
    ∧ (∀ f : A → nat, (gsum f grid' + f old = gsum f grid + f a)%nat).
Proof.
  intros Hs H. pose proof Hs as [Hlen Hrows].
  unfold entry in H. simpl in H. case_bool_decide as Hxy; [|done].
  destruct (grid !! Z.to_nat y) as [row|] eqn:Hrow; [|done]. simpl in H.
  apply lookup_lt_Some in Hrow as Hy, H as Hx.
  exists (<[Z.to_nat y := <[Z.to_nat x := a]> row]> grid).
  split; [|split; [|split; [|split]]].
  - unfold grid_set. rewrite (py_get_in _ _ _ (proj2 Hxy) Hrow). simpl.
    rewrite py_set_in by lia. simpl. apply py_set_in. lia.
  - split; [by rewrite length_insert|].
    apply Forall_insert; [assumption|]. rewrite length_insert.
    rewrite Forall_lookup in Hrows. eauto.
  - unfold entry. simpl. rewrite bool_decide_eq_true_2 by done.
    rewrite list_lookup_insert_eq by done. simpl.
    by rewrite list_lookup_insert_eq.
  - intros [x' y'] Hne. unfold entry. simpl. case_bool_decide as Hq; [|done].
    destruct (decide (Z.to_nat y = Z.to_nat y')) as [Hyy|Hyy].
    + rewrite <- Hyy. rewrite list_lookup_insert_eq by done. rewrite Hrow. simpl.
      apply list_lookup_insert_ne. intros Hxx. apply Hne. f_equal; lia.
    + by rewrite list_lookup_insert_ne.
  - intros f. unfold gsum.
    pose proof (sum_list_with_insert (sum_list_with f) grid _ _
                  (<[Z.to_nat x := a]> row) Hrow) as H1.
    pose proof (sum_list_with_insert f row _ _ a H) as H2. lia.
Qed.

(** ** Directions *)

Ltac dir_eval :=
  change (dx 0) with 0 in *; change (dx 1) with 1 in *;
  change (dx 2) with 0 in *; change (dx 3) with (-1) in *;
  change (dy 0) with (-1) in *; change (dy 1) with 0 in *;
  change (dy 2) with 1 in *; change (dy 3) with 0 in *;
  change (opp 0) with 2 in *; change (opp 1) with 3 in *;
  change (opp 2) with 0 in *; change (opp 3) with 1 in *.

Ltac dir_cases d :=
  let H := fresh in
  assert (H : d = 0 ∨ d = 1 ∨ d = 2 ∨ d = 3) by lia;
  destruct H as [->|[->|[->| ->]]]; dir_eval.

Lemma elem_of_range4 d : d ∈ range 4 ↔ 0 ≤ d < 4.
Proof.
  change (range 4) with [0; 1; 2; 3]. rewrite !elem_of_cons, elem_of_nil. lia.
Qed.

Lemma opp_range d : 0 ≤ d < 4 → 0 ≤ opp d < 4.
Proof. intros H. unfold opp. apply Z.mod_pos_bound. lia. Qed.

Lemma opp_opp d : 0 ≤ d < 4 → opp (opp d) = d.
Proof. intros H. dir_cases d; reflexivity. Qed.

Lemma nbr_opp p d : 0 ≤ d < 4 → nbr (nbr p d) (opp d) = p.
Proof.
  intros H. destruct p as [x y]. unfold nbr. simpl.
  dir_cases d; dir_eval; f_equal; lia.
Qed.

Lemma nbr_ne p d : 0 ≤ d < 4 → nbr p d ≠ p.
Proof.
  intros H Heq. destruct p as [x y]. unfold nbr in Heq. simpl in Heq.
  dir_cases d; injection Heq; lia.
Qed.

(** Opening a passage pair keeps the flags symmetric. *)
Lemma symmetric_flags_open w h (F F' : flags) a d :
  0 ≤ d < 4 → inb w h a → inb w h (nbr a d) →
  (∀ p e, 0 ≤ e < 4 →
     F' p e ↔ F p e ∨ (p = a ∧ e = d) ∨ (p = nbr a d ∧ e = opp d)) →
  symmetric_flags w h F → symmetric_flags w h F'.
Proof.
  intros Hd Ha Hn HF' Hsym p e He Hp.
  apply HF' in Hp; [|assumption].
  destruct Hp as [Hp|[[-> ->]|[-> ->]]].
  - destruct (Hsym p e He Hp) as [Hin Hq]. split; [assumption|].
    apply HF'; [by apply opp_range|]. by left.
  - split; [assumption|]. apply HF'; [by apply opp_range|]. right. by right.
  - rewrite nbr_opp by assumption. split; [assumption|].
    apply HF'; [by apply opp_range, opp_range|]. right. left.
    split; [reflexivity|]. by apply opp_opp.
Qed.

Lemma passage_mono w h (F F' : flags) p q :
  (∀ p e, 0 ≤ e < 4 → F p e → F' p e) → passage w h F p q → passage w h F' p q.
Proof. intros HF (d & Hd & Hp & Hq & Hin). exists d. eauto. Qed.

Lemma reach_mono w h (F F' : flags) p q :
  (∀ p e, 0 ≤ e < 4 → F p e → F' p e) →
  rtc (passage w h F) p q → rtc (passage w h F') p q.
Proof.
  intros HF. induction 1 as [|p r q Hpr _ IH]; [constructor|].
  eapply rtc_l; [|exact IH]. by eapply passage_mono.
Qed.

(** With symmetric flags every passage can be walked back. *)
Lemma passage_sym w h (F : flags) p q :
  symmetric_flags w h F → inb w h p → passage w h F p q → passage w h F q p.
Proof.
  intros Hsym Hp (d & Hd & HF & -> & Hin).
  destruct (Hsym p d Hd HF) as [_ Hback].
  exists (opp d). split; [by apply opp_range|]. split; [assumption|].
  split; [by rewrite nbr_opp|assumption].
Qed.

Lemma reach_sym w h (F : flags) p q :
  symmetric_flags w h F → inb w h p →
  rtc (passage w h F) p q → rtc (passage w h F) q p.
Proof.
  intros Hsym Hp Hpq. induction Hpq as [|p r q Hpr _ IH]; [constructor|].
  assert (inb w h r) by (destruct Hpr as (d & _ & _ & _ & ?); assumption).
  eapply rtc_trans; [by apply IH|].
  apply rtc_once. by eapply passage_sym.
Qed.

(** A set of cells that holds the origin and is closed under the grid's
    neighbour steps holds every cell. *)
Lemma grid_closed_all w h (V : Z * Z → Prop) :
  V (0, 0) →
  (∀ p d, V p → 0 ≤ d < 4 → inb w h (nbr p d) → V (nbr p d)) →
  ∀ p, inb w h p → V p.
Proof.
  intros H0 Hstep.
  assert (Hrow : ∀ n : nat, inb w h (Z.of_nat n, 0) → V (Z.of_nat n, 0)).
  { induction n as [|n IH]; intros Hin; [exact H0|].
    replace (Z.of_nat (S n), 0) with (nbr (Z.of_nat n, 0) 1)
      by (unfold nbr; dir_eval; simpl; f_equal; lia).
    apply Hstep; [|lia|].
    - apply IH. unfold inb in *. simpl in *. lia.
    - unfold nbr; dir_eval. unfold inb in *. simpl in *. lia. }
  assert (Hcol : ∀ (m n : nat), inb w h (Z.of_nat n, Z.of_nat m) →
                                V (Z.of_nat n, Z.of_nat m)).
  { induction m as [|m IH]; intros n Hin; [by apply Hrow|].
    replace (Z.of_nat n, Z.of_nat (S m)) with (nbr (Z.of_nat n, Z.of_nat m) 2)
      by (unfold nbr; dir_eval; simpl; f_equal; lia).
    apply Hstep; [|lia|].
    - apply IH. unfold inb in *. simpl in *. lia.
    - unfold nbr; dir_eval. unfold inb in *. simpl in *. lia. }
  intros [x y] [Hx Hy]. simpl in *.
  specialize (Hcol (Z.to_nat y) (Z.to_nat x)).
  rewrite !Z2Nat.id in Hcol by lia. apply Hcol. split; simpl; lia.
Qed.

(** ** The carving loop *)

Section Carve.
Context `{RT : Runtime}.

Lemma choice_spec {A} (g : rng) (l : list A) :
  l ≠ [] → ∃ a g', choice g l = Returns (a, g') ∧ a ∈ l.
Proof.
  intros Hl. pose proof (randbelow_lt g (length l)) as Hlt.
  destruct l as [|a0 l0]; [done|]. unfold choice.
  set (l := a0 :: l0) in *. set (r := randbelow g (length l)) in *.
  destruct (lookup_lt_is_Some_2 l r.1) as [a Ha]; [apply Hlt; simpl; lia|].
  exists a, r.2. split.
  - rewrite (py_get_in l _ a); [done|lia|by rewrite Nat2Z.id].
  - by eapply list_elem_of_lookup_2.
Qed.

Lemma unvisited_spec w h (grid : cgrid) x y d :
  shape w h grid →
  ∃ b, unvisited grid w h x y d = Returns b
       ∧ (b = true ↔ entry grid (nbr (x, y) d) = Some None).
Proof.
  intros Hs. unfold unvisited. fold (nbr (x, y) d).
  change (x + dx d) with (nbr (x, y) d).1. change (y + dy d) with (nbr (x, y) d).2.
  set (n := nbr (x, y) d).
  destruct (in_bounds w h n.1 n.2) eqn:Hin.
  - apply in_bounds_inb in Hin. rewrite <- surjective_pairing in Hin.
    destruct (entry_inb w h grid n Hs Hin) as [oc Hoc].
    rewrite (grid_get_entry w h grid _ _ oc Hs) by (by rewrite <- surjective_pairing).
    simpl. eexists. split; [reflexivity|].
    rewrite bool_decide_eq_true, Hoc. naive_solver.
  - exists false. split; [reflexivity|]. split; [done|]. intros He.
    apply in_bounds_not_inb in Hin. rewrite <- surjective_pairing in Hin.
    destruct Hin. by eapply entry_Some_inb.
Qed.

Lemma carve_flag_spec w h (grid : cgrid) x y d c :
  shape w h grid → 0 ≤ d < 4 →
  entry grid (x, y) = Some (Some c) → length (directions c) = 4%nat →
  let c' := Cell (position c) (<[Z.to_nat d := 1]> (directions c)) in
  ∃ grid', carve_flag grid x y d = Returns grid' ∧ shape w h grid'
    ∧ entry grid' (x, y) = Some (Some c')
    ∧ (∀ q, q ≠ (x, y) → entry grid' q = entry grid q)
    ∧ (∀ f : option cell → nat,
         (gsum f grid' + f (Some c) = gsum f grid + f (Some c'))%nat).
Proof.
  intros Hs Hd He Hlen c'. unfold carve_flag.
  rewrite (grid_get_entry w h grid x y _ Hs He). simpl.
  unfold open_flag. rewrite py_set_in by lia. simpl.
  by apply grid_set_entry.
Qed.

(** The three assignments that visit the neighbour and carve the passage. *)
Lemma carve_pair_spec w h (grid : cgrid) x y d c :
  shape w h grid → 0 ≤ d < 4 →
  entry grid (x, y) = Some (Some c) → length (directions c) = 4%nat →
  entry grid (nbr (x, y) d) = Some None →
  let n := nbr (x, y) d in
  let c1 := Cell (position c) (<[Z.to_nat d := 1]> (directions c)) in
  let c2 := Cell n (<[Z.to_nat (opp d) := 1]> [0; 0; 0; 0]) in
  ∃ g1 g2 g3,
    grid_set grid (x + dx d) (y + dy d) (Some (make_cell (x + dx d) (y + dy d)))
      = Returns g1
    ∧ carve_flag g1 x y d = Returns g2
    ∧ carve_flag g2 (x + dx d) (y + dy d) ((d + 2) `mod` 4) = Returns g3
    ∧ shape w h g3
    ∧ entry g3 (x, y) = Some (Some c1)
    ∧ entry g3 n = Some (Some c2)
    ∧ (∀ q, q ≠ (x, y) → q ≠ n → entry g3 q = entry grid q)
    ∧ (∀ f : option cell → nat,
         (gsum f g3 + f (Some c) + f None
          = gsum f grid + f (Some c1) + f (Some c2))%nat).
Proof.
  intros Hs Hd He Hlen Hn n c1 c2.
  assert (Hne : (x, y) ≠ n) by (symmetry; by apply nbr_ne).
  destruct (grid_set_entry w h grid (x + dx d) (y + dy d) None
              (Some (make_cell (x + dx d) (y + dy d))) Hs Hn)
    as (g1 & E1 & Hs1 & Hn1 & Ho1 & Hsum1).
  destruct (carve_flag_spec w h g1 x y d c Hs1 Hd) as (g2 & E2 & Hs2 & Hc2 & Ho2 & Hsum2);
    [by rewrite Ho1|assumption|].
  destruct (carve_flag_spec w h g2 (x + dx d) (y + dy d) (opp d)
              (make_cell (x + dx d) (y + dy d)) Hs2 (opp_range d Hd))
    as (g3 & E3 & Hs3 & Hc3 & Ho3 & Hsum3); [by rewrite Ho2|reflexivity|].
  exists g1, g2, g3.
  do 4 (split; [assumption|]). split; [|split; [exact Hc3|split]].
  - rewrite Ho3 by assumption. exact Hc2.
  - intros q Hq1 Hq2. rewrite Ho3, Ho2, Ho1 by assumption. reflexivity.
  - intros f. specialize (Hsum1 f). specialize (Hsum2 f). specialize (Hsum3 f).
    subst n c1 c2. unfold nbr, make_cell in *. simpl in *. lia.
Qed.

Lemma pair_weight_open (c : cell) (n : Z * Z) d :
  0 ≤ d < 4 → length (directions c) = 4%nat →
  directions c !! Z.to_nat d ≠ Some 1 →
  (pair_weight (Cell (position c) (<[Z.to_nat d := 1%Z]> (directions c)))
   + pair_weight (Cell n (<[Z.to_nat (opp d) := 1%Z]> [0; 0; 0; 0]%Z))
   = pair_weight c + 1)%nat.
Proof.
  intros Hd Hlen Hflag. destruct c as [pos ds]. simpl in *.
  do 5 (destruct ds as [|? ds]; simplify_eq/=).
  unfold pair_weight, flag_weight.
  dir_cases d; simpl in *; repeat case_bool_decide; simplify_eq; lia.
Qed.

Lemma carve_step w h s :
  carve_inv w h s → carve_cond s = true →
  ∃ s', carve_body w h s = Returns s' ∧ carve_inv w h s'
        ∧ (carve_measure s' < carve_measure s)%nat.
Proof.
  intros [Hs Hcells Hstack Horig Hdone Hsym Hreach Hcount] Hcond.
  destruct s as [grid stack g]. simpl in *.
  unfold carve_cond in Hcond. simpl in Hcond.
  destruct stack as [|[x y] rest]; [done|]. clear Hcond.
  unfold carve_body. simpl.
  destruct (Hstack (x, y)) as [c Hc]; [left|].
  destruct (Hcells _ _ Hc) as [Hpos Hlen].
  destruct (select_spec (unvisited grid w h x y) (range 4)) as (l & -> & Hl).
  { intros d _. destruct (unvisited_spec w h grid x y d Hs) as (b & ? & _). eauto. }
  assert (Hl' : ∀ d, d ∈ l ↔ 0 ≤ d < 4 ∧ entry grid (nbr (x, y) d) = Some None).
  { intros d. rewrite Hl, elem_of_range4.
    destruct (unvisited_spec w h grid x y d Hs) as (b & -> & Hb).
    rewrite <- Hb. naive_solver. }
  clear Hl. simpl. destruct l as [|d0 l0].
  - (* backtrack *)
    eexists. split; [reflexivity|]. split; [|unfold carve_measure; simpl; lia].
    constructor; simpl; try assumption.
    + intros p Hp. apply Hstack. by right.
    + intros p d Hv Hp Hd Hin.
      destruct (decide (p = (x, y))) as [->|Hne].
      * destruct (entry_inb w h grid _ Hs Hin) as [[c'|] Hoc]; [by exists c'|].
        exfalso. eapply elem_of_nil. apply Hl'. eauto.
      * apply Hdone; try assumption. rewrite elem_of_cons. naive_solver.
  - (* carve towards a fresh neighbour *)
    destruct (choice_spec g (d0 :: l0)) as (d & g' & -> & Hd); [done|]. simpl.
    apply Hl' in Hd as [Hd Hn]. clear Hl' d0 l0.
    destruct (carve_pair_spec w h grid x y d c Hs Hd Hc Hlen Hn)
      as (g1 & g2 & g3 & -> & E2 & E3 & Hs3 & Hc1 & Hc2 & Hother & Hsum).
    simpl. rewrite E2. simpl. rewrite E3. simpl.
    set (n := nbr (x, y) d) in *.
    set (c1 := Cell (position c) (<[Z.to_nat d := 1]> (directions c))) in *.
    set (c2 := Cell n (<[Z.to_nat (opp d) := 1]> [0; 0; 0; 0])) in *.
    change (x + dx d, y + dy d) with n.
    assert (Hne : n ≠ (x, y)) by (by apply nbr_ne).
    assert (Hin : inb w h n) by (by eapply entry_Some_inb).
    assert (Hxy : inb w h (x, y)) by (by eapply entry_Some_inb).
    assert (Hnoflag : directions c !! Z.to_nat d ≠ Some 1).
    { intros Hf. destruct (Hsym (x, y) d Hd) as [_ (c' & Hc' & _)]; [by exists c|].
      fold n in Hc'. congruence. }
    assert (Hvis : ∀ q, visited g3 q ↔ visited grid q ∨ q = n).
    { intros q. unfold visited.
      destruct (decide (q = n)) as [->|Hqn]; [naive_solver|].
      destruct (decide (q = (x, y))) as [->|Hqx]; [naive_solver|].
      rewrite Hother by assumption. naive_solver. }
    assert (Hflag : ∀ q e, 0 ≤ e < 4 →
              cflag g3 q e ↔ cflag grid q e ∨ (q = (x, y) ∧ e = d)
                                ∨ (q = nbr (x, y) d ∧ e = opp d)).
    { intros q e He. fold n. unfold cflag.
      destruct (decide (q = n)) as [->|Hqn].
      - rewrite Hc2, Hn. split.
        + intros (c' & Hc' & Hf). simplify_eq. right. right. split; [done|].
          simpl in Hf. pose proof (opp_range d Hd).
          destruct (decide (Z.to_nat e = Z.to_nat (opp d))) as [Heq|Hneq]; [lia|].
          rewrite list_lookup_insert_ne in Hf by done.
          exfalso. clear -Hf He. dir_cases e; simpl in Hf; done.
        + intros [(c' & ? & _)|[[? _]|[_ ->]]]; [done|done|].
          exists c2. split; [done|]. simpl. apply list_lookup_insert_eq.
          pose proof (opp_range d Hd). simpl. lia.
      - destruct (decide (q = (x, y))) as [->|Hqx].
        + rewrite Hc1, Hc. split.
          * intros (c' & Hc' & Hf). simplify_eq. simpl in Hf.
            destruct (decide (Z.to_nat e = Z.to_nat d)) as [Heq|Hneq].
            -- right. left. split; [done|lia].
            -- rewrite list_lookup_insert_ne in Hf by done. left. by exists c.
          * intros [(c' & ? & Hf)|[[_ ->]|[? _]]]; [|  |done].
            -- simplify_eq. exists c1. split; [done|]. simpl.
               destruct (decide (Z.to_nat e = Z.to_nat d)) as [Heq|Hneq].
               ++ rewrite Heq. apply list_lookup_insert_eq. lia.
               ++ by rewrite list_lookup_insert_ne.
            -- exists c1. split; [done|]. simpl. apply list_lookup_insert_eq. lia.
        + rewrite Hother by assumption. naive_solver. }
    eexists. split; [reflexivity|]. split.
    + constructor; simpl.
      * assumption.
      * intros p c' Hp.
        destruct (decide (p = n)) as [->|Hqn].
        { rewrite Hc2 in Hp. simplify_eq. simpl.
          by rewrite length_insert. }
        destruct (decide (p = (x, y))) as [->|Hqx].
        { rewrite Hc1 in Hp. simplify_eq. simpl.
          by rewrite length_insert. }
        rewrite Hother in Hp by assumption. by apply Hcells.
      * intros p Hp. apply Hvis. rewrite elem_of_cons in Hp.
        destruct Hp as [->|Hp]; [by right|]. left. by apply Hstack.
      * apply Hvis. by left.
      * intros p e Hv Hp He Hine. rewrite !elem_of_cons in Hp.
        apply Hvis. left. apply Hvis in Hv as [Hv| ->]; [|naive_solver].
        apply Hdone; try assumption. rewrite elem_of_cons. naive_solver.
      * by eapply (symmetric_flags_open w h (cflag grid) (cflag g3) (x, y) d).
      * intros p Hp.
        assert (Hmono : ∀ q e, 0 ≤ e < 4 → cflag grid q e → cflag g3 q e).
        { intros q e He Hf. apply Hflag; [done|]. by left. }
        apply Hvis in Hp as [Hp| ->].
        -- eapply reach_mono; [exact Hmono|]. by apply Hreach.
        -- eapply rtc_r.
           ++ eapply reach_mono; [exact Hmono|]. apply Hreach. by exists c.
           ++ exists d. split; [done|]. split; [|done].
              apply Hflag; [done|]. right. by left.
      * pose proof (Hsum opair_weight) as H1. pose proof (Hsum visit_weight) as H2.
        simpl in H1, H2.
        pose proof (pair_weight_open c n d Hd Hlen Hnoflag) as H3.
        fold c1 c2 in H3. lia.
    + unfold carve_measure. simpl.
      pose proof (Hsum hole_weight) as H1. simpl in H1. lia.
Qed.

End Carve.

(** ** The flatten step and the whole of [generate_maze] *)

Lemma for_each_Returns {A B} (f : A → res B) (g : A → B) (l : list A) :
  (∀ a, a ∈ l → f a = Returns (g a)) → for_each f l = Returns (g <$> l).
Proof.
  induction l as [|a l IH]; intros H; simpl; [done|].
  rewrite (H a) by left. simpl. rewrite IH; [done|].
  intros b Hb. apply H. by right.
Qed.

Lemma range_lookup n (i : nat) :
  (i < Z.to_nat n)%nat → range n !! i = Some (Z.of_nat i).
Proof.
  intros Hi. unfold range. rewrite list_lookup_fmap, lookup_seq_lt by done. done.
Qed.

Lemma elem_of_range n i : i ∈ range n ↔ 0 ≤ i < n.
Proof.
  unfold range. rewrite list_elem_of_fmap. setoid_rewrite elem_of_seq. split.
  - intros (k & -> & Hk). lia.
  - intros Hi. exists (Z.to_nat i). lia.
Qed.

Lemma length_range n : length (range n) = Z.to_nat n.
Proof. unfold range. by rewrite length_fmap, length_seq. Qed.

Lemma concat_mjoin {A} (ls : list (list A)) : concat ls = mjoin ls.
Proof. induction ls as [|l ls IH]; simpl; [done|]. by rewrite IH. Qed.

Lemma sum_list_with_mjoin {A} (f : A → nat) (ls : list (list A)) :
  sum_list_with f (mjoin ls) = sum_list_with (sum_list_with f) ls.
Proof.
  induction ls as [|l ls IH]; simpl; [done|].
  change (mjoin (l :: ls)) with (l ++ mjoin ls).
  by rewrite sum_list_with_app, IH.
Qed.

Lemma sum_list_with_fmap' {A B} (f : B → nat) (g : A → B) (l : list A) :
  sum_list_with f (g <$> l) = sum_list_with (f ∘ g) l.
Proof. induction l as [|a l IH]; csimpl; [done|]. by rewrite IH. Qed.

Lemma sum_list_with_ext_in {A} (f g : A → nat) (l : list A) :
  (∀ a, a ∈ l → f a = g a) → sum_list_with f l = sum_list_with g l.
Proof.
  induction l as [|a l IH]; intros H; simpl; [done|].
  rewrite (H a) by left. rewrite IH; [done|]. intros b Hb. apply H. by right.
Qed.

Lemma flatten_rows w h (grid : cgrid) :
  shape w h grid → flatten grid w h = Returns (mjoin (flat_rows grid w h)).
Proof.
  intros Hs. unfold flatten.
  rewrite (for_each_Returns _
    (λ y, (λ x, default (make_cell x y) (default None (entry grid (x, y))))
            <$> range w)).
  { simpl. by rewrite concat_mjoin. }
  intros y Hy. apply elem_of_range in Hy.
  apply for_each_Returns. intros x Hx. apply elem_of_range in Hx.
  destruct (entry_inb w h grid (x, y) Hs) as [oc Hoc]; [split; simpl; lia|].
  rewrite (grid_get_entry w h grid x y oc Hs Hoc). rewrite Hoc. reflexivity.
Qed.

Lemma flat_rows_lookup w h (grid : cgrid) x y :
  inb w h (x, y) →
  mjoin (flat_rows grid w h) !! (Z.to_nat y * Z.to_nat w + Z.to_nat x)%nat
  = Some (default (make_cell x y) (default None (entry grid (x, y)))).
Proof.
  intros [Hx Hy]. simpl in *.
  apply (join_lookup_Some_same_length' (Z.to_nat w)); [|lia|].
  - unfold flat_rows. apply Forall_fmap, Forall_forall. intros y' _. simpl.
    by rewrite length_fmap, length_range.
  - eexists. split.
    + unfold flat_rows. rewrite list_lookup_fmap, range_lookup by lia. reflexivity.
    + simpl. rewrite list_lookup_fmap, range_lookup by lia. simpl.
      rewrite !Z2Nat.id by lia. reflexivity.
Qed.

Lemma flat_rows_elem w h (grid : cgrid) c :
  c ∈ mjoin (flat_rows grid w h) →
  ∃ p, inb w h p ∧ c = default (make_cell p.1 p.2) (default None (entry grid p)).
Proof.
  intros Hc. apply list_elem_of_join in Hc as (row & Hc & Hrow).
  unfold flat_rows in Hrow. apply list_elem_of_fmap in Hrow as (y & -> & Hy).
  apply list_elem_of_fmap in Hc as (x & -> & Hx).
  apply elem_of_range in Hx, Hy. exists (x, y). split; [split; simpl; lia|done].
Qed.

Lemma flat_rows_length w h (grid : cgrid) :
  length (mjoin (flat_rows grid w h)) = (Z.to_nat h * Z.to_nat w)%nat.
Proof.
  rewrite length_join. unfold flat_rows. rewrite <- list_fmap_compose.
  rewrite (sum_list_fmap_same (Z.to_nat w)), length_range; [done|].
  apply Forall_forall. intros y _. simpl. by rewrite length_fmap, length_range.
Qed.

(** When every cell has been visited the grid is its flat rows. *)
Lemma flat_rows_grid w h (grid : cgrid) :
  shape w h grid → (∀ p, inb w h p → visited grid p) →
  grid = (fmap (M:=list) Some) <$> flat_rows grid w h.
Proof.
  intros Hs Hall. pose proof Hs as [Hlen Hrows].
  apply list_eq. intros j. rewrite list_lookup_fmap.
  destruct (decide (j < Z.to_nat h)%nat) as [Hj|Hj].
  - destruct (lookup_lt_is_Some_2 grid j) as [row Hrow]; [lia|].
    unfold flat_rows. rewrite list_lookup_fmap, range_lookup by done. simpl.
    rewrite Hrow. f_equal. apply list_eq. intros i.
    rewrite !list_lookup_fmap.
    rewrite Forall_lookup in Hrows. pose proof (Hrows _ _ Hrow) as Hw.
    destruct (decide (i < Z.to_nat w)%nat) as [Hi|Hi].
    + rewrite range_lookup by done. simpl.
      destruct (Hall (Z.of_nat i, Z.of_nat j)) as [c Hc]; [split; simpl; lia|].
      rewrite Hc. simpl. unfold entry in Hc. simpl in Hc.
      rewrite bool_decide_eq_true_2 in Hc by lia.
      rewrite !Nat2Z.id, Hrow in Hc. exact Hc.
    + rewrite !lookup_ge_None_2; [done| |lia].
      rewrite length_range. lia.
  - rewrite !lookup_ge_None_2; [done| |lia].
    unfold flat_rows. rewrite length_fmap, length_range. lia.
Qed.

(** ** Lists of cells *)

Lemma fmap_nodup_unique {A B} (f : A → B) (l : list A) a b :
  NoDup (f <$> l) → a ∈ l → b ∈ l → f a = f b → a = b.
Proof.
  intros Hnd Ha Hb Hf.
  apply list_elem_of_lookup in Ha as [i Hi]. apply list_elem_of_lookup in Hb as [j Hj].
  assert (i = j); [|congruence].
  eapply NoDup_lookup; [exact Hnd| |].
  - rewrite list_lookup_fmap, Hi. reflexivity.
  - rewrite list_lookup_fmap, Hj. simpl. by rewrite Hf.
Qed.

Lemma is_grid_unique w h cells c c' :
  is_grid w h cells → c ∈ cells → c' ∈ cells → position c = position c' → c = c'.
Proof. intros [_ _ Hnd]. by apply fmap_nodup_unique. Qed.

Lemma cell_at_elem cells p c :
  cell_at cells p = Some c → c ∈ cells ∧ position c = p.
Proof.
  unfold cell_at. intros H. apply head_Some_elem_of in H.
  apply list_elem_of_filter in H. tauto.
Qed.

Lemma cell_at_spec w h cells c :
  is_grid w h cells → c ∈ cells → cell_at cells (position c) = Some c.
Proof.
  intros Hg Hc. unfold cell_at.
  destruct (filter (λ c', position c' = position c) cells) as [|c' l] eqn:Hf.
  - exfalso. eapply filter_nil_not_elem_of; [exact Hf| |exact Hc]. reflexivity.
  - simpl. f_equal.
    assert (Hc' : c' ∈ filter (λ c', position c' = position c) cells)
      by (rewrite Hf; left).
    apply list_elem_of_filter in Hc' as [Hp Hc'].
    by eapply is_grid_unique.
Qed.

Lemma pair_open_flag w h cells c d :
  is_grid w h cells → symmetric_flags w h (lflag cells) → c ∈ cells →
  0 ≤ d < 4 → pair_open cells c d = flag_open c d.
Proof.
  intros Hg Hsym Hc Hd. unfold pair_open.
  destruct (flag_open c d) eqn:Hf; [|done]. simpl.
  unfold flag_open in Hf. apply bool_decide_eq_true in Hf.
  destruct (Hsym (position c) d Hd) as [_ (c' & Hc' & Hpos & Hf')]; [by exists c|].
  rewrite <- Hpos. rewrite (cell_at_spec w h cells c' Hg Hc').
  unfold flag_open. by apply bool_decide_eq_true.
Qed.

Lemma passage_pairs_flags w h cells :
  is_grid w h cells → symmetric_flags w h (lflag cells) →
  passage_pairs cells = sum_list_with pair_weight cells.
Proof.
  intros Hg Hsym. unfold passage_pairs. apply sum_list_with_ext_in.
  intros c Hc.
  rewrite !(pair_open_flag w h cells c) by (done || lia).
  reflexivity.
Qed.

Lemma connected_from_origin w h cells :
  symmetric_flags w h (lflag cells) → inb w h (0, 0) →
  (∀ p, inb w h p → rtc (passage w h (lflag cells)) (0, 0) p) →
  connected w h cells.
Proof.
  intros Hsym H0 Hreach p q Hp Hq.
  eapply rtc_trans; [|by apply Hreach].
  apply (reach_sym w h); [assumption..|]. by apply Hreach.
Qed.

(** ** The cells of a fully visited carving grid *)

Section Complete.
Context (w h : Z) (grid : cgrid).
Hypothesis Hshape : shape w h grid.
Hypothesis Hcells : ∀ p c, entry grid p = Some (Some c) →
                      position c = p ∧ length (directions c) = 4%nat.
Hypothesis Hall : ∀ p, inb w h p → visited grid p.

Let cells := mjoin (flat_rows grid w h).

Lemma complete_elem c : c ∈ cells ↔ ∃ p, entry grid p = Some (Some c).
Proof.
  split.
  - intros Hc. apply flat_rows_elem in Hc as (p & Hp & ->).
    destruct (Hall p Hp) as [c Hc]. exists p. by rewrite Hc.
  - intros [[x y] Hp]. pose proof (entry_Some_inb w h grid _ _ Hshape Hp) as Hin.
    pose proof (flat_rows_lookup w h grid x y Hin) as Hl.
    rewrite Hp in Hl. simpl in Hl. by eapply list_elem_of_lookup_2.
Qed.

Lemma complete_lookup i c :
  cells !! i = Some c →
  ∃ x y, inb w h (x, y) ∧ i = (Z.to_nat y * Z.to_nat w + Z.to_nat x)%nat
         ∧ entry grid (x, y) = Some (Some c).
Proof.
  intros Hi. unfold cells in Hi.
  apply (join_lookup_Some_same_length (Z.to_nat w)) in Hi
    as (j & row & i' & Hrow & Hc & ->).
  2:{ unfold flat_rows. apply Forall_fmap, Forall_forall. intros y' _. simpl.
      by rewrite length_fmap, length_range. }
  unfold flat_rows in Hrow. apply list_lookup_fmap_Some_1 in Hrow as (y & -> & Hy).
  apply list_lookup_fmap_Some_1 in Hc as (x & -> & Hx).
  apply lookup_lt_Some in Hy as Hj, Hx as Hi'. rewrite length_range in Hj, Hi'.
  rewrite range_lookup in Hy, Hx by done. simplify_eq.
  exists (Z.of_nat i'), (Z.of_nat j).
  assert (Hin : inb w h (Z.of_nat i', Z.of_nat j)) by (split; simpl; lia).
  split; [assumption|]. split; [by rewrite !Nat2Z.id|].
  destruct (Hall _ Hin) as [c Hc]. by rewrite Hc.
Qed.

Lemma complete_is_grid : is_grid w h cells.
Proof.
  constructor.
  - intros c Hc. apply complete_elem in Hc as [p Hp].
    destruct (Hcells p c Hp) as [-> Hlen]. split; [|assumption].
    by eapply entry_Some_inb.
  - intros p Hp. destruct (Hall p Hp) as [c Hc]. exists c. split.
    + apply complete_elem. by exists p.
    + by apply Hcells.
  - apply NoDup_alt. intros i j p Hi Hj.
    apply list_lookup_fmap_Some_1 in Hi as (c1 & -> & Hi).
    apply list_lookup_fmap_Some_1 in Hj as (c2 & Hpos & Hj).
    apply complete_lookup in Hi as (x1 & y1 & Hin1 & -> & H1).
    apply complete_lookup in Hj as (x2 & y2 & Hin2 & -> & H2).
    apply Hcells in H1 as [H1 _]. apply Hcells in H2 as [H2 _].
    rewrite H1, H2 in Hpos. by simplify_eq.
Qed.

Lemma complete_length : 0 ≤ w → 0 ≤ h → length cells = Z.to_nat (w * h).
Proof. intros Hw Hh. unfold cells. rewrite flat_rows_length. rewrite Z2Nat.inj_mul by lia. lia. Qed.

Lemma complete_lflag p d : lflag cells p d ↔ cflag grid p d.
Proof.
  unfold lflag, cflag. split.
  - intros (c & Hc & Hp & Hf). apply complete_elem in Hc as [q Hq].
    destruct (Hcells q c Hq) as [Hpos _]. exists c. split; [congruence|done].
  - intros (c & Hc & Hf). exists c. split; [apply complete_elem; eauto|].
    split; [by apply Hcells|done].
Qed.

Lemma complete_weight : sum_list_with pair_weight cells = gsum opair_weight grid.
Proof.
  unfold cells. rewrite sum_list_with_mjoin.
  rewrite (flat_rows_grid w h grid Hshape Hall) at 2.
  unfold gsum. rewrite sum_list_with_fmap'.
  apply sum_list_with_ext_in. intros row _. simpl.
  by rewrite sum_list_with_fmap'.
Qed.

Lemma complete_visits : gsum visit_weight grid = length cells.
Proof.
  assert (Hone : ∀ l : list cell, sum_list_with (λ _, 1%nat) l = length l).
  { induction l as [|a l IH]; simpl; [done|]. by rewrite IH. }
  rewrite <- Hone. unfold cells. rewrite sum_list_with_mjoin.
  rewrite (flat_rows_grid w h grid Hshape Hall) at 1.
  unfold gsum. rewrite sum_list_with_fmap'.
  apply sum_list_with_ext_in. intros row _. simpl.
  by rewrite sum_list_with_fmap'.
Qed.

End Complete.

Section Generate.
Context `{RT : Runtime}.

Lemma carve_total fuel w h seed g :
  1 ≤ w → 1 ≤ h → (Z.to_nat (2 * w * h) ≤ fuel)%nat →
  ∃ s, carve fuel w h seed g = Returns s ∧ carve_inv w h s ∧ cs_stack s = [].
Proof.
  intros Hw Hh Hfuel. unfold carve.
  assert (H0 : entry (new_grid w h (@None cell)) (0, 0) = Some None).
  { apply entry_new_grid. split; simpl; lia. }
  destruct (grid_set_entry w h _ 0 0 None (Some (make_cell 0 0))
              (shape_new_grid w h None) H0) as (grid & -> & Hs & Hc & Ho & Hsum).
  simpl.
  set (s0 := CarveState grid [(0, 0)] _).
  assert (Hcell : ∀ p c, entry grid p = Some (Some c) → p = (0, 0) ∧ c = make_cell 0 0).
  { intros p c Hp. destruct (decide (p = (0, 0))) as [->|Hne].
    - rewrite Hc in Hp. by simplify_eq.
    - rewrite Ho in Hp by done.
      rewrite entry_new_grid in Hp; [done|].
      eapply entry_Some_inb; [apply shape_new_grid|exact Hp]. }
  destruct (while_total (carve_inv w h) carve_measure carve_cond (carve_body w h)
              (carve_step w h) fuel s0) as (s & Hrun & Hinv & Hcond).
  - constructor; simpl.
    + assumption.
    + intros p c Hp. by destruct (Hcell p c Hp) as [-> ->].
    + intros p Hp. apply list_elem_of_singleton in Hp as ->. by eexists.
    + by eexists.
    + intros p d [c Hp] Hnot. destruct (Hcell p c Hp) as [-> _].
      destruct Hnot. by left.
    + intros p d Hd (c & Hp & Hf). destruct (Hcell p c Hp) as [-> ->].
      exfalso. clear -Hd Hf. dir_cases d; simpl in Hf; done.
    + intros p [c Hp]. destruct (Hcell p c Hp) as [-> _]. constructor.
    + pose proof (Hsum opair_weight) as H1. pose proof (Hsum visit_weight) as H2.
      rewrite gsum_new_grid in H1, H2.
      change (opair_weight (Some (make_cell 0 0))) with 0%nat in H1.
      simpl in H1, H2. lia.
  - unfold carve_measure. simpl. pose proof (Hsum hole_weight) as H1.
    rewrite gsum_new_grid in H1. simpl in H1. nia.
  - exists s. split; [assumption|]. split; [assumption|].
    unfold carve_cond in Hcond. by destruct (cs_stack s).
Qed.

(** At the exit of the loop every cell has been visited. *)
Lemma carve_all_visited w h s :
  carve_inv w h s → cs_stack s = [] → ∀ p, inb w h p → visited (cs_grid s) p.
Proof.
  intros Hinv Hstack. apply grid_closed_all.
  - apply (ci_origin w h s Hinv).
  - intros p d Hp Hd Hin. eapply ci_done; eauto.
    rewrite Hstack. apply not_elem_of_nil.
Qed.

(** Everything the later results need about a call of [generate_maze]. *)
Lemma generate_maze_spec fuel w h seed g :
  1 ≤ w → 1 ≤ h → (Z.to_nat (2 * w * h) ≤ fuel)%nat →
  ∃ s, carve fuel w h seed g = Returns s
    ∧ (∀ p, inb w h p → visited (cs_grid s) p)
    ∧ generate_maze fuel w h seed g
      = Returns (mjoin (flat_rows (cs_grid s) w h), cs_rng s)
    ∧ let cells := mjoin (flat_rows (cs_grid s) w h) in
      length cells = Z.to_nat (w * h)
      ∧ is_grid w h cells
      ∧ symmetric_flags w h (lflag cells)
      ∧ passage_pairs cells = Z.to_nat (w * h - 1)
      ∧ connected w h cells.
Proof.
  intros Hw Hh Hfuel.
  destruct (carve_total fuel w h seed g Hw Hh Hfuel) as (s & Hrun & Hinv & Hstack).
  pose proof (carve_all_visited w h s Hinv Hstack) as Hall.
  pose proof Hinv as [Hs Hcells _ _ _ Hsym Hreach Hcount].
  exists s. split; [assumption|]. split; [assumption|]. split.
  { unfold generate_maze. rewrite Hrun. simpl.
    rewrite (flatten_rows w h _ Hs). reflexivity. }
  intros cells.
  pose proof (complete_is_grid w h _ Hs Hcells Hall) as Hgrid.
  pose proof (complete_length w h (cs_grid s)) as Hlen.
  assert (Hsym' : symmetric_flags w h (lflag cells)).
  { intros p d Hd Hp. apply (complete_lflag w h _ Hs Hcells Hall) in Hp.
    destruct (Hsym p d Hd Hp) as [Hin Hq]. split; [assumption|].
    by apply (complete_lflag w h _ Hs Hcells Hall). }
  split; [apply Hlen; lia|]. split; [assumption|]. split; [assumption|]. split.
  - rewrite (passage_pairs_flags w h cells Hgrid Hsym').
    unfold cells. rewrite (complete_weight w h _ Hs Hall).
    pose proof (complete_visits w h _ Hs Hall) as Hv.
    rewrite Hlen in Hv by lia. lia.
  - apply connected_from_origin; [assumption|split; simpl; lia|].
    intros p Hp. eapply reach_mono; [|apply Hreach; by apply Hall].
    intros q e _ Hf. by apply (complete_lflag w h _ Hs Hcells Hall).
Qed.

End Generate.

(** ** The grid of references *)

Lemma index_cells_from w h (l : list cell) :
  (∀ c, c ∈ l → inb w h (position c)) →
  ∀ (g0 : list (list (option nat))) (i0 : nat), shape w h g0 →
  ∃ g, for_fold (λ grid ic, grid_set grid (position ic.2).1 (position ic.2).2
                                     (Some ic.1))
                g0 (zip (seq i0 (length l)) l) = Returns g
     ∧ shape w h g
     ∧ ∀ p, inb w h p →
         (entry g p = entry g0 p ∧ ∀ c, c ∈ l → position c ≠ p)
         ∨ (∃ j c, l !! j = Some c ∧ position c = p
                   ∧ entry g p = Some (Some (i0 + j)%nat)).
Proof.
  induction l as [|c l IH]; intros Hin g0 i0 Hs; simpl.
  - exists g0. split; [done|]. split; [done|]. intros p _. left.
    split; [done|]. intros c Hc. by apply elem_of_nil in Hc.
  - destruct (entry_inb w h g0 (position c) Hs) as [old Hold]; [apply Hin; left|].
    destruct (grid_set_entry w h g0 (position c).1 (position c).2 old (Some i0) Hs)
      as (g1 & -> & Hs1 & He1 & Ho1 & _); [by rewrite <- surjective_pairing|].
    simpl. rewrite <- surjective_pairing in He1, Ho1.
    destruct (IH (λ c' H', Hin c' (list_elem_of_further _ _ _ H')) g1 (S i0) Hs1)
      as (g & -> & Hsg & Hg).
    exists g. split; [done|]. split; [done|]. intros p Hp.
    destruct (Hg p Hp) as [[He Hno]|(j & c' & Hj & Hpos & He)].
    + destruct (decide (position c = p)) as [Heq|Hne].
      * right. exists 0%nat, c. split; [done|]. split; [done|].
        rewrite He, <- Heq, He1. do 2 f_equal. lia.
      * left. split; [rewrite He; by apply Ho1|].
        intros c' Hc'. apply elem_of_cons in Hc' as [->|Hc']; [done|by apply Hno].
    + right. exists (S j), c'. split; [done|]. split; [done|].
      rewrite He. do 2 f_equal. lia.
Qed.

Lemma index_cells_spec w h cells :
  is_grid w h cells →
  ∃ grid, index_cells cells w h = Returns grid ∧ indexes w h grid cells.
Proof.
  intros [Hin Hcov _]. unfold index_cells.
  destruct (index_cells_from w h cells (λ c Hc, proj1 (Hin c Hc))
              (new_grid w h None) 0%nat (shape_new_grid w h None))
    as (grid & -> & Hs & Hg).
  exists grid. split; [done|]. split; [done|]. intros p Hp.
  destruct (Hg p Hp) as [[_ Hno]|(j & c & Hj & Hpos & He)].
  - destruct (Hcov p Hp) as (c & Hc & Hpos). by destruct (Hno c Hc).
  - exists j, c. by rewrite He.
Qed.

(** ** Setting a flag of a cell of the list *)

Lemma insert_lookup_cases {A} (l : list A) i a k b :
  <[i:=a]> l !! k = Some b → (k = i ∧ b = a) ∨ (k ≠ i ∧ l !! k = Some b).
Proof.
  intros H. destruct (decide (k = i)) as [->|Hne].
  - left. split; [done|]. apply lookup_lt_Some in H as Hlt.
    rewrite length_insert in Hlt. rewrite list_lookup_insert_eq in H by done.
    congruence.
  - right. by rewrite list_lookup_insert_ne in H.
Qed.

Section StoreUpdate.
Context (w h : Z) (store : list cell) (i : nat) (c : cell) (d : Z).
Hypothesis Hi : store !! i = Some c.
Hypothesis Hd : 0 ≤ d < 4.
Hypothesis Hlen : length (directions c) = 4%nat.

Let store' := <[i := opened c d]> store.

Lemma store_open_spec : store_open store (Some i) d = Returns store'.
Proof.
  unfold store_open. rewrite Hi. unfold open_flag.
  rewrite py_set_in by lia. reflexivity.
Qed.

Lemma opened_lookup k c' :
  store' !! k = Some c' → ∃ c0, store !! k = Some c0 ∧ position c' = position c0
    ∧ length (directions c') = length (directions c0).
Proof.
  intros H. apply insert_lookup_cases in H as [[-> ->]|[_ H]].
  - exists c. split; [done|]. simpl. by rewrite length_insert.
  - by exists c'.
Qed.

Lemma opened_lookup_inv k c0 :
  store !! k = Some c0 → ∃ c', store' !! k = Some c' ∧ position c' = position c0.
Proof.
  intros H. destruct (decide (k = i)) as [->|Hne].
  - exists (opened c d). split.
    + apply list_lookup_insert_eq. by eapply lookup_lt_Some.
    + simpl. congruence.
  - exists c0. split; [|done]. unfold store'. by rewrite list_lookup_insert_ne.
Qed.

Lemma opened_is_grid : is_grid w h store → is_grid w h store'.
Proof.
  intros [Hin Hcov Hnd]. constructor.
  - intros c' Hc'. apply list_elem_of_lookup in Hc' as [k Hk].
    apply opened_lookup in Hk as (c0 & Hk & -> & ->).
    apply Hin. by eapply list_elem_of_lookup_2.
  - intros p Hp. destruct (Hcov p Hp) as (c0 & Hc0 & Hpos).
    apply list_elem_of_lookup in Hc0 as [k Hk].
    apply opened_lookup_inv in Hk as (c' & Hk & Hpos').
    exists c'. split; [by eapply list_elem_of_lookup_2|congruence].
  - unfold store'. rewrite list_fmap_insert. simpl.
    rewrite list_insert_id; [done|]. by rewrite list_lookup_fmap, Hi.
Qed.

Lemma opened_indexes grid : indexes w h grid store → indexes w h grid store'.
Proof.
  intros [Hs Hidx]. split; [done|]. intros p Hp.
  destruct (Hidx p Hp) as (k & c0 & He & Hk & Hpos).
  apply opened_lookup_inv in Hk as (c' & Hk & Hpos').
  exists k, c'. split; [done|]. split; [done|congruence].
Qed.

Lemma opened_lflag p e :
  0 ≤ e < 4 →
  lflag store' p e ↔ lflag store p e ∨ (p = position c ∧ e = d).
Proof.
  intros He. unfold lflag. split.
  - intros (c' & Hc' & Hpos & Hf). apply list_elem_of_lookup in Hc' as [k Hk].
    apply insert_lookup_cases in Hk as [[-> ->]|[_ Hk]].
    + simpl in *. destruct (decide (Z.to_nat e = Z.to_nat d)) as [Heq|Hne].
      * right. split; [done|lia].
      * left. rewrite list_lookup_insert_ne in Hf by done.
        exists c. split; [by eapply list_elem_of_lookup_2|done].
    + left. exists c'. split; [by eapply list_elem_of_lookup_2|done].
  - intros [(c0 & Hc0 & Hpos & Hf)|[-> ->]].
    + apply list_elem_of_lookup in Hc0 as [k Hk].
      destruct (decide (k = i)) as [->|Hne].
      * assert (c0 = c) as -> by congruence.
        exists (opened c d). split; [|split; [done|]].
        -- eapply list_elem_of_lookup_2. apply list_lookup_insert_eq.
           by eapply lookup_lt_Some.
        -- simpl. destruct (decide (Z.to_nat e = Z.to_nat d)) as [Heq|Hne].
           ++ rewrite Heq. apply list_lookup_insert_eq. lia.
           ++ by rewrite list_lookup_insert_ne.
      * exists c0. split; [|done]. eapply list_elem_of_lookup_2.
        unfold store'. by rewrite list_lookup_insert_ne.
    + exists (opened c d). split; [|split; [done|]].
      * eapply list_elem_of_lookup_2. apply list_lookup_insert_eq.
        by eapply lookup_lt_Some.
      * simpl. apply list_lookup_insert_eq. lia.
Qed.

End StoreUpdate.

(** ** One attempt of [add_loops] *)

Section Loops.
Context `{RT : Runtime}.

Lemma randint_spec g n :
  1 ≤ n → ∃ x g', randint g 0 (n - 1) = Returns (x, g') ∧ 0 ≤ x < n.
Proof.
  intros Hn. unfold randint. rewrite bool_decide_eq_true_2 by lia.
  do 2 eexists. split; [reflexivity|].
  pose proof (randbelow_lt g (Z.to_nat (n - 1 - 0 + 1))). lia.
Qed.

Lemma closed_towards_spec v w h store grid x y i c d :
  indexes w h grid store → store !! i = Some c →
  length (directions c) = 4%nat → 0 ≤ d < 4 →
  ∃ b, closed_towards v store grid w h x y (Some i) d = Returns b
       ∧ (b = true ↔ inb w h (nbr (x, y) d)
                      ∧ directions c !! Z.to_nat d = Some 0).
Proof.
  intros [Hs Hidx] Hi Hlen Hd. unfold closed_towards.
  change (x + dx d) with (nbr (x, y) d).1. change (y + dy d) with (nbr (x, y) d).2.
  set (n := nbr (x, y) d).
  destruct (in_bounds w h n.1 n.2) eqn:Hin.
  - apply in_bounds_inb in Hin. rewrite <- surjective_pairing in Hin.
    assert (Hread : ∃ r, match v with
                         | Cli => grid_get grid n.1 n.2
                         | App => Returns None
                         end = Returns r).
    { destruct v; [|eauto]. destruct (Hidx n Hin) as (k & c' & He & _).
      exists (Some k). apply (grid_get_entry w h); [done|].
      by rewrite <- surjective_pairing. }
    destruct Hread as [r ->]. simpl. rewrite Hi. simpl.
    destruct (lookup_lt_is_Some_2 (directions c) (Z.to_nat d)) as [f Hf]; [lia|].
    rewrite (py_get_in _ _ f) by (lia || done). simpl.
    eexists. split; [reflexivity|]. rewrite bool_decide_eq_true, Hf.
    naive_solver.
  - exists false. split; [reflexivity|]. split; [done|]. intros [Hn _].
    apply in_bounds_not_inb in Hin. rewrite <- surjective_pairing in Hin. done.
Qed.

Arguments store_open : simpl never.

(** What an attempt keeps, and what it does to the flags. *)
Lemma loops_step v w h grid s :
  1 ≤ w → 1 ≤ h →
  is_grid w h (ls_cells s) → indexes w h grid (ls_cells s) →
  ∃ s', loops_body v w h grid s = Returns s'
    ∧ is_grid w h (ls_cells s') ∧ indexes w h grid (ls_cells s')
    ∧ ls_attempts s' = ls_attempts s + 1
    ∧ (symmetric_flags w h (lflag (ls_cells s)) →
       symmetric_flags w h (lflag (ls_cells s')))
    ∧ (∀ p e, 0 ≤ e < 4 → lflag (ls_cells s) p e → lflag (ls_cells s') p e).
Proof.
  intros Hw Hh Hgrid Hidx. destruct s as [store added attempts g]. simpl in *.
  unfold loops_body. simpl.
  destruct (randint_spec g w Hw) as (x & g1 & -> & Hx). simpl.
  destruct (randint_spec g1 h Hh) as (y & g2 & -> & Hy). simpl.
  pose proof Hidx as [Hs Hidx'].
  assert (Hxy : inb w h (x, y)) by (split; simpl; lia).
  destruct (Hidx' (x, y) Hxy) as (i & c & He & Hi & Hpos).
  rewrite (grid_get_entry w h grid x y _ Hs He). simpl.
  assert (Hlen : length (directions c) = 4%nat).
  { apply Hgrid. by eapply list_elem_of_lookup_2. }
  destruct (select_spec (closed_towards v store grid w h x y (Some i)) (range 4))
    as (l & -> & Hl).
  { intros d Hd. apply elem_of_range4 in Hd.
    destruct (closed_towards_spec v w h store grid x y i c d) as (b & ? & _); eauto. }
  assert (Hl' : ∀ d, d ∈ l ↔ 0 ≤ d < 4 ∧ inb w h (nbr (x, y) d)
                             ∧ directions c !! Z.to_nat d = Some 0).
  { intros d. rewrite Hl, elem_of_range4. split.
    - intros [Hd Hb].
      destruct (closed_towards_spec v w h store grid x y i c d)
        as (b & Hb' & Hiff); try done.
      rewrite Hb in Hb'. simplify_eq. split; [done|]. by apply Hiff.
    - intros [Hd Hb]. split; [done|].
      destruct (closed_towards_spec v w h store grid x y i c d)
        as (b & -> & Hiff); try done.
      f_equal. by apply Hiff. }
  clear Hl. simpl. destruct l as [|d0 l0].
  - eexists. split; [reflexivity|]. simpl. do 4 (split; [done|]). done.
  - destruct (choice_spec g2 (d0 :: l0)) as (d & g3 & -> & Hd); [done|]. simpl.
    apply Hl' in Hd as (Hd & Hn & Hclosed). clear Hl' d0 l0.
    destruct (Hidx' _ Hn) as (j & cn & Hen & Hj & Hposn).
    rewrite (grid_get_entry w h grid (x + dx d) (y + dy d) _ Hs Hen). simpl.
    rewrite (store_open_spec store i c d Hi Hd Hlen). simpl.
    set (store1 := <[i := opened c d]> store).
    assert (Hij : i ≠ j).
    { intros ->. assert (c = cn) by congruence. subst cn.
      rewrite Hpos in Hposn. symmetry in Hposn. by apply nbr_ne in Hposn. }
    assert (Hj1 : store1 !! j = Some cn).
    { unfold store1. by rewrite list_lookup_insert_ne. }
    assert (Hlenn : length (directions cn) = 4%nat).
    { apply Hgrid. by eapply list_elem_of_lookup_2. }
    pose proof (opp_range d Hd) as Hod.
    change ((d + 2) `mod` 4) with (opp d).
    rewrite (store_open_spec store1 j cn (opp d) Hj1 Hod Hlenn). simpl.
    set (store2 := <[j := opened cn (opp d)]> store1).
    pose proof (opened_is_grid w h store i c d Hi Hgrid) as Hgrid1.
    pose proof (opened_indexes w h store i c d Hi grid Hidx) as Hidx1.
    assert (Hflag : ∀ p e, 0 ≤ e < 4 →
              lflag store2 p e ↔ lflag store p e ∨ (p = (x, y) ∧ e = d)
                                   ∨ (p = nbr (x, y) d ∧ e = opp d)).
    { intros p e He'. unfold store2.
      rewrite (opened_lflag store1 j cn (opp d) Hj1 Hod Hlenn) by done.
      unfold store1. rewrite (opened_lflag store i c d Hi Hd Hlen) by done.
      rewrite Hpos, Hposn. tauto. }
    eexists. split; [reflexivity|]. simpl.
    split; [by apply opened_is_grid|]. split; [by apply opened_indexes|].
    split; [done|]. split.
    + by apply (symmetric_flags_open w h (lflag store) (lflag store2) (x, y) d).
    + intros p e He' Hf. apply Hflag; [done|]. by left.
Qed.

End Loops.

(** ** The target count for a zero loop factor *)

Lemma iter_pos_inv {A} (P : A → Prop) (f : A → A) :
  (∀ a, P a → P (f a)) → ∀ n a, P a → P (SpecFloat.iter_pos f n a).
Proof.
  intros Hf. induction n as [n IH|n IH|]; intros a Ha; simpl; auto.
Qed.

Lemma shr_fexp_nonneg prec emax m e l :
  0 ≤ m → 0 ≤ shr_m (shr_fexp prec emax m e l).1.
Proof.
  intros Hm. unfold shr_fexp, shr.
  assert (H0 : 0 ≤ shr_m (shr_record_of_loc m l)) by (by destruct l as [|[]]).
  destruct (fexp prec emax (Zdigits2 m + e) - e); simpl; try done.
  apply (iter_pos_inv (λ r, 0 ≤ shr_m r)); [|done].
  intros [[|[?|?|]|[?|?|]] r s] Hr; simpl in *; lia.
Qed.

Lemma binary_round_aux_not_nan prec emax sx mx ex lx :
  0 ≤ mx → binary_round_aux prec emax sx mx ex lx ≠ S754_nan.
Proof.
  intros Hm. unfold binary_round_aux.
  pose proof (shr_fexp_nonneg prec emax mx ex lx Hm) as H1.
  destruct (shr_fexp prec emax mx ex lx) as [mrs' e']. simpl in H1.
  assert (H2 : 0 ≤ round_nearest_even (shr_m mrs') (loc_of_shr_record mrs')).
  { unfold round_nearest_even.
    destruct (loc_of_shr_record mrs') as [|[]]; try done; [|lia].
    destruct (Z.even (shr_m mrs')); lia. }
  pose proof (shr_fexp_nonneg prec emax _ e' loc_Exact H2) as H3.
  destruct (shr_fexp prec emax _ e' loc_Exact) as [mrs'' e'']. simpl in H3.
  destruct (shr_m mrs''); [done| |lia].
  by destruct (e'' <=? emax - prec).
Qed.

Lemma float_of_int_Returns n f :
  float_of_int n = Returns f → (∃ s, f = S754_zero s) ∨ (∃ s m e, f = S754_finite s m e).
Proof.
  unfold float_of_int, binary_normalize, binary_round.
  destruct n as [|m|m].
  - intros [= <-]. eauto.
  - destruct (shl_align m 0 _) as [mz ez].
    pose proof (binary_round_aux_not_nan 53 1024 false (Z.pos mz) ez loc_Exact) as H.
    destruct (binary_round_aux 53 1024 false (Z.pos mz) ez loc_Exact);
      intros [= <-]; eauto. by destruct H.
  - destruct (shl_align m 0 _) as [mz ez].
    pose proof (binary_round_aux_not_nan 53 1024 true (Z.pos mz) ez loc_Exact) as H.
    destruct (binary_round_aux 53 1024 true (Z.pos mz) ez loc_Exact);
      intros [= <-]; eauto. by destruct H.
Qed.

Lemma float_of_int_cases n :
  (∃ f, float_of_int n = Returns f) ∨ float_of_int n = Raises OverflowError.
Proof.
  unfold float_of_int. destruct (binary_normalize 53 1024 n 0 false); eauto.
Qed.

Lemma total_loops_zero w h sg :
  total_loops w h (S754_zero sg) = Returns 0
  ∨ total_loops w h (S754_zero sg) = Raises OverflowError.
Proof.
  unfold total_loops.
  destruct (float_of_int_cases (w * h)) as [[f Hf]| ->]; [|by right].
  rewrite Hf. left.
  apply float_of_int_Returns in Hf as [[s ->]|(s & m & e & ->)]; reflexivity.
Qed.

(** ** The loop of [add_loops] *)

Section AddLoops.
Context `{RT : Runtime}.

Lemma loops_inv_init w h grid cells g :
  is_grid w h cells → indexes w h grid cells →
  loops_inv w h grid cells (LoopState cells 0 0 g).
Proof. intros Hg Hi. constructor; simpl; auto. lia. Qed.

Lemma loops_inv_step v w h grid cells0 s :
  1 ≤ w → 1 ≤ h → loops_inv w h grid cells0 s →
  ∃ s', loops_body v w h grid s = Returns s' ∧ loops_inv w h grid cells0 s'
        ∧ ls_attempts s' = ls_attempts s + 1.
Proof.
  intros Hw Hh [Hg Hi Hsym Hmono Hatt].
  destruct (loops_step v w h grid s Hw Hh Hg Hi)
    as (s' & Hrun & Hg' & Hi' & Hatt' & Hsym' & Hmono').
  exists s'. split; [done|]. split; [|done].
  constructor; auto. lia.
Qed.

(** The loop ends within its cap of attempts, whatever it has added. *)
Lemma add_loops_total v fuel cells w h lf g t :
  1 ≤ w → 1 ≤ h → is_grid w h cells → total_loops w h lf = Returns t →
  (Z.to_nat (max_attempts v t) < fuel)%nat →
  ∃ s grid, add_loops v fuel cells w h lf g = Returns s
    ∧ loops_inv w h grid cells s
    ∧ ls_attempts s ≤ Z.max 0 (max_attempts v t)
    ∧ loops_cond t (max_attempts v t) s = false.
Proof.
  intros Hw Hh Hg Ht Hfuel. unfold add_loops. rewrite Ht. simpl.
  destruct (index_cells_spec w h cells Hg) as (grid & -> & Hi). simpl.
  set (cap := max_attempts v t) in *.
  destruct (while_total
              (λ s, loops_inv w h grid cells s ∧ ls_attempts s ≤ Z.max 0 cap)
              (λ s, Z.to_nat (cap - ls_attempts s))
              (loops_cond t cap) (loops_body v w h grid)) with
    (fuel := fuel) (s := LoopState cells 0 0 g) as (s & Hrun & [Hinv Hle] & Hc).
  - intros s [Hinv Hle] Hc.
    destruct (loops_inv_step v w h grid cells s Hw Hh Hinv) as (s' & -> & Hinv' & Hatt).
    unfold loops_cond in Hc. apply andb_true_iff in Hc as [_ Hc].
    apply bool_decide_eq_true in Hc.
    exists s'. split; [done|]. split; [split; [done|lia]|lia].
  - split; [by apply loops_inv_init|simpl; lia].
  - simpl. lia.
  - exists s, grid. done.
Qed.

(** After any number of attempts. *)
Lemma add_loops_after_inv v k cells w h lf g t :
  1 ≤ w → 1 ≤ h → is_grid w h cells → total_loops w h lf = Returns t →
  ∃ s grid, add_loops_after v k cells w h lf g = Returns s
    ∧ loops_inv w h grid cells s.
Proof.
  intros Hw Hh Hg Ht. unfold add_loops_after. rewrite Ht. simpl.
  destruct (index_cells_spec w h cells Hg) as (grid & -> & Hi). simpl.
  destruct (iterations_inv (loops_inv w h grid cells)
              (loops_cond t (max_attempts v t)) (loops_body v w h grid))
    with (k := k) (s := LoopState cells 0 0 g) as (s & Hrun & Hinv).
  - intros s Hinv _.
    destruct (loops_inv_step v w h grid cells s Hw Hh Hinv) as (s' & -> & Hinv' & _).
    eauto.
  - by apply loops_inv_init.
  - eauto.
Qed.

(** With a target of zero the loop is not entered. *)
Lemma add_loops_zero v fuel cells w h sg g s :
  add_loops v fuel cells w h (S754_zero sg) g = Returns s →
  s = LoopState cells 0 0 g.
Proof.
  unfold add_loops. destruct (total_loops_zero w h sg) as [-> | ->]; [|done].
  simpl. destruct (index_cells cells w h) as [grid| |]; simpl; try done.
  destruct fuel as [|fuel]; simpl; [done|].
  unfold loops_cond. simpl. by intros [= <-].
Qed.

End AddLoops.

(** ** The search of [find_farthest_cell] *)

Lemma py_get_cases {A} (l : list A) i :
  (∃ a, py_get l i = Returns a ∧ a ∈ l ∧ - Z.of_nat (length l) ≤ i < Z.of_nat (length l))
  ∨ py_get l i = Raises IndexError.
Proof.
  unfold py_get, py_norm. repeat case_bool_decide; simpl; try (by right).
  - destruct (l !! Z.to_nat i) as [a|] eqn:Ha; [|by right]. left. exists a.
    split; [done|]. split; [by eapply list_elem_of_lookup_2|lia].
  - destruct (l !! Z.to_nat (Z.of_nat (length l) + i)) as [a|] eqn:Ha; [|by right].
    left. exists a. split; [done|]. split; [by eapply list_elem_of_lookup_2|lia].
Qed.

Lemma py_set_out {A} (l : list A) i a :
  Z.of_nat (length l) ≤ i ∨ i < - Z.of_nat (length l) → py_set l i a = Raises IndexError.
Proof.
  intros Hi. unfold py_set, py_norm.
  rewrite !bool_decide_eq_false_2 by lia. reflexivity.
Qed.

Lemma py_get_wrap {A} (l : list A) i :
  - Z.of_nat (length l) ≤ i < Z.of_nat (length l) →
  py_get l i = py_get l (wrap (Z.of_nat (length l)) i).
Proof.
  intros Hi. unfold py_get, py_norm, wrap.
  repeat case_bool_decide; try done; lia.
Qed.

Lemma py_set_wrap {A} (l : list A) i a :
  - Z.of_nat (length l) ≤ i < Z.of_nat (length l) →
  py_set l i a = py_set l (wrap (Z.of_nat (length l)) i) a.
Proof.
  intros Hi. unfold py_set, py_norm, wrap.
  repeat case_bool_decide; try done; lia.
Qed.

Lemma inb_wrapped w h p : inb w h p → wrapped w h p.
Proof. intros [? ?]. split; lia. Qed.

Lemma wrapped_inb w h p : wrapped w h p → inb w h (wrap w p.1, wrap h p.2).
Proof. intros [Hx Hy]. unfold inb, wrap. simpl. repeat case_bool_decide; lia. Qed.

Lemma grid_get_wrapped {A} w h (grid : list (list A)) x y :
  shape w h grid → 0 ≤ w → 0 ≤ h → wrapped w h (x, y) →
  grid_get grid x y = grid_get grid (wrap w x) (wrap h y).
Proof.
  intros [Hlen Hrows] Hw Hh [Hx Hy]. simpl in *. unfold grid_get.
  rewrite (py_get_wrap grid y) by lia.
  replace (Z.of_nat (length grid)) with h by lia.
  destruct (py_get_cases grid (wrap h y)) as [(row & -> & Hrow & _)| ->]; [|done].
  simpl. rewrite Forall_forall in Hrows. specialize (Hrows row Hrow).
  rewrite (py_get_wrap row x) by lia.
  by replace (Z.of_nat (length row)) with w by lia.
Qed.

Lemma grid_set_wrapped {A} w h (grid : list (list A)) x y a :
  shape w h grid → 0 ≤ w → 0 ≤ h → wrapped w h (x, y) →
  grid_set grid x y a = grid_set grid (wrap w x) (wrap h y) a.
Proof.
  intros [Hlen Hrows] Hw Hh [Hx Hy]. simpl in *. unfold grid_set.
  rewrite (py_get_wrap grid y) by lia.
  replace (Z.of_nat (length grid)) with h by lia.
  destruct (py_get_cases grid (wrap h y)) as [(row & -> & Hrow & _)| ->]; [|done].
  simpl. rewrite Forall_forall in Hrows. specialize (Hrows row Hrow).
  rewrite (py_set_wrap row x) by lia.
  replace (Z.of_nat (length row)) with w by lia.
  destruct (py_set row (wrap w x) a) as [row'| |]; simpl; try done.
  rewrite (py_set_wrap grid y) by lia.
  by replace (Z.of_nat (length grid)) with h by lia.
Qed.

(** The search, for the coordinates [P] the queue may hold: those of the
    grid when the start is one, or those Python's indices reach. *)
Section Search.
Context (w h : Z) (P : Z * Z → Prop).
Hypothesis Hw : 0 ≤ w.
Hypothesis Hh : 0 ≤ h.
Hypothesis P_inb : ∀ p, inb w h p → P p.
Hypothesis P_wrapped : ∀ p, P p → wrapped w h p.

Lemma bfs_visit_ok store x y dist i c n vq d :
  store !! i = Some c → length (directions c) = 4%nat → 0 ≤ d < 4 →
  bfs_ok P w h n vq →
  ∃ vq', bfs_visit store w h x y dist (Some i) vq d = Returns vq'
         ∧ bfs_ok P w h n vq'.
Proof.
  intros Hi Hlen Hd (Hs & Hq & Hn). unfold bfs_visit. simpl. rewrite Hi. simpl.
  destruct (lookup_lt_is_Some_2 (directions c) (Z.to_nat d)) as [f Hf]; [lia|].
  rewrite (py_get_in _ _ f) by (lia || done). simpl.
  case_bool_decide; [|by exists vq].
  destruct (in_bounds w h (x + dx d) (y + dy d)) eqn:Hin; [|by exists vq].
  apply in_bounds_inb in Hin.
  destruct (entry_inb w h vq.1 _ Hs Hin) as [seen Hseen].
  rewrite (grid_get_entry w h _ _ _ _ Hs Hseen). simpl.
  destruct seen; [by exists vq|].
  destruct (grid_set_entry w h vq.1 _ _ false true Hs Hseen)
    as (vis & -> & Hs' & _ & _ & Hsum).
  simpl. eexists. split; [reflexivity|]. split; [done|]. simpl. split.
  - apply Forall_app. split; [done|]. apply Forall_singleton. by apply P_inb.
  - specialize (Hsum unseen_weight). simpl in Hsum. rewrite length_app. simpl. lia.
Qed.

Lemma bfs_step store grid s :
  is_grid w h store → indexes w h grid store →
  bfs_inv P w h s → bfs_cond s = true →
  ∃ s', bfs_body store w h grid s = Returns s' ∧ bfs_inv P w h s'
        ∧ (bfs_measure s' < bfs_measure s)%nat.
Proof.
  intros Hg [Hsg Hidx] [Hs Hq Hfar] Hc. destruct s as [vis queue far mx].
  simpl in *. unfold bfs_cond in Hc. simpl in Hc.
  destruct queue as [|[[x y] dist] queue]; [done|]. clear Hc.
  apply Forall_cons in Hq as [Hxy Hq]. simpl in Hxy.
  unfold bfs_body. cbn [bs_queue bs_visited bs_far bs_max].
  pose proof (P_wrapped _ Hxy) as Hwr.
  rewrite (grid_get_wrapped w h grid x y Hsg Hw Hh Hwr).
  pose proof (wrapped_inb w h _ Hwr) as Hin'. simpl in Hin'.
  destruct (Hidx _ Hin') as (i & c & He & Hi & Hpos).
  rewrite (grid_get_entry w h grid _ _ _ Hsg He). cbn [mbind res_bind].
  assert (Hlen : length (directions c) = 4%nat).
  { apply Hg. by eapply list_elem_of_lookup_2. }
  destruct (for_fold_inv
              (bfs_ok P w h (gsum unseen_weight vis + length queue)%nat)
              (bfs_visit store w h x y dist (Some i)) (range 4))
    with (s := (vis, queue)) as (vq & -> & (Hs' & Hq' & Hn)).
  - intros vq d Hok Hd. apply elem_of_range4 in Hd.
    by eapply bfs_visit_ok.
  - by split.
  - simpl. eexists. split; [reflexivity|]. split.
    + constructor; simpl; try done.
      case_bool_decide; [by exists x, y|done].
    + unfold bfs_measure. simpl. lia.
Qed.

Lemma find_farthest_total fuel cells sx sy :
  is_grid w h cells → P (sx, sy) →
  (Z.to_nat (w * h) < fuel)%nat →
  ∃ x y, find_farthest_cell fuel cells w h [sx; sy] = Returns [x; y] ∧ P (x, y).
Proof.
  intros Hg Hin Hfuel. unfold find_farthest_cell.
  destruct (index_cells_spec w h cells Hg) as (grid & -> & Hidx). simpl.
  change (py_get [sx; sy] 0) with (Returns sx).
  change (py_get [sx; sy] 1) with (Returns sy). simpl.
  pose proof (P_wrapped _ Hin) as Hwr.
  rewrite (grid_set_wrapped w h _ sx sy true (shape_new_grid w h false) Hw Hh Hwr).
  pose proof (wrapped_inb w h _ Hwr) as Hin'. simpl in Hin'.
  destruct (grid_set_entry w h (new_grid w h false) _ _ false true
              (shape_new_grid w h false) (entry_new_grid w h false _ Hin'))
    as (vis & -> & Hs & _ & _ & Hsum).
  simpl.
  destruct (while_total (bfs_inv P w h) bfs_measure bfs_cond
              (bfs_body cells w h grid) (λ s, bfs_step cells grid s Hg Hidx) fuel
              (BfsState vis [(sx, sy, 0)] [sx; sy] 0))
    as (s & -> & [_ _ (x & y & Hfar & Hxy)] & _).
  - constructor; simpl; [done| |by exists sx, sy].
    by apply Forall_singleton.
  - unfold bfs_measure. simpl. specialize (Hsum unseen_weight).
    rewrite gsum_new_grid in Hsum. simpl in Hsum.
    rewrite Z2Nat.inj_mul in Hfuel by lia. lia.
  - simpl. exists x, y. by rewrite Hfar.
Qed.

End Search.

(** There is no bounds check: a start outside the range of Python's
    indices ends in the [IndexError] of [visited[start[1]][start[0]]]. *)
Lemma find_farthest_out fuel cells w h sx sy :
  is_grid w h cells → 0 ≤ w → 0 ≤ h →
  (w ≤ sx ∨ sx < - w ∨ h ≤ sy ∨ sy < - h) →
  find_farthest_cell fuel cells w h [sx; sy] = Raises IndexError.
Proof.
  intros Hg Hw Hh Hout. unfold find_farthest_cell.
  destruct (index_cells_spec w h cells Hg) as (grid & -> & Hidx). simpl.
  change (py_get [sx; sy] 0) with (Returns sx).
  change (py_get [sx; sy] 1) with (Returns sy). simpl.
  unfold grid_set, new_grid.
  destruct (py_get_cases (replicate (Z.to_nat h) (replicate (Z.to_nat w) false)) sy)
    as [(row & -> & Hrow & Hsy)| ->]; [|done].
  simpl. rewrite length_replicate in Hsy.
  apply elem_of_replicate in Hrow as [-> _].
  rewrite py_set_out; [done|]. rewrite length_replicate. lia.
Qed.

Lemma symmetric_of_flags w h cells :
  is_grid w h cells → symmetric_flags w h (lflag cells) → symmetric w h cells.
Proof.
  intros Hg Hsym a d Ha Hd. split.
  - intros Hin b Hb Hpos. split; intros Hf.
    + destruct (Hsym (position a) d Hd) as [_ (b' & Hb' & Hpos' & Hf')];
        [by exists a|].
      rewrite (is_grid_unique w h cells b b' Hg Hb Hb'); [done|congruence].
    + destruct (Hsym (position b) (opp d) (opp_range d Hd))
        as [_ (a' & Ha' & Hpos' & Hf')]; [by exists b|].
      rewrite Hpos, nbr_opp in Hpos' by done.
      rewrite opp_opp in Hf' by done.
      by rewrite (is_grid_unique w h cells a a' Hg Ha Ha').
  - intros Hout Hf. apply Hout. apply (Hsym (position a) d Hd). by exists a.
Qed.

Lemma flags_of_symmetric w h cells :
  is_grid w h cells → symmetric w h cells → symmetric_flags w h (lflag cells).
Proof.
  intros Hg Hsym p d Hd (a & Ha & <- & Hf).
  destruct (Hsym a d Ha Hd) as [Hin Hout].
  assert (Hq : inb w h (nbr (position a) d)).
  { unfold inb in *.
    destruct (decide (0 ≤ (nbr (position a) d).1 < w
                      ∧ 0 ≤ (nbr (position a) d).2 < h)) as [?|Hno]; [done|].
    by destruct (Hout Hno). }
  split; [done|].
  destruct (grid_covers w h cells Hg _ Hq) as (b & Hb & Hpos).
  exists b. split; [done|]. split; [done|]. by apply (Hin Hq b Hb Hpos).
Qed.

Lemma while_mono {S} cond (body : S → res S) n m s s' :
  while n cond body s = Returns s' → (n ≤ m)%nat →
  while m cond body s = Returns s'.
Proof.
  revert m s. induction n as [|n IH]; intros m s H Hle; [done|].
  destruct m as [|m]; [lia|]. simpl in *.
  destruct (cond s); [|done].
  destruct (body s) as [s1| |]; simpl in *; try done.
  apply IH; [done|lia].
Qed.

Lemma while_iterations {S} cond (body : S → res S) n s s' :
  while n cond body s = Returns s' → iterations n cond body s = Returns s'.
Proof.
  revert s. induction n as [|n IH]; intros s H; [done|]. simpl in *.
  destruct (cond s); [|done].
  destruct (body s) as [s1| |]; simpl in *; try done. by apply IH.
Qed.

(** A loop that ends on fuel [n + 1] has run at most [n] iterations. *)
Lemma while_S_iterations {S} cond (body : S → res S) n s s' :
  while (Datatypes.S n) cond body s = Returns s' →
  iterations n cond body s = Returns s'.
Proof.
  revert s. induction n as [|n IH]; intros s H.
  - simpl in *. destruct (cond s); [|done]. by destruct (body s).
  - change (while (Datatypes.S (Datatypes.S n)) cond body s)
      with (if cond s then s1 ← body s; while (Datatypes.S n) cond body s1
            else Returns s) in H.
    simpl. destruct (cond s); [|done].
    destruct (body s) as [s1| |]; cbn [mbind res_bind] in *; try done.
    by apply IH.
Qed.

Lemma is_grid_single : is_grid 1 1 [make_cell 0 0].
Proof.
  constructor.
  - intros c Hc. apply list_elem_of_singleton in Hc as ->.
    split; [split; simpl; lia|done].
  - intros [x y] [Hx Hy]. simpl in *. exists (make_cell 0 0).
    split; [by left|]. unfold make_cell. simpl. f_equal; lia.
  - simpl. apply NoDup_singleton.
Qed.

(** ** Running the carving loop where every choice is forced *)

Lemma choice_singleton `{RT : Runtime} {A} (g : rng) (a : A) :
  choice g [a] = Returns (a, (randbelow g 1).2).
Proof.
  unfold choice. simpl. pose proof (randbelow_lt g 1) as H.
  assert (Hr : (randbelow g 1).1 = 0%nat) by lia. rewrite Hr. reflexivity.
Qed.

Lemma while_S {S} n cond (body : S → res S) s :
  while (Datatypes.S n) cond body s
  = if cond s then s' ← body s; while n cond body s' else Returns s.
Proof. reflexivity. Qed.

Ltac eval_here t := let v := eval vm_compute in t in change t with v.

Ltac carve_run :=
  repeat first
    [ progress cbn [mbind res_bind cs_stack cs_grid cs_rng carve_cond]
    | rewrite while_S
    | rewrite choice_singleton
    | progress unfold carve_body
    | match goal with
      | |- context [grid_set ?a ?b ?c ?d] => eval_here (grid_set a b c d)
      | |- context [carve_flag ?a ?b ?c ?d] => eval_here (carve_flag a b c d)
      | |- context [select ?f ?l] => eval_here (select f l)
      end ].

Lemma carve_corridor `{RT : Runtime} seed g :
  ∃ g', carve 10 1 5 seed g
        = Returns (CarveState ((λ c, [Some c]) <$> corridor) [] g').
Proof.
  unfold carve. carve_run. eexists. reflexivity.
Qed.

Lemma carve_corridor_row `{RT : Runtime} seed g :
  ∃ g', carve 10 5 1 seed g
        = Returns (CarveState [Some <$> corridor_row] [] g').
Proof.
  unfold carve. carve_run. eexists. reflexivity.
Qed.

(** More fuel changes no result. *)
Lemma carve_mono `{RT : Runtime} n m w h seed g s :
  carve n w h seed g = Returns s → (n ≤ m)%nat → carve m w h seed g = Returns s.
Proof.
  unfold carve. intros H Hle.
  destruct (grid_set (new_grid w h None) 0 0 (Some (make_cell 0 0)));
    cbn [mbind res_bind] in *; try done.
  by eapply while_mono.
Qed.

Lemma find_farthest_mono n m cells w h start far :
  find_farthest_cell n cells w h start = Returns far → (n ≤ m)%nat →
  find_farthest_cell m cells w h start = Returns far.
Proof.
  unfold find_farthest_cell. intros H Hle.
  destruct (index_cells cells w h); cbn [mbind res_bind] in *; try done.
  destruct (py_get start 0); cbn [mbind res_bind] in *; try done.
  destruct (py_get start 1); cbn [mbind res_bind] in *; try done.
  destruct (grid_set (new_grid w h false) _ _ true); cbn [mbind res_bind] in *;
    try done.
  destruct (while n _ _ _) as [s| |] eqn:Hrun; cbn [mbind res_bind] in *; try done.
  by rewrite (while_mono _ _ n m _ s Hrun Hle).
Qed.

(** The 5x1 maze is the row, and its far end is (4, 0). *)
Lemma corridor_row_farthest `{RT : Runtime} fuel seed g :
  (10 ≤ fuel)%nat →
  ∃ g', generate_maze fuel 5 1 seed g = Returns (corridor_row, g')
        ∧ find_farthest_cell fuel corridor_row 5 1 [0; 0] = Returns [4; 0].
Proof.
  intros Hfuel. destruct (carve_corridor_row seed g) as [g' Hc].
  exists g'. split.
  - unfold generate_maze. rewrite (carve_mono 10 fuel _ _ _ _ _ Hc Hfuel).
    reflexivity.
  - apply (find_farthest_mono 10); [|done]. vm_compute. reflexivity.
Qed.

(** ** The whole of [build_data] on valid dimensions *)

Section BuildData.
Context `{RT : Runtime}.

Lemma generate_maze_invalid fuel w h seed g :
  w < 1 ∨ h < 1 → generate_maze fuel w h seed g = Raises IndexError.
Proof.
  intros Hwh. unfold generate_maze, carve, grid_set, new_grid.
  destruct (decide (h < 1)) as [Hh|Hh].
  - replace (Z.to_nat h) with 0%nat by lia. reflexivity.
  - replace (Z.to_nat w) with 0%nat by lia.
    destruct (Z.to_nat h) as [|n] eqn:Hn; [lia|]. reflexivity.
Qed.

Lemma build_data_total fuel w h seed loops g t :
  1 ≤ w → 1 ≤ h →
  SFltb float_zero loops = false ∨ total_loops w h loops = Returns t →
  (Z.to_nat (2 * w * h) ≤ fuel)%nat → (Z.to_nat (max_attempts Cli t) < fuel)%nat →
  ∃ m g', build_data fuel w h seed loops None None g = Returns (m, g')
    ∧ m_width m = w ∧ m_height m = h ∧ m_loops m = loops
    ∧ is_grid w h (m_cells m) ∧ m_start m = [0; 0]
    ∧ ∃ x y, m_end m = [x; y] ∧ inb w h (x, y).
Proof.
  intros Hw Hh Hloops Hfuel1 Hfuel2. unfold build_data.
  destruct (generate_maze_spec fuel w h seed g Hw Hh Hfuel1)
    as (s0 & _ & _ & -> & _ & Hg & _).
  cbn [mbind res_bind]. set (cells0 := mjoin _) in *.
  assert (Hstep : ∃ cells g2,
    (if SFltb float_zero loops
     then s ← add_loops Cli fuel cells0 w h loops (cs_rng s0);
          Returns (ls_cells s, ls_rng s)
     else Returns (cells0, cs_rng s0)) = Returns (cells, g2)
    ∧ is_grid w h cells).
  { destruct (SFltb float_zero loops) eqn:Hlt; [|by eauto].
    destruct Hloops as [?|Ht]; [done|].
    destruct (add_loops_total Cli fuel cells0 w h loops (cs_rng s0) t
                Hw Hh Hg Ht Hfuel2) as (s & grid & -> & Hinv & _).
    do 2 eexists. split; [reflexivity|]. apply Hinv. }
  destruct Hstep as (cells & g2 & -> & Hg'). cbn [mbind res_bind coordinate_or].
  destruct (find_farthest_total w h (inb w h) ltac:(lia) ltac:(lia) (λ p H, H)
              (inb_wrapped w h) fuel cells 0 0 Hg') as (x & y & -> & Hxy).
  { split; simpl; lia. }
  { assert (Z.to_nat (w * h) < Z.to_nat (2 * w * h))%nat by nia. lia. }
  cbn [mbind res_bind]. do 2 eexists. split; [reflexivity|]. simpl.
  do 5 (split; [done|]). by exists x, y.
Qed.

End BuildData.

(** * More about the code *)

(** ** Reading results back *)

Lemma bind_Returns {A B} (f : A → res B) (m : res A) (b : B) :
  m ≫= f = Returns b ↔ ∃ a, m = Returns a ∧ f a = Returns b.
Proof.
  destruct m; simpl; split; try (intros [? [? ?]]); try discriminate; eauto.
  simplify_eq. assumption.
Qed.

(** Take the next bind of a hypothesis [m ≫= f = Returns b] apart. *)
Ltac bind_inv H :=
  let a := fresh "a" in
  let H1 := fresh H in
  apply bind_Returns in H as (a & H1 & H).

Lemma py_get_Returns {A} (l : list A) i a :
  py_get l i = Returns a → ∃ k, l !! k = Some a.
Proof.
  unfold py_get. destruct (py_norm (length l) i) as [k|]; simpl; [|done].
  destruct (l !! k) eqn:Hk; [|done]. intros [= <-]. eauto.
Qed.

Lemma py_set_Returns {A} (l : list A) i a l' :
  py_set l i a = Returns l' → ∃ k, (k < length l)%nat ∧ l' = <[k:=a]> l.
Proof.
  unfold py_set, py_norm. repeat case_bool_decide; intros [= <-]; eexists;
    (split; [|reflexivity]); lia.
Qed.

Lemma while_preserve {S} (R : S → Prop) cond (body : S → res S) :
  (∀ s s', cond s = true → body s = Returns s' → R s → R s') →
  ∀ n s s', while n cond body s = Returns s' → R s → R s'.
Proof.
  intros Hstep n. induction n as [|n IH]; intros s s' H HR; [done|].
  simpl in H. destruct (cond s) eqn:Hc; [|by simplify_eq].
  bind_inv H. eauto.
Qed.

Lemma while_exit {S} cond (body : S → res S) n s s' :
  while n cond body s = Returns s' → cond s' = false.
Proof.
  revert s. induction n as [|n IH]; intros s H; [done|]. simpl in H.
  destruct (cond s) eqn:Hc; [|by simplify_eq]. bind_inv H. eauto.
Qed.

Lemma iterations_preserve {S} (R : S → Prop) cond (body : S → res S) :
  (∀ s s', cond s = true → body s = Returns s' → R s → R s') →
  ∀ n s s', iterations n cond body s = Returns s' → R s → R s'.
Proof.
  intros Hstep n. induction n as [|n IH]; intros s s' H HR; [by simplify_eq/=|].
  simpl in H. destruct (cond s) eqn:Hc; [|by simplify_eq].
  bind_inv H. eauto.
Qed.

(** ** [add_loops] only opens *)

Lemma keeps_refl store : keeps store store.
Proof. split; [done|]. intros i c Hi. exists c. done. Qed.

Lemma keeps_trans s1 s2 s3 : keeps s1 s2 → keeps s2 s3 → keeps s1 s3.
Proof.
  intros [Hl1 H1] [Hl2 H2]. split; [congruence|]. intros i c Hi.
  destruct (H1 i c Hi) as (c' & Hi' & Hp & Hn & Hf).
  destruct (H2 i c' Hi') as (c'' & Hi'' & Hp' & Hn' & Hf').
  exists c''. split; [done|]. split; [congruence|]. split; [congruence|]. auto.
Qed.

Lemma open_flag_Returns c d c' :
  open_flag c d = Returns c' →
  position c' = position c ∧ length (directions c') = length (directions c)
  ∧ (∀ e, directions c !! e = Some 1 → directions c' !! e = Some 1)
  ∧ (Forall (λ f, f = 0 ∨ f = 1) (directions c) →
     Forall (λ f, f = 0 ∨ f = 1) (directions c')).
Proof.
  unfold open_flag. intros H. bind_inv H. injection H as <-. simpl.
  apply py_set_Returns in H0 as (k & Hk & ->).
  split; [done|]. split; [by rewrite length_insert|]. split.
  - intros e He. destruct (decide (k = e)) as [->|Hne].
    + by apply list_lookup_insert_eq.
    + by rewrite list_lookup_insert_ne.
  - intros Hall. apply Forall_insert; auto.
Qed.

Lemma store_open_keeps store r d store' :
  store_open store r d = Returns store' → keeps store store'.
Proof.
  unfold store_open. destruct r as [i|]; [|done].
  destruct (store !! i) as [c|] eqn:Hi; [|done]. intros H. bind_inv H.
  injection H as <-. apply open_flag_Returns in H0 as (Hp & Hn & Hf & _).
  split; [by rewrite length_insert|]. intros k c' Hk.
  destruct (decide (k = i)) as [->|Hne].
  - assert (c' = c) as -> by congruence. exists a.
    split; [|done]. apply list_lookup_insert_eq. by eapply lookup_lt_Some.
  - exists c'. by rewrite list_lookup_insert_ne.
Qed.

Section Keeps.
Context `{RT : Runtime}.

Lemma loops_body_keeps v w h grid s s' :
  loops_body v w h grid s = Returns s' → keeps (ls_cells s) (ls_cells s').
Proof.
  unfold loops_body. intros H.
  bind_inv H. destruct a as [x g1]. bind_inv H. destruct a as [y g2].
  bind_inv H. bind_inv H. destruct a0 as [|d0 l0].
  { injection H as <-. apply keeps_refl. }
  bind_inv H. destruct a0 as [d g3]. bind_inv H. bind_inv H. bind_inv H.
  injection H as <-. simpl.
  eapply keeps_trans; by eapply store_open_keeps.
Qed.

Lemma add_loops_keeps v fuel cells w h lf g s :
  add_loops v fuel cells w h lf g = Returns s → keeps cells (ls_cells s).
Proof.
  unfold add_loops. intros H. bind_inv H. bind_inv H.
  eapply (while_preserve (λ s, keeps cells (ls_cells s))); [|exact H|apply keeps_refl].
  intros s1 s2 _ Hbody Hk. eapply keeps_trans; [exact Hk|].
  by eapply loops_body_keeps.
Qed.

End Keeps.

Lemma keeps_lflag store store' p d :
  keeps store store' → lflag store p d → lflag store' p d.
Proof.
  intros [_ Hk] (c & Hc & Hp & Hf). apply list_elem_of_lookup in Hc as [i Hi].
  destruct (Hk i c Hi) as (c' & Hi' & Hp' & _ & Hf').
  exists c'. split; [by eapply list_elem_of_lookup_2|]. split; [congruence|auto].
Qed.

Lemma keeps_positions store store' :
  keeps store store' → position <$> store' = position <$> store.
Proof.
  intros [Hlen Hk]. apply list_eq. intros i. rewrite !list_lookup_fmap.
  destruct (store !! i) as [c|] eqn:Hi.
  - destruct (Hk i c Hi) as (c' & -> & Hp & _). simpl. by rewrite Hp.
  - apply lookup_ge_None in Hi. rewrite lookup_ge_None_2 by lia. done.
Qed.

(** ** What an attempt of [add_loops] does, exactly *)

Section Attempt.
Context `{RT : Runtime}.
Arguments store_open : simpl never.

Lemma loops_body_cases v w h grid s :
  1 ≤ w → 1 ≤ h →
  is_grid w h (ls_cells s) → indexes w h grid (ls_cells s) →
  ∃ s', loops_body v w h grid s = Returns s'
    ∧ ls_attempts s' = ls_attempts s + 1
    ∧ ((ls_cells s' = ls_cells s ∧ ls_added s' = ls_added s)
       ∨ ∃ i j c cn d,
           0 ≤ d < 4 ∧ ls_cells s !! i = Some c ∧ ls_cells s !! j = Some cn
           ∧ i ≠ j ∧ position cn = nbr (position c) d
           ∧ directions c !! Z.to_nat d = Some 0
           ∧ ls_cells s' = <[j := opened cn (opp d)]> (<[i := opened c d]> (ls_cells s))
           ∧ ls_added s' = ls_added s + 1).
Proof.
  intros Hw Hh Hgrid Hidx. destruct s as [store added attempts g]. simpl in *.
  unfold loops_body. simpl.
  destruct (randint_spec g w Hw) as (x & g1 & -> & Hx). simpl.
  destruct (randint_spec g1 h Hh) as (y & g2 & -> & Hy). simpl.
  pose proof Hidx as [Hs Hidx'].
  assert (Hxy : inb w h (x, y)) by (split; simpl; lia).
  destruct (Hidx' (x, y) Hxy) as (i & c & He & Hi & Hpos).
  rewrite (grid_get_entry w h grid x y _ Hs He). simpl.
  assert (Hlen : length (directions c) = 4%nat).
  { apply Hgrid. by eapply list_elem_of_lookup_2. }
  destruct (select_spec (closed_towards v store grid w h x y (Some i)) (range 4))
    as (l & -> & Hl).
  { intros d Hd. apply elem_of_range4 in Hd.
    destruct (closed_towards_spec v w h store grid x y i c d) as (b & ? & _); eauto. }
  assert (Hl' : ∀ d, d ∈ l → 0 ≤ d < 4 ∧ inb w h (nbr (x, y) d)
                             ∧ directions c !! Z.to_nat d = Some 0).
  { intros d Hd. apply Hl in Hd as [Hd Hb]. apply elem_of_range4 in Hd.
    destruct (closed_towards_spec v w h store grid x y i c d)
      as (b & Hb' & Hiff); try done.
    rewrite Hb in Hb'. simplify_eq. split; [done|]. by apply Hiff. }
  clear Hl. simpl. destruct l as [|d0 l0].
  - eexists. split; [reflexivity|]. simpl. split; [done|]. by left.
  - destruct (choice_spec g2 (d0 :: l0)) as (d & g3 & -> & Hd); [done|]. simpl.
    apply Hl' in Hd as (Hd & Hn & Hclosed). clear Hl' d0 l0.
    destruct (Hidx' _ Hn) as (j & cn & Hen & Hj & Hposn).
    rewrite (grid_get_entry w h grid (x + dx d) (y + dy d) _ Hs Hen). simpl.
    rewrite (store_open_spec store i c d Hi Hd Hlen). simpl.
    assert (Hij : i ≠ j).
    { intros ->. assert (c = cn) by congruence. subst cn.
      rewrite Hpos in Hposn. symmetry in Hposn. by apply nbr_ne in Hposn. }
    assert (Hj1 : <[i := opened c d]> store !! j = Some cn).
    { by rewrite list_lookup_insert_ne. }
    assert (Hlenn : length (directions cn) = 4%nat).
    { apply Hgrid. by eapply list_elem_of_lookup_2. }
    pose proof (opp_range d Hd) as Hod.
    change ((d + 2) `mod` 4) with (opp d).
    rewrite (store_open_spec _ j cn (opp d) Hj1 Hod Hlenn). simpl.
    eexists. split; [reflexivity|]. simpl. split; [done|]. right.
    exists i, j, c, cn, d. rewrite Hpos. done.
Qed.

End Attempt.

Lemma pair_weight_opened (c cn : cell) d :
  0 ≤ d < 4 → length (directions c) = 4%nat → length (directions cn) = 4%nat →
  directions c !! Z.to_nat d ≠ Some 1 →
  directions cn !! Z.to_nat (opp d) ≠ Some 1 →
  (pair_weight (opened c d) + pair_weight (opened cn (opp d))
   = pair_weight c + pair_weight cn + 1)%nat.
Proof.
  intros Hd Hlen Hlenn Hf Hfn. destruct c as [pos ds], cn as [posn dsn].
  simpl in *.
  do 5 (destruct ds as [|? ds]; simplify_eq/=).
  do 5 (destruct dsn as [|? dsn]; simplify_eq/=).
  unfold pair_weight, flag_weight, opened.
  dir_cases d; simpl in *; repeat case_bool_decide; simplify_eq; lia.
Qed.

(** On symmetric flags an opened passage is one passage more. *)
Lemma opened_pair_count w h store i j c cn d :
  is_grid w h store → symmetric_flags w h (lflag store) →
  0 ≤ d < 4 → store !! i = Some c → store !! j = Some cn → i ≠ j →
  position cn = nbr (position c) d → directions c !! Z.to_nat d = Some 0 →
  sum_list_with pair_weight (<[j := opened cn (opp d)]> (<[i := opened c d]> store))
  = (sum_list_with pair_weight store + 1)%nat.
Proof.
  intros Hg Hsym Hd Hi Hj Hij Hpos Hclosed.
  assert (Hc : c ∈ store) by (by eapply list_elem_of_lookup_2).
  assert (Hcn : cn ∈ store) by (by eapply list_elem_of_lookup_2).
  assert (Hlen : length (directions c) = 4%nat) by (by apply Hg).
  assert (Hlenn : length (directions cn) = 4%nat) by (by apply Hg).
  assert (Hfn : directions cn !! Z.to_nat (opp d) ≠ Some 1).
  { intros Hf.
    destruct (Hsym (position cn) (opp d) (opp_range d Hd))
      as [_ (c0 & Hc0 & Hpos0 & Hf0)]; [by exists cn|].
    rewrite Hpos, nbr_opp, opp_opp in * by done.
    rewrite (is_grid_unique w h store c0 c Hg Hc0 Hc Hpos0) in Hf0. congruence. }
  pose proof (sum_list_with_insert pair_weight store i c (opened c d) Hi) as H1.
  pose proof (sum_list_with_insert pair_weight (<[i := opened c d]> store) j cn
                (opened cn (opp d))) as H2.
  rewrite list_lookup_insert_ne in H2 by done. specialize (H2 Hj).
  pose proof (pair_weight_opened c cn d Hd Hlen Hlenn) as H3.
  rewrite Hclosed in H3. specialize (H3 ltac:(done) Hfn). lia.
Qed.

Section Counting.
Context `{RT : Runtime}.

Lemma count_inv_step v w h grid cells0 t cap s s' :
  1 ≤ w → 1 ≤ h → loops_cond t cap s = true →
  loops_body v w h grid s = Returns s' →
  count_inv w h grid cells0 t s → count_inv w h grid cells0 t s'.
Proof.
  intros Hw Hh Hcond Hbody [Hg Hi Hsym Hcount Hadded].
  destruct (loops_step v w h grid s Hw Hh Hg Hi)
    as (s1 & Hrun & Hg' & Hi' & _ & Hsym' & _).
  destruct (loops_body_cases v w h grid s Hw Hh Hg Hi)
    as (s2 & Hrun2 & _ & Hcases).
  assert (s1 = s') as -> by congruence. assert (s2 = s') as -> by congruence.
  unfold loops_cond in Hcond. apply andb_true_iff in Hcond as [Hlt _].
  apply bool_decide_eq_true in Hlt.
  constructor; auto.
  - destruct Hcases as [[-> ->]|(i & j & c & cn & d & Hd & Hci & Hcj & Hij & Hpos
                                 & Hclosed & -> & ->)]; [done|].
    rewrite (opened_pair_count w h (ls_cells s) i j c cn d) by done. lia.
  - destruct Hcases as [[_ ->]|(i & j & c & cn & d & _ & _ & _ & _ & _ & _ & _ & ->)];
      lia.
Qed.

Lemma add_loops_counts v fuel cells w h lf g s :
  1 ≤ w → 1 ≤ h → is_grid w h cells → symmetric_flags w h (lflag cells) →
  add_loops v fuel cells w h lf g = Returns s →
  ∃ t grid, total_loops w h lf = Returns t
    ∧ count_inv w h grid cells t s
    ∧ loops_cond t (max_attempts v t) s = false.
Proof.
  intros Hw Hh Hg Hsym H. unfold add_loops in H. bind_inv H. bind_inv H.
  rename a into t, a0 into grid. exists t, grid. split; [done|].
  destruct (index_cells_spec w h cells Hg) as (grid' & Hgrid' & Hidx).
  assert (grid' = grid) as -> by congruence.
  split.
  - eapply (while_preserve (count_inv w h grid cells t)); [|exact H|].
    + intros s1 s2 Hc Hb Hinv. by eapply count_inv_step.
    + constructor; simpl; auto; lia.
  - by eapply while_exit.
Qed.

End Counting.

(** ** The order and the flags of the cells [generate_maze] returns *)

Lemma grid_get_Forall {A} (Q : A → Prop) (grid : list (list A)) x y a :
  grid_get grid x y = Returns a → Forall (Forall Q) grid → Q a.
Proof.
  unfold grid_get. intros H Hall. bind_inv H.
  apply py_get_Returns in H0 as [k Hk], H as [k' Hk'].
  rewrite Forall_lookup in Hall. specialize (Hall _ _ Hk).
  rewrite Forall_lookup in Hall. eauto.
Qed.

Lemma grid_set_Forall {A} (Q : A → Prop) (grid : list (list A)) x y a grid' :
  grid_set grid x y a = Returns grid' → Forall (Forall Q) grid → Q a →
  Forall (Forall Q) grid'.
Proof.
  unfold grid_set. intros H Hall Ha. bind_inv H. bind_inv H.
  apply py_get_Returns in H0 as [k Hk].
  apply py_set_Returns in H1 as (k1 & _ & ->), H as (k2 & _ & ->).
  apply Forall_insert; [done|]. apply Forall_insert; [|done].
  rewrite Forall_lookup in Hall. eauto.
Qed.

Lemma carve_flag_all (Q : cell → Prop) grid x y d grid' :
  (∀ c c', open_flag c d = Returns c' → Q c → Q c') →
  carve_flag grid x y d = Returns grid' → all_cells Q grid → all_cells Q grid'.
Proof.
  intros HQ H Hall. unfold carve_flag in H. bind_inv H.
  destruct a as [c|]; [|done]. bind_inv H.
  eapply grid_set_Forall; [exact H|exact Hall|].
  intros c' [= <-]. eapply HQ; [exact H1|].
  by eapply (grid_get_Forall _ _ _ _ _ H0 Hall).
Qed.

Section Bits.
Context `{RT : Runtime}.

Lemma carve_body_bits w h s s' :
  carve_body w h s = Returns s' →
  all_cells bits (cs_grid s) → all_cells bits (cs_grid s').
Proof.
  unfold carve_body. destruct (cs_stack s) as [|[x y] rest]; [done|].
  intros H Hall. bind_inv H. destruct a as [|d0 l0].
  { by injection H as <-. }
  bind_inv H. destruct a as [d g]. bind_inv H. bind_inv H. bind_inv H.
  injection H as <-. simpl.
  assert (Hopen : ∀ e c c', open_flag c e = Returns c' → bits c → bits c').
  { intros e c c' Ho. by apply open_flag_Returns in Ho as (_ & _ & _ & ?). }
  eapply carve_flag_all; [apply Hopen|exact H4|].
  eapply carve_flag_all; [apply Hopen|exact H3|].
  eapply grid_set_Forall; [exact H2|exact Hall|].
  intros c [= <-]. unfold bits. simpl. repeat constructor; auto.
Qed.

Lemma carve_bits fuel w h seed g s :
  carve fuel w h seed g = Returns s → all_cells bits (cs_grid s).
Proof.
  unfold carve. intros H. bind_inv H.
  eapply (while_preserve (λ s, all_cells bits (cs_grid s))); [|exact H|].
  - intros s1 s2 _. apply carve_body_bits.
  - simpl. eapply grid_set_Forall; [exact H0| |].
    + unfold new_grid. apply Forall_replicate, Forall_replicate. done.
    + intros c [= <-]. unfold bits. simpl. repeat constructor; auto.
Qed.

End Bits.

Lemma all_cells_entry (Q : cell → Prop) grid p c :
  all_cells Q grid → entry grid p = Some (Some c) → Q c.
Proof.
  intros Hall H. unfold entry in H. case_bool_decide; [|done].
  apply bind_Some in H as (row & Hrow & H).
  unfold all_cells in Hall. rewrite Forall_lookup in Hall.
  specialize (Hall _ _ Hrow). rewrite Forall_lookup in Hall.
  by apply (Hall _ _ H).
Qed.

(** ** The search of [find_farthest_cell] is breadth-first *)

Lemma for_fold_range {St} (K : Z → St → Prop) (f : St → Z → res St) n s :
  0 ≤ n → K 0 s →
  (∀ k s, 0 ≤ k < n → K k s → ∃ s', f s k = Returns s' ∧ K (k + 1) s') →
  ∃ s', for_fold f s (range n) = Returns s' ∧ K n s'.
Proof.
  intros Hn H0 Hstep. unfold range.
  assert (Hgen : ∀ m j s, K (Z.of_nat j) s → (j + m)%nat = Z.to_nat n →
            ∃ s', for_fold f s (Z.of_nat <$> seq j m) = Returns s' ∧ K n s').
  { clear s H0. induction m as [|m IH]; intros j s HK Hj; simpl.
    - exists s. split; [done|]. by replace n with (Z.of_nat j) by lia.
    - destruct (Hstep (Z.of_nat j) s) as (s' & -> & HK'); [lia|done|]. simpl.
      apply IH; [|lia]. by replace (Z.of_nat (S j)) with (Z.of_nat j + 1) by lia. }
  by apply (Hgen (Z.to_nat n) 0%nat s).
Qed.

Lemma levels_head D e Q : levels D (e :: Q) → levels e.2 (e :: Q).
Proof.
  intros (Q1 & Q2 & Heq & H1 & H2). destruct Q1 as [|e1 Q1]; simpl in Heq.
  - subst Q2. exists (e :: Q), []. rewrite app_nil_r. split; [done|].
    split; [|done]. apply Forall_cons in H2 as [He H2]. rewrite He.
    by apply Forall_cons.
  - injection Heq as <- ->. apply Forall_cons in H1 as [He H1]. rewrite He.
    exists (e :: Q1), Q2. split; [done|]. split; [|done]. by apply Forall_cons.
Qed.

Lemma levels_tail e Q : levels e.2 (e :: Q) → levels e.2 Q.
Proof.
  intros (Q1 & Q2 & Heq & H1 & H2). destruct Q1 as [|e1 Q1]; simpl in Heq.
  - subst Q2. apply Forall_cons in H2 as [He _]. lia.
  - injection Heq as <- ->. apply Forall_cons in H1 as [_ H1]. by exists Q1, Q2.
Qed.

Lemma levels_snoc D Q e : levels D Q → e.2 = D + 1 → levels D (Q ++ [e]).
Proof.
  intros (Q1 & Q2 & -> & H1 & H2) He. exists Q1, (Q2 ++ [e]).
  rewrite app_assoc. split; [done|]. split; [done|].
  apply Forall_app. split; [done|]. by apply Forall_singleton.
Qed.

Lemma levels_ge D Q e : levels D Q → e ∈ Q → D ≤ e.2.
Proof.
  intros (Q1 & Q2 & -> & H1 & H2) He. rewrite Forall_forall in H1, H2.
  apply elem_of_app in He as [He|He]; [rewrite (H1 _ He)|rewrite (H2 _ He)]; lia.
Qed.

Section Farthest.
Context (w h : Z) (cells : list cell) (grid : rgrid) (start : Z * Z).
Hypothesis Hg : is_grid w h cells.
Hypothesis Hidx : indexes w h grid cells.

(** A walk from a marked cell to an unmarked one leaves the marked cells
    somewhere. *)
Lemma walk_first_unseen V m q :
  walk w h (lflag cells) start m q → is_seen V start → ¬ is_seen V q →
  ∃ i p r, (i < m)%nat ∧ walk w h (lflag cells) start i p ∧ is_seen V p
           ∧ passage w h (lflag cells) p r ∧ ¬ is_seen V r.
Proof.
  induction 1 as [|n q r Hwalk IH Hp]; intros Hs Hq; [done|].
  destruct (decide (entry V q = Some true)) as [Hq'|Hq'].
  - exists n, q, r. split; [lia|done].
  - destruct (IH Hs Hq') as (i & p & r' & Hi & H'). exists i, p, r'.
    split; [lia|done].
Qed.

Lemma bfs_visit_front x y dist n i c mx k vq :
  cells !! i = Some c → position c = (x, y) → dist = Z.of_nat n →
  distance w h (lflag cells) start (x, y) n → 0 ≤ k < 4 →
  visit_inv w h cells start x y dist mx k vq →
  ∃ vq', bfs_visit cells w h x y dist (Some i) vq k = Returns vq'
         ∧ visit_inv w h cells start x y dist mx (k + 1) vq'.
Proof.
  intros Hi Hpos Hdist Hd Hk (Hfi & Hlev & Hdirs). destruct vq as [V Q].
  simpl in *.
  assert (Hc : c ∈ cells) by (by eapply list_elem_of_lookup_2).
  assert (Hlen : length (directions c) = 4%nat) by (by apply Hg).
  pose proof (fi_shape _ _ _ _ _ _ _ Hfi) as Hs.
  unfold bfs_visit. simpl. rewrite Hi. simpl.
  destruct (lookup_lt_is_Some_2 (directions c) (Z.to_nat k)) as [f Hf]; [lia|].
  rewrite (py_get_in _ _ f) by (lia || done). simpl.
  case_bool_decide as Hf1.
  2: { exists (V, Q). split; [done|]. split; [done|]. split; [done|].
       intros d Hd' HF Hin. destruct (decide (d = k)) as [->|Hne].
       - destruct HF as (c' & Hc' & Hpos' & Hf').
         assert (c' = c) as -> by (eapply is_grid_unique; eauto; congruence).
         rewrite Hf in Hf'. congruence.
       - apply Hdirs; [lia|done|done]. }
  subst f. destruct (in_bounds w h (x + dx k) (y + dy k)) eqn:Hin.
  2: { apply in_bounds_not_inb in Hin. exists (V, Q).
       split; [done|]. split; [done|]. split; [done|].
       intros d Hd' HF Hin'. destruct (decide (d = k)) as [->|Hne]; [done|].
       apply Hdirs; [lia|done|done]. }
  apply in_bounds_inb in Hin.
  destruct (entry_inb w h V _ Hs Hin) as [b Hb].
  rewrite (grid_get_entry w h _ _ _ _ Hs Hb). simpl. destruct b.
  { exists (V, Q). split; [done|]. split; [done|]. split; [done|].
    intros d Hd' HF Hin'. destruct (decide (d = k)) as [->|Hne]; [done|].
    apply Hdirs; [lia|done|done]. }
  destruct (grid_set_entry w h V _ _ false true Hs Hb)
    as (V' & -> & Hs' & Hq' & Hother & _).
  simpl. eexists. split; [reflexivity|]. simpl.
  set (q := (x + dx k, y + dy k)) in *.
  assert (Hmono : ∀ p, is_seen V p → is_seen V' p).
  { intros p Hp. destruct (decide (p = q)) as [->|Hne]; [done|].
    unfold is_seen. by rewrite Hother. }
  assert (Hpass : passage w h (lflag cells) (x, y) q).
  { exists k. split; [done|]. split; [by exists c|done]. }
  assert (Hdq : distance w h (lflag cells) start q (S n)).
  { split.
    - eapply walk_step; [apply Hd|done].
    - intros m Hm.
      destruct (walk_first_unseen V m q Hm) as (j & p & r & Hj & Hwp & Hsp & Hpr & Hnr).
      { apply Hfi. }
      { unfold is_seen. by rewrite Hb. }
      destruct (fi_seen _ _ _ _ _ _ _ Hfi p Hsp) as (np & Hdp & [Hin'|[_ Hall]]).
      + pose proof (levels_ge _ _ _ Hlev Hin') as Hge. simpl in Hge.
        destruct Hdp as [_ Hmin]. specialize (Hmin _ Hwp). lia.
      + destruct Hnr. by apply Hall. }
  unfold visit_inv. simpl. split; [|split].
  - constructor.
    + done.
    + apply Hmono, Hfi.
    + intros e He. rewrite app_comm_cons in He. apply elem_of_app in He as [He|He].
      * destruct (fi_front _ _ _ _ _ _ _ Hfi e He) as [? ?]. split; [by apply Hmono|done].
      * apply list_elem_of_singleton in He as ->. simpl. split; [done|].
        exists (S n). split; [lia|done].
    + intros p Hp. destruct (decide (p = q)) as [->|Hne].
      * exists (S n). split; [done|]. left. rewrite app_comm_cons, elem_of_app.
        right. apply list_elem_of_singleton. unfold q. repeat f_equal. lia.
      * assert (Hp' : is_seen V p) by (unfold is_seen in *; by rewrite <- Hother).
        destruct (fi_seen _ _ _ _ _ _ _ Hfi p Hp') as (np & Hdp & [Hin'|[Hle Hall]]);
          exists np; (split; [done|]).
        -- left. rewrite app_comm_cons, elem_of_app. by left.
        -- right. split; [done|]. intros r Hr. by apply Hmono, Hall.
  - apply (levels_snoc dist ((x, y, dist) :: Q)); done.
  - intros d Hd' HF Hin'. destruct (decide (d = k)) as [->|Hne]; [done|].
    apply Hmono, Hdirs; [lia|done|done].
Qed.

Lemma bfs_body_search s :
  search_inv w h cells start s → bfs_cond s = true →
  ∃ s', bfs_body cells w h grid s = Returns s' ∧ search_inv w h cells start s'.
Proof.
  intros [Hfi [D Hlev] (fx & fy & n & Hfar & Hmx & Hdist)] Hc.
  destruct s as [V Q far mx]. simpl in *.
  destruct Q as [|[[x y] dist] Q]; [done|]. clear Hc.
  unfold bfs_body. cbn [bs_queue bs_visited bs_far bs_max].
  destruct (fi_front _ _ _ _ _ _ _ Hfi (x, y, dist)) as [Hsxy (nd & Hnd & Hdd)];
    [by left|]. simpl in Hsxy, Hnd, Hdd.
  pose proof (fi_shape _ _ _ _ _ _ _ Hfi) as Hs.
  pose proof (entry_Some_inb w h V _ _ Hs Hsxy) as Hin.
  destruct Hidx as [Hsg Hidx'].
  destruct (Hidx' _ Hin) as (i & c & He & Hi & Hpos).
  rewrite (grid_get_entry w h grid _ _ _ Hsg He). cbn [mbind res_bind].
  set (mx' := if bool_decide (mx < dist) then dist else mx).
  assert (Hmx' : mx ≤ mx' ∧ dist ≤ mx') by (unfold mx'; case_bool_decide; lia).
  destruct (for_fold_range (visit_inv w h cells start x y dist mx')
              (bfs_visit cells w h x y dist (Some i)) 4 (V, Q))
    as (vq & -> & Hfi' & Hlev' & Hdirs); [lia| | |].
  - split; [|split].
    + constructor; try apply Hfi. intros p Hp.
      destruct (fi_seen _ _ _ _ _ _ _ Hfi p Hp) as (np & ? & [?|[? ?]]);
        exists np; (split; [done|]); [by left|]. right. split; [lia|done].
    + apply (levels_head D _ _ Hlev).
    + intros d Hd. lia.
  - intros k vq Hk HK. by eapply (bfs_visit_front x y dist nd i c).
  - simpl. eexists. split; [reflexivity|]. constructor; simpl.
    + constructor; [apply Hfi'|apply Hfi'| |].
      * intros e He'. apply (fi_front _ _ _ _ _ _ _ Hfi'). by right.
      * intros p Hp.
        destruct (fi_seen _ _ _ _ _ _ _ Hfi' p Hp) as (np & Hdp & [Hin'|Hproc]).
        -- apply elem_of_cons in Hin' as [Heq|Hin'].
           ++ injection Heq as -> Hnp. exists np. split; [done|]. right.
              split; [lia|]. intros q (d & Hd & HF & -> & Hinq). by apply Hdirs.
           ++ exists np. split; [done|by left].
        -- exists np. split; [done|by right].
    + exists dist. by apply (levels_tail (x, y, dist)).
    + fold mx'. unfold mx'. case_bool_decide.
      * by exists x, y, nd.
      * by exists fx, fy, n.
Qed.

(** When the queue is empty, every cell a walk reaches is marked, and none
    is farther than the cell kept as the farthest. *)
Lemma search_final s :
  search_inv w h cells start s → bs_queue s = [] →
  ∃ x y n, bs_far s = [x; y] ∧ distance w h (lflag cells) start (x, y) n
    ∧ ∀ q m, walk w h (lflag cells) start m q →
        ∃ k, distance w h (lflag cells) start q k ∧ (k ≤ n)%nat.
Proof.
  intros [Hfi _ (x & y & n & Hfar & Hmx & Hdist)] Hq. rewrite Hq in Hfi.
  exists x, y, n. split; [done|]. split; [done|].
  assert (Hall : ∀ q m, walk w h (lflag cells) start m q → is_seen (bs_visited s) q).
  { intros q m. induction 1 as [|m q r _ IH Hp]; [apply Hfi|].
    destruct (fi_seen _ _ _ _ _ _ _ Hfi q IH) as (k & _ & [Hin|[_ Hsucc]]).
    - by apply elem_of_nil in Hin.
    - by apply Hsucc. }
  intros q m Hwalk.
  destruct (fi_seen _ _ _ _ _ _ _ Hfi q (Hall q m Hwalk)) as (k & Hk & [Hin|[Hle _]]).
  - by apply elem_of_nil in Hin.
  - exists k. split; [done|lia].
Qed.

End Farthest.

Lemma find_farthest_search fuel cells w h sx sy :
  is_grid w h cells → inb w h (sx, sy) → (Z.to_nat (w * h) < fuel)%nat →
  ∃ x y n, find_farthest_cell fuel cells w h [sx; sy] = Returns [x; y]
    ∧ distance w h (lflag cells) (sx, sy) (x, y) n
    ∧ ∀ q m, walk w h (lflag cells) (sx, sy) m q →
        ∃ k, distance w h (lflag cells) (sx, sy) q k ∧ (k ≤ n)%nat.
Proof.
  intros Hg Hin Hfuel.
  destruct (find_farthest_total w h (inb w h)) with (fuel := fuel) (cells := cells)
    (sx := sx) (sy := sy) as (x & y & Hrun & _);
    [destruct Hin; simpl in *; lia|destruct Hin; simpl in *; lia|done
    |apply inb_wrapped|done|done|done|].
  unfold find_farthest_cell in Hrun.
  destruct (index_cells_spec w h cells Hg) as (grid & Hgrid & Hidx).
  rewrite Hgrid in Hrun. simpl in Hrun.
  change (py_get [sx; sy] 0) with (Returns sx) in Hrun.
  change (py_get [sx; sy] 1) with (Returns sy) in Hrun. simpl in Hrun.
  destruct (grid_set_entry w h (new_grid w h false) _ _ false true
              (shape_new_grid w h false) (entry_new_grid w h false _ Hin))
    as (vis & Hvis & Hs & Hset & Hother & _).
  rewrite Hvis in Hrun. simpl in Hrun. bind_inv Hrun. rename a into s.
  injection Hrun as Hfar.
  assert (Hinv : search_inv w h cells (sx, sy) s).
  { eapply (while_preserve (search_inv w h cells (sx, sy))); [|exact Hrun0|].
    - intros s1 s2 Hc Hb Hinv.
      destruct (bfs_body_search w h cells grid (sx, sy) Hg Hidx s1 Hinv Hc)
        as (s3 & Hb' & Hinv'). congruence.
    - assert (H0 : distance w h (lflag cells) (sx, sy) (sx, sy) 0).
      { split; [constructor|lia]. }
      constructor; simpl.
      + constructor; [done|done| |].
        * intros e He. apply list_elem_of_singleton in He as ->. simpl.
          split; [done|]. by exists 0%nat.
        * intros p Hp. exists 0%nat.
          destruct (decide (p = (sx, sy))) as [->|Hne].
          { split; [done|]. left. by apply list_elem_of_singleton. }
          unfold is_seen in Hp. rewrite (Hother _ Hne) in Hp.
          pose proof (entry_Some_inb w h _ _ _ (shape_new_grid w h false) Hp) as Hp'.
          rewrite (entry_new_grid w h false _ Hp') in Hp. done.
      + exists 0. exists [(sx, sy, 0)], []. split; [done|].
        split; [by apply Forall_singleton|done].
      + by exists sx, sy, 0%nat. }
  pose proof (while_exit _ _ _ _ _ Hrun0) as Hexit. unfold bfs_cond in Hexit.
  destruct (search_final w h cells (sx, sy) s Hinv) as (x' & y' & n & Hfar' & Hres).
  { by destruct (bs_queue s). }
  exists x', y', n. split; [|done]. unfold find_farthest_cell.
  rewrite Hgrid. simpl.
  change (py_get [sx; sy] 0) with (Returns sx).
  change (py_get [sx; sy] 1) with (Returns sy). simpl.
  rewrite Hvis. simpl. rewrite Hrun0. simpl. by rewrite Hfar'.
Qed.

Lemma maze_2x2_grid : is_grid 2 2 maze_2x2 ∧ symmetric 2 2 maze_2x2.
Proof.
  destruct (generate_maze_spec (RT:=lcg) 100 2 2 (Some 42) 0)
    as (s & _ & _ & Hgen & _ & Hg & Hsym & _); [lia|lia|vm_compute; lia|].
  assert (Heq : mjoin (flat_rows (cs_grid s) 2 2) = maze_2x2).
  { assert (H : generate_maze (RT:=lcg) 100 2 2 (Some 42) 0
                = Returns (maze_2x2, 15519)) by (vm_compute; reflexivity).
    congruence. }
  rewrite Heq in *. split; [done|]. by apply symmetric_of_flags.
Qed.

(** ** The passages of the maze [build_data] returns *)

Section BuildPassages.
Context `{RT : Runtime}.

Lemma build_data_passage_count fuel w h seed loops g t :
  1 ≤ w → 1 ≤ h →
  SFltb float_zero loops = false ∨ total_loops w h loops = Returns t →
  (Z.to_nat (2 * w * h) ≤ fuel)%nat → (Z.to_nat (max_attempts Cli t) < fuel)%nat →
  ∃ m g' k, build_data fuel w h seed loops None None g = Returns (m, g')
    ∧ is_grid w h (m_cells m) ∧ symmetric w h (m_cells m)
    ∧ passage_pairs (m_cells m) = (Z.to_nat (w * h - 1) + k)%nat
    ∧ (k ≤ Z.to_nat t)%nat
    ∧ (SFltb float_zero loops = false → k = 0%nat).
Proof.
  intros Hw Hh Hloops Hfuel1 Hfuel2. unfold build_data.
  destruct (generate_maze_spec fuel w h seed g Hw Hh Hfuel1)
    as (s0 & _ & _ & -> & _ & Hg & Hsym & Hpairs & _).
  cbn [mbind res_bind]. set (cells0 := mjoin _) in *.
  assert (Hstep : ∃ cells g2 k,
    (if SFltb float_zero loops
     then s ← add_loops Cli fuel cells0 w h loops (cs_rng s0);
          Returns (ls_cells s, ls_rng s)
     else Returns (cells0, cs_rng s0)) = Returns (cells, g2)
    ∧ is_grid w h cells ∧ symmetric_flags w h (lflag cells)
    ∧ passage_pairs cells = (Z.to_nat (w * h - 1) + k)%nat
    ∧ (k ≤ Z.to_nat t)%nat
    ∧ (SFltb float_zero loops = false → k = 0%nat)).
  { destruct (SFltb float_zero loops) eqn:Hlt.
    - destruct Hloops as [?|Ht]; [done|].
      destruct (add_loops_total Cli fuel cells0 w h loops (cs_rng s0) t
                  Hw Hh Hg Ht Hfuel2) as (s & grid & Hrun & _).
      destruct (add_loops_counts Cli fuel cells0 w h loops (cs_rng s0) s
                  Hw Hh Hg Hsym Hrun)
        as (t' & grid' & Ht' & [Hg1 _ Hsym1 Hcount Hadded] & _).
      assert (t' = t) as -> by congruence.
      rewrite Hrun. exists (ls_cells s), (ls_rng s), (Z.to_nat (ls_added s)).
      split; [done|]. split; [done|]. split; [done|]. split; [|split; [lia|done]].
      rewrite (passage_pairs_flags w h _ Hg1 Hsym1), Hcount.
      by rewrite <- (passage_pairs_flags w h _ Hg Hsym), Hpairs.
    - exists cells0, (cs_rng s0), 0%nat. split; [done|]. split; [done|].
      split; [done|]. split; [by rewrite Hpairs, Nat.add_0_r|]. split; [lia|done]. }
  destruct Hstep as (cells & g2 & k & -> & Hg' & Hsym' & Hk & Hle & Hzero).
  cbn [mbind res_bind coordinate_or].
  destruct (find_farthest_total w h (inb w h) ltac:(lia) ltac:(lia) (λ p H, H)
              (inb_wrapped w h) fuel cells 0 0 Hg') as (x & y & -> & Hxy).
  { split; simpl; lia. }
  { assert (Z.to_nat (w * h) < Z.to_nat (2 * w * h))%nat by nia. lia. }
  cbn [mbind res_bind]. exists (Maze w h cells [0; 0] [x; y] loops), g2, k.
  split; [done|]. simpl. split; [done|]. split; [by apply symmetric_of_flags|done].
Qed.

End BuildPassages.

(** ** The end [build_data] chooses *)

Lemma rtc_walk w h F p q : rtc (passage w h F) p q → ∃ m, walk w h F p m q.
Proof.
  intros H. apply rtc_nsteps_1 in H as [m H]. exists m.
  revert q H. induction m as [|m IH]; intros q H.
  - inversion H; subst. constructor.
  - apply nsteps_inv_r in H as (r & H & Hr). eapply walk_step; eauto.
Qed.

Section BuildFarthest.
Context `{RT : Runtime}.

Lemma build_data_farthest fuel w h seed loops g t :
  1 ≤ w → 1 ≤ h →
  SFltb float_zero loops = false ∨ total_loops w h loops = Returns t →
  (Z.to_nat (2 * w * h) ≤ fuel)%nat → (Z.to_nat (max_attempts Cli t) < fuel)%nat →
  ∃ m g', build_data fuel w h seed loops None None g = Returns (m, g')
    ∧ is_grid w h (m_cells m) ∧ connected w h (m_cells m)
    ∧ ∃ x y n, m_end m = [x; y]
        ∧ distance w h (lflag (m_cells m)) (0, 0) (x, y) n
        ∧ ∀ q, inb w h q →
            ∃ k, distance w h (lflag (m_cells m)) (0, 0) q k ∧ (k ≤ n)%nat.
Proof.
  intros Hw Hh Hloops Hfuel1 Hfuel2. unfold build_data.
  destruct (generate_maze_spec fuel w h seed g Hw Hh Hfuel1)
    as (s0 & _ & _ & -> & _ & Hg & _ & _ & Hconn).
  cbn [mbind res_bind]. set (cells0 := mjoin _) in *.
  assert (Hstep : ∃ cells g2,
    (if SFltb float_zero loops
     then s ← add_loops Cli fuel cells0 w h loops (cs_rng s0);
          Returns (ls_cells s, ls_rng s)
     else Returns (cells0, cs_rng s0)) = Returns (cells, g2)
    ∧ is_grid w h cells ∧ connected w h cells).
  { destruct (SFltb float_zero loops) eqn:Hlt; [|by eauto].
    destruct Hloops as [?|Ht]; [done|].
    destruct (add_loops_total Cli fuel cells0 w h loops (cs_rng s0) t
                Hw Hh Hg Ht Hfuel2) as (s & grid & Hrun & Hinv & _).
    rewrite Hrun. do 2 eexists. split; [reflexivity|]. split; [apply Hinv|].
    simpl. intros p q Hp Hq. eapply reach_mono; [|by apply Hconn].
    intros p' e _. apply keeps_lflag. by eapply add_loops_keeps. }
  destruct Hstep as (cells & g2 & -> & Hg' & Hconn').
  cbn [mbind res_bind coordinate_or].
  destruct (find_farthest_search fuel cells w h 0 0 Hg')
    as (x & y & n & -> & Hdist & Hall).
  { split; simpl; lia. }
  { assert (Z.to_nat (w * h) < Z.to_nat (2 * w * h))%nat by nia. lia. }
  cbn [mbind res_bind]. do 2 eexists. split; [reflexivity|]. simpl.
  split; [done|]. split; [done|]. exists x, y, n. split; [done|]. split; [done|].
  intros q Hq. destruct (rtc_walk w h _ _ _ (Hconn' (0, 0) q ltac:(split; simpl; lia) Hq))
    as [m Hm]. by eapply Hall.
Qed.

End BuildFarthest.

(** ** Strings *)

Lemma append_cons a s t : String a s +:+ t = String a (s +:+ t).
Proof. reflexivity. Qed.

Lemma append_nil_r s : s +:+ EmptyString = s.
Proof. induction s as [|a s IH]; [done|]. by rewrite append_cons, IH. Qed.

Lemma append_assoc s t u : (s +:+ t) +:+ u = s +:+ (t +:+ u).
Proof. induction s as [|a s IH]; [done|]. by rewrite !append_cons, IH. Qed.

Lemma length_append s t :
  String.length (s +:+ t) = (String.length s + String.length t)%nat.
Proof. induction s as [|a s IH]; [done|]. rewrite append_cons. simpl. by rewrite IH. Qed.

Lemma substring_skip a b n m :
  String.substring (String.length a + n) m (a +:+ b) = String.substring n m b.
Proof. induction a as [|c a IH]; [done|]. rewrite append_cons. simpl. exact IH. Qed.

Lemma substring_all s : String.substring 0 (String.length s) s = s.
Proof. induction s as [|a s IH]; [done|]. simpl. by rewrite IH. Qed.

Lemma substring_app_l a b n m :
  (n + m ≤ String.length a)%nat → String.substring n m (a +:+ b) = String.substring n m a.
Proof.
  revert n m. induction a as [|c a IH]; intros n m Hnm; simpl in Hnm.
  - assert (n = 0%nat) as -> by lia. assert (m = 0%nat) as -> by lia.
    by destruct b.
  - rewrite append_cons. destruct n as [|n]; simpl.
    + destruct m as [|m]; [done|]. f_equal. apply (IH 0%nat). lia.
    + apply IH. lia.
Qed.

Lemma length_str_times s n :
  String.length (str_times s n) = (n * String.length s)%nat.
Proof. induction n as [|n IH]; [done|]. simpl. rewrite length_append, IH. lia. Qed.

(** ** The two renderers *)

Lemma for_fold_ext {A St} (f g : St → A → res St) l s :
  (∀ s a, f s a = g s a) → for_fold f s l = for_fold g s l.
Proof.
  intros Hfg. revert s. induction l as [|a l IH]; intros s; [done|].
  simpl. rewrite Hfg. destruct (g s a); simpl; auto.
Qed.

Lemma vert_step_agree store grid start end_ y line x :
  vert_step_cli store grid start end_ y line x
  = vert_step_app store grid start end_ y line x.
Proof.
  unfold vert_step_cli, vert_step_app.
  destruct (grid_get grid x y) as [cell| |]; simpl; try done.
  destruct (cell_dirs store cell) as [ds| |]; simpl; try done.
  destruct (py_get ds 1) as [east| |]; simpl; try done.
  by rewrite append_assoc.
Qed.

Lemma top_line_agree w :
  fold_left (λ l (_ : Z), l +:+ "---+") (range w) "+" = "+" +:+ str_mul "---+" w.
Proof.
  assert (H : ∀ (l : list Z) acc,
            fold_left (λ l (_ : Z), l +:+ "---+") l acc
            = acc +:+ str_times "---+" (length l)).
  { induction l as [|a l IH]; intros acc; simpl.
    - by rewrite append_nil_r.
    - rewrite IH. by rewrite append_assoc. }
  unfold str_mul. by rewrite H, length_range.
Qed.

Lemma print_rows_agree store grid width start end_ ys printed :
  for_fold (λ out_lines y,
      line_vert ← for_fold (vert_step_app store grid start end_ y) "|" (range width);
      let out_lines := out_lines ++ [line_vert] in
      line_h ← for_fold (horz_step store grid y) "+" (range width);
      Returns (out_lines ++ [line_h])) printed ys
  = (let r := print_rows store grid width start end_ ys printed in
     _ ← r.2; Returns r.1).
Proof.
  revert printed. induction ys as [|y ys IH]; intros printed; [done|].
  cbn [for_fold print_rows].
  rewrite (for_fold_ext (vert_step_cli store grid start end_ y)
             (vert_step_app store grid start end_ y))
    by (intros; apply vert_step_agree).
  destruct (for_fold (vert_step_app store grid start end_ y) "|" (range width))
    as [lv| |]; simpl; try done.
  destruct (for_fold (horz_step store grid y) "+" (range width))
    as [lh| |]; simpl; [apply IH|done|done].
Qed.

Lemma renderers_agree m start end_ :
  render_ascii_grid m start end_
  = (let r := render_maze_grid m start end_ in
     _ ← r.2; Returns (join newline r.1)).
Proof.
  unfold render_ascii_grid, render_maze_grid.
  destruct (index_cells (m_cells m) (m_width m) (m_height m)) as [grid| |];
    simpl; try done.
  rewrite top_line_agree, print_rows_agree. simpl.
  destruct (print_rows _ _ _ _ _ _ _) as [printed [[]| |]]; done.
Qed.

Section Picture.
Context (w h : Z) (store : list cell) (grid : rgrid) (start end_ : list Z).
Hypothesis Hw : 0 ≤ w.
Hypothesis Hh : 0 ≤ h.
Hypothesis Hg : is_grid w h store.
Hypothesis Hidx : indexes w h grid store.

Lemma length_cell_content x y : String.length (cell_content start end_ x y) = 3%nat.
Proof. unfold cell_content. by repeat case_bool_decide. Qed.

(** A line that grows by blocks of four characters. *)
Lemma row_blocks (step : string → Z → res string) (block : Z → string) init :
  String.length init = 1%nat →
  (∀ k line, 0 ≤ k < w → step line k = Returns (line +:+ block k)) →
  (∀ k, 0 ≤ k < w → String.length (block k) = 4%nat) →
  ∃ line, for_fold step init (range w) = Returns line
    ∧ String.length line = Z.to_nat (4 * w + 1)
    ∧ ∀ x, 0 ≤ x < w → String.substring (Z.to_nat (4 * x + 1)) 4 line = block x.
Proof.
  intros Hinit Hstep Hblock.
  apply (for_fold_range (λ k line,
           String.length line = Z.to_nat (4 * k + 1)
           ∧ ∀ x, 0 ≤ x < k →
               String.substring (Z.to_nat (4 * x + 1)) 4 line = block x));
    [done|split; [done|intros; lia]|].
  intros k line Hk [Hlen Hdrawn]. rewrite (Hstep k line Hk).
  eexists. split; [reflexivity|]. pose proof (Hblock k Hk) as Hb. split.
  - rewrite length_append, Hlen, Hb. lia.
  - intros x Hx. destruct (decide (x = k)) as [->|Hne].
    + replace (Z.to_nat (4 * k + 1)) with (String.length line + 0)%nat by lia.
      rewrite substring_skip. pose proof (substring_all (block k)) as Hall.
      by rewrite Hb in Hall.
    + rewrite substring_app_l by lia. apply Hdrawn. lia.
Qed.

(** The cell the grid refers to at a coordinate, and its flags. *)
Lemma indexed_cell x y :
  0 ≤ x < w → 0 ≤ y < h →
  ∃ i c, grid_get grid x y = Returns (Some i) ∧ store !! i = Some c
         ∧ c ∈ store ∧ position c = (x, y) ∧ length (directions c) = 4%nat.
Proof.
  intros Hx Hy. destruct Hidx as [Hs Hidx'].
  destruct (Hidx' (x, y)) as (i & c & He & Hi & Hpos); [split; simpl; lia|].
  assert (Hc : c ∈ store) by (by eapply list_elem_of_lookup_2).
  exists i, c. split; [by eapply grid_get_entry|].
  split; [done|]. split; [done|]. split; [done|]. by apply Hg.
Qed.

Lemma vert_row y :
  0 ≤ y < h →
  ∃ line, for_fold (vert_step_app store grid start end_ y) "|" (range w)
          = Returns line
    ∧ String.length line = Z.to_nat (4 * w + 1)
    ∧ vert_drawn store start end_ w y line.
Proof.
  intros Hy.
  destruct (row_blocks (vert_step_app store grid start end_ y)
    (λ x, cell_content start end_ x y
          +:+ (if bool_decide (cell_at store (x, y) ≫= (λ c, directions c !! 1%nat)
                               = Some 1)
               then " " else "|")) "|")
    as (line & Hrun & Hlen & Hblocks); [done| | |].
  - intros k line Hk. unfold vert_step_app.
    destruct (indexed_cell k y Hk Hy) as (i & c & -> & Hi & Hc & Hpos & Hl).
    simpl. rewrite Hi. simpl.
    destruct (lookup_lt_is_Some_2 (directions c) 1) as [f Hf]; [lia|].
    rewrite (py_get_in _ 1 f) by (lia || done). simpl.
    rewrite <- Hpos, (cell_at_spec w h store c Hg Hc). simpl. rewrite Hf.
    do 3 f_equal. repeat case_bool_decide; congruence.
  - intros k Hk. rewrite length_append, length_cell_content.
    by case_bool_decide.
  - exists line. split; [done|]. split; [done|].
    intros x c Hx Hc Hpos. rewrite (Hblocks x Hx).
    by rewrite <- Hpos, (cell_at_spec w h store c Hg Hc).
Qed.

Lemma horz_row y :
  0 ≤ y < h →
  ∃ line, for_fold (horz_step store grid y) "+" (range w) = Returns line
    ∧ String.length line = Z.to_nat (4 * w + 1)
    ∧ horz_drawn store w y line.
Proof.
  intros Hy.
  destruct (row_blocks (horz_step store grid y)
    (λ x, if bool_decide (cell_at store (x, y) ≫= (λ c, directions c !! 2%nat)
                          = Some 1)
          then "   +" else "---+") "+")
    as (line & Hrun & Hlen & Hblocks); [done| | |].
  - intros k line Hk. unfold horz_step.
    destruct (indexed_cell k y Hk Hy) as (i & c & -> & Hi & Hc & Hpos & Hl).
    simpl. rewrite Hi. simpl.
    destruct (lookup_lt_is_Some_2 (directions c) 2) as [f Hf]; [lia|].
    rewrite (py_get_in _ 2 f) by (lia || done). simpl.
    rewrite <- Hpos, (cell_at_spec w h store c Hg Hc). simpl. rewrite Hf.
    do 2 f_equal. repeat case_bool_decide; congruence.
  - intros k Hk. by case_bool_decide.
  - exists line. split; [done|]. split; [done|].
    intros x c Hx Hc Hpos. rewrite (Hblocks x Hx).
    by rewrite <- Hpos, (cell_at_spec w h store c Hg Hc).
Qed.

Lemma draw_rows :
  ∃ lines,
    for_fold (λ out_lines y,
        line_vert ← for_fold (vert_step_app store grid start end_ y) "|" (range w);
        let out_lines := out_lines ++ [line_vert] in
        line_h ← for_fold (horz_step store grid y) "+" (range w);
        Returns (out_lines ++ [line_h]))
      ["+" +:+ str_mul "---+" w] (range h) = Returns lines
    ∧ drawing store start end_ w h lines.
Proof.
  apply (for_fold_range (λ k lines, drawing store start end_ w k lines)); [done| |].
  - split; [done|]. split; [|split; [done|intros; lia]].
    apply Forall_singleton. unfold str_mul.
    rewrite length_append, length_str_times. simpl. lia.
  - intros k out Hk (Hlen & Hall & Htop & Hrows).
    destruct (vert_row k Hk) as (lv & -> & Hlv & Hvert).
    destruct (horz_row k Hk) as (lh & -> & Hlh & Hhorz). simpl.
    eexists. split; [reflexivity|]. split; [|split; [|split]].
    + rewrite !length_app. simpl. lia.
    + apply Forall_app. split; [apply Forall_app; split; [done|]|];
        by apply Forall_singleton.
    + rewrite <- app_assoc. apply lookup_app_l_Some. done.
    + intros y Hy. destruct (decide (y = k)) as [->|Hne].
      * exists lv, lh. split; [|split; [|done]].
        -- rewrite <- app_assoc. apply list_lookup_middle. lia.
        -- apply list_lookup_middle. rewrite length_app. simpl. lia.
      * destruct (Hrows y) as (lv' & lh' & H1 & H2 & H3); [lia|].
        exists lv', lh'. rewrite <- app_assoc.
        split; [by apply lookup_app_l_Some|]. split; [by apply lookup_app_l_Some|done].
Qed.

End Picture.

Lemma renderers_draw m start end_ :
  0 ≤ m_width m → 0 ≤ m_height m →
  is_grid (m_width m) (m_height m) (m_cells m) →
  ∃ lines, render_maze_grid m start end_ = (lines, Returns tt)
    ∧ render_ascii_grid m start end_ = Returns (join newline lines)
    ∧ drawing (m_cells m) start end_ (m_width m) (m_height m) lines.
Proof.
  intros Hw Hh Hg.
  destruct (index_cells_spec _ _ _ Hg) as (grid & Hgrid & Hidx).
  destruct (draw_rows _ _ (m_cells m) grid start end_ Hw Hh Hg Hidx)
    as (lines & Hrun & Hdraw).
  exists lines. pose proof Hrun as Hcli. rewrite print_rows_agree in Hcli.
  simpl in Hrun.
  unfold render_ascii_grid, render_maze_grid. rewrite Hgrid. simpl.
  rewrite Hrun, top_line_agree. simpl. split; [|done].
  destruct (print_rows _ _ _ _ _ _ _) as [printed [[]| |]]; simpl in Hcli; [|done..].
  by simplify_eq.
Qed.

(** ** [build_data] with a start and an end *)

Section BuildExplicit.
Context `{RT : Runtime}.

Lemma build_data_explicit fuel w h seed loops g t ss es s0 e0 :
  1 ≤ w → 1 ≤ h →
  SFltb float_zero loops = false ∨ total_loops w h loops = Returns t →
  (Z.to_nat (2 * w * h) ≤ fuel)%nat → (Z.to_nat (max_attempts Cli t) < fuel)%nat →
  ss ≠ EmptyString → es ≠ EmptyString →
  parse_ints ss = Returns s0 → parse_ints es = Returns e0 →
  ∃ m g', build_data fuel w h seed loops (Some ss) (Some es) g = Returns (m, g')
    ∧ is_grid w h (m_cells m) ∧ m_start m = s0 ∧ m_end m = e0.
Proof.
  intros Hw Hh Hloops Hfuel1 Hfuel2 Hss Hes Hs0 He0. unfold build_data.
  destruct (generate_maze_spec fuel w h seed g Hw Hh Hfuel1)
    as (s1 & _ & _ & -> & _ & Hg & _).
  cbn [mbind res_bind]. set (cells0 := mjoin _) in *.
  assert (Hstep : ∃ cells g2,
    (if SFltb float_zero loops
     then s ← add_loops Cli fuel cells0 w h loops (cs_rng s1);
          Returns (ls_cells s, ls_rng s)
     else Returns (cells0, cs_rng s1)) = Returns (cells, g2)
    ∧ is_grid w h cells).
  { destruct (SFltb float_zero loops) eqn:Hlt; [|by eauto].
    destruct Hloops as [?|Ht]; [done|].
    destruct (add_loops_total Cli fuel cells0 w h loops (cs_rng s1) t
                Hw Hh Hg Ht Hfuel2) as (s & grid & -> & Hinv & _).
    do 2 eexists. split; [reflexivity|]. apply Hinv. }
  destruct Hstep as (cells & g2 & -> & Hg'). cbn [mbind res_bind].
  assert (Hc : ∀ s dflt, s ≠ EmptyString → coordinate_or (Some s) dflt = parse_ints s).
  { intros s dflt Hne. by destruct s. }
  rewrite Hc, Hs0 by done. cbn [mbind res_bind].
  rewrite Hc, He0 by done. cbn [mbind res_bind].
  by do 2 eexists.
Qed.

End BuildExplicit.

(** ** The exported text determines the maze *)

Lemma append_nil_l s : EmptyString +:+ s = s.
Proof. reflexivity. Qed.

Lemma numeric_pretty_N_char x : numeric (pretty_N_char x) = true.
Proof. unfold pretty_N_char. by repeat case_match. Qed.

Lemma all_numeric_go x s :
  all_numeric s = true → all_numeric (pretty_N_go x s) = true.
Proof.
  revert s. induction (N.lt_wf_0 x) as [x _ IH]; intros s Hs.
  destruct (decide (x = 0%N)) as [->|Hx]; [by rewrite pretty_N_go_0|].
  rewrite pretty_N_go_step by lia. apply IH; [apply N.div_lt; lia|].
  simpl. by rewrite numeric_pretty_N_char.
Qed.

Lemma length_go x s : (String.length s ≤ String.length (pretty_N_go x s))%nat.
Proof.
  revert s. induction (N.lt_wf_0 x) as [x _ IH]; intros s.
  destruct (decide (x = 0%N)) as [->|Hx]; [by rewrite pretty_N_go_0|].
  rewrite pretty_N_go_step by lia.
  etrans; [|apply IH, N.div_lt; lia]. simpl. lia.
Qed.

Lemma all_numeric_pos p : all_numeric (pretty (Npos p)) = true.
Proof. unfold pretty, pretty_N. case_decide; [done|]. by apply all_numeric_go. Qed.

Lemma nonempty_pos p : pretty (Npos p) ≠ EmptyString.
Proof.
  unfold pretty, pretty_N. case_decide; [done|].
  rewrite pretty_N_go_step by lia. intros Heq.
  pose proof (length_go (N.pos p `div` 10)
                (String (pretty_N_char (N.pos p `mod` 10)) EmptyString)) as Hlen.
  rewrite Heq in Hlen. simpl in Hlen. lia.
Qed.

Lemma all_numeric_str z : all_numeric (str z) = true.
Proof.
  unfold str, pretty, pretty_Z. destruct z as [|p|p]; [done| |].
  - apply all_numeric_pos.
  - rewrite append_cons. simpl. apply all_numeric_pos.
Qed.

Lemma str_first z : ∃ c s, str z = String c s ∧ numeric c = true.
Proof.
  pose proof (all_numeric_str z) as Hn.
  assert (Hne : str z ≠ EmptyString).
  { unfold str, pretty, pretty_Z. destruct z as [|p|p]; [done| |done].
    apply nonempty_pos. }
  destruct (str z) as [|c s]; [done|]. simpl in Hn.
  apply andb_true_iff in Hn as [Hc _]. eauto.
Qed.

Lemma num_split a a' r r' :
  all_numeric a = true → all_numeric a' = true → stops r → stops r' →
  a +:+ r = a' +:+ r' → a = a' ∧ r = r'.
Proof.
  revert a'. induction a as [|c a IH]; intros [|c' a'] Ha Ha' Hr Hr' H;
    rewrite ?append_cons, ?append_nil_l in H; simpl in Ha, Ha'.
  - done.
  - subst r. simpl in Hr. rewrite Hr in Ha'. done.
  - subst r'. simpl in Hr'. rewrite Hr' in Ha. done.
  - injection H as -> H.
    apply andb_true_iff in Ha as [_ Ha], Ha' as [_ Ha'].
    destruct (IH a' Ha Ha' Hr Hr' H) as [-> ->]. done.
Qed.

Lemma str_split z z' r r' :
  stops r → stops r' → str z +:+ r = str z' +:+ r' → z = z' ∧ r = r'.
Proof.
  intros Hr Hr' H.
  destruct (num_split _ _ _ _ (all_numeric_str z) (all_numeric_str z') Hr Hr' H)
    as [Hz ->].
  split; [|done]. by apply pretty_Z_inj.
Qed.

Lemma join_cons sep a l :
  l ≠ [] → join sep (a :: l) = a +:+ sep +:+ join sep l.
Proof. by destruct l. Qed.

Ltac stops_here :=
  unfold stops, quote, newline; rewrite ?append_cons; reflexivity.

(** A printed integer does not start like the text [s]. *)
Lemma str_not_first z c s r r' :
  numeric c = false → String c s +:+ r ≠ str z +:+ r'.
Proof.
  intros Hc H. destruct (str_first z) as (c' & s' & Heq & Hc').
  rewrite Heq, !append_cons in H. injection H as -> _. congruence.
Qed.

Lemma dirs_inj ds ds' r r' :
  join ", " (str <$> ds) +:+ "] }" +:+ r = join ", " (str <$> ds') +:+ "] }" +:+ r' →
  ds = ds' ∧ r = r'.
Proof.
  revert ds'. induction ds as [|a ds IH]; intros [|a' ds'] H; csimpl in H.
  - rewrite !append_nil_l in H. by apply (inj _) in H.
  - exfalso. rewrite append_nil_l in H.
    destruct ds'; csimpl in H; rewrite ?append_assoc in H;
      (eapply str_not_first; [|exact H]); reflexivity.
  - exfalso. rewrite append_nil_l in H. symmetry in H.
    destruct ds; csimpl in H; rewrite ?append_assoc in H;
      (eapply str_not_first; [|exact H]); reflexivity.
  - destruct ds as [|b ds], ds' as [|b' ds']; csimpl in H;
      rewrite ?append_assoc in H;
      apply str_split in H as [-> H]; try stops_here.
    + by apply (inj _) in H as ->.
    + rewrite !append_cons in H. discriminate.
    + rewrite !append_cons in H. discriminate.
    + apply (inj _) in H. destruct (IH (b' :: ds') H) as [-> ->]. done.
Qed.

Lemma cell_text_inj c c' b b' R R' :
  cell_text c b +:+ newline +:+ R = cell_text c' b' +:+ newline +:+ R' →
  c = c' ∧ R = R'.
Proof.
  intros H. unfold cell_text in H. rewrite !append_assoc in H.
  repeat apply (inj (String.app _)) in H.
  apply str_split in H as [Hx H]; [|stops_here..]. repeat apply (inj (String.app _)) in H.
  apply str_split in H as [Hy H]; [|stops_here..]. repeat apply (inj (String.app _)) in H.
  apply dirs_inj in H as [Hds H].
  assert (c = c') as ->.
  { destruct c as [[x y] ds], c' as [[x' y'] ds']. simpl in *. congruence. }
  split; [done|].
  destruct b, b'; unfold newline in H; rewrite ?append_cons, ?append_nil_l in H;
    by simplify_eq.
Qed.

Lemma lines_nonempty g (cells : list cell) : imap g cells ++ ["  ]"; "}"] ≠ [].
Proof. by destruct cells. Qed.

Lemma cells_inj cells cells' (g g' : nat → cell → string) :
  (∀ i c, ∃ b, g i c = cell_text c b) → (∀ i c, ∃ b, g' i c = cell_text c b) →
  join newline (imap g cells ++ ["  ]"; "}"])
  = join newline (imap g' cells' ++ ["  ]"; "}"]) →
  cells = cells'.
Proof.
  revert cells' g g'.
  induction cells as [|c cells IH]; intros [|c' cells'] g g' Hg Hg' H;
    rewrite ?imap_cons, <- ?app_comm_cons, ?(join_cons newline) in H
      by apply lines_nonempty.
  - done.
  - exfalso. destruct (Hg' 0%nat c') as [b Hb]. rewrite Hb in H.
    change (join newline (imap g [] ++ ["  ]"; "}"]))
      with ("  ]" +:+ newline +:+ "}") in H.
    unfold cell_text, newline in H. rewrite !append_cons in H. discriminate.
  - exfalso. destruct (Hg 0%nat c) as [b Hb]. rewrite Hb in H.
    change (join newline (imap g' [] ++ ["  ]"; "}"]))
      with ("  ]" +:+ newline +:+ "}") in H.
    unfold cell_text, newline in H. rewrite !append_cons in H. discriminate.
  - destruct (Hg 0%nat c) as [b Hb], (Hg' 0%nat c') as [b' Hb'].
    rewrite Hb, Hb' in H.
    apply cell_text_inj in H as [-> H]. f_equal.
    eapply IH; [| |exact H]; intros i c; [apply (Hg (S i))|apply (Hg' (S i))].
Qed.

Lemma cell_line_text n i c : ∃ b, cell_line n i c = cell_text c b.
Proof. by exists (bool_decide (Z.of_nat i < Z.of_nat n - 1)). Qed.

Lemma coord_line_Returns k p s :
  coord_line k p = Returns s →
  ∃ a b, p = [a; b] ∧ s = key k +:+ "[" +:+ str a +:+ ", " +:+ str b +:+ "],".
Proof.
  destruct p as [|a [|b [|? ?]]]; simpl; intros H; simplify_eq. eauto.
Qed.

Lemma Returns_inj {A} (a b : A) : Returns a = Returns b → a = b.
Proof. by intros [= ->]. Qed.

Section ExportText.
Context `{RT : Runtime}.

Lemma export_inj v d1 d2 t :
  export_compact_lines v d1 = Returns t → export_compact_lines v d2 = Returns t →
  m_width d1 = m_width d2 ∧ m_height d1 = m_height d2 ∧ m_cells d1 = m_cells d2
  ∧ (v = App → m_start d1 = m_start d2 ∧ m_end d1 = m_end d2).
Proof.
  intros H1 H2. unfold export_compact_lines in H1, H2. destruct v.
  - cbn [mbind res_bind] in H1, H2. rewrite <- H2 in H1.
    apply Returns_inj in H1 as H. cbn [app] in H.
    rewrite !(join_cons newline) in H by (apply lines_nonempty || done).
    unfold key in H. rewrite !append_assoc in H.
    repeat apply (inj (String.app _)) in H.
    apply str_split in H as [Hw H]; [|stops_here..]. repeat apply (inj (String.app _)) in H.
    apply str_split in H as [Hh H]; [|stops_here..]. repeat apply (inj (String.app _)) in H.
    split; [done|]. split; [done|]. split; [|done].
    eapply cells_inj; [| |exact H]; intros; apply cell_line_text.
  - apply bind_Returns in H1 as (extra1 & Hx1 & H1).
    apply bind_Returns in Hx1 as (s1 & Hs1 & Hx1).
    apply bind_Returns in Hx1 as (e1 & He1 & Hx1).
    apply bind_Returns in H2 as (extra2 & Hx2 & H2).
    apply bind_Returns in Hx2 as (s2 & Hs2 & Hx2).
    apply bind_Returns in Hx2 as (e2 & He2 & Hx2).
    apply Returns_inj in Hx1 as <-, Hx2 as <-.
    apply coord_line_Returns in Hs1 as (a1 & b1 & Hs1 & ->).
    apply coord_line_Returns in He1 as (a2 & b2 & He1 & ->).
    apply coord_line_Returns in Hs2 as (a3 & b3 & Hs2 & ->).
    apply coord_line_Returns in He2 as (a4 & b4 & He2 & ->).
    rewrite <- H2 in H1.
    apply Returns_inj in H1 as H. cbn [app] in H.
    rewrite !(join_cons newline) in H by (apply lines_nonempty || done).
    unfold key in H. rewrite !append_assoc in H.
    repeat apply (inj (String.app _)) in H.
    apply str_split in H as [Hw H]; [|stops_here..]. repeat apply (inj (String.app _)) in H.
    apply str_split in H as [Hh H]; [|stops_here..]. repeat apply (inj (String.app _)) in H.
    apply str_split in H as [-> H]; [|stops_here..]. repeat apply (inj (String.app _)) in H.
    apply str_split in H as [-> H]; [|stops_here..]. repeat apply (inj (String.app _)) in H.
    apply str_split in H as [-> H]; [|stops_here..]. repeat apply (inj (String.app _)) in H.
    apply str_split in H as [-> H]; [|stops_here..]. repeat apply (inj (String.app _)) in H.
    rewrite Hs1, He1, Hs2, He2.
    split; [done|]. split; [done|]. split; [|done].
    eapply cells_inj; [| |exact H]; intros; apply cell_line_text.
Qed.

End ExportText.

(** ** The two copies of [add_loops] *)

Lemma grid_set_shape {A} w h (grid : list (list A)) x y a grid' :
  grid_set grid x y a = Returns grid' → shape w h grid → shape w h grid'.
Proof.
  unfold grid_set. intros H [Hlen Hrows]. bind_inv H. bind_inv H.
  apply py_get_Returns in H0 as [k Hk].
  apply py_set_Returns in H1 as (k1 & _ & ->), H as (k2 & _ & ->).
  split; [by rewrite length_insert|].
  apply Forall_insert; [done|]. rewrite length_insert.
  rewrite Forall_lookup in Hrows. eauto.
Qed.

Lemma for_fold_preserve {A St} (R : St → Prop) (f : St → A → res St) l :
  (∀ s a s', f s a = Returns s' → R s → R s') →
  ∀ s s', for_fold f s l = Returns s' → R s → R s'.
Proof.
  intros Hstep. induction l as [|a l IH]; intros s s' H HR; simpl in H.
  - by simplify_eq.
  - bind_inv H. eauto.
Qed.

Lemma index_cells_shape cells w h grid :
  index_cells cells w h = Returns grid → shape w h grid.
Proof.
  unfold index_cells. intros H.
  eapply (for_fold_preserve (shape w h)); [|exact H|apply shape_new_grid].
  intros g ic g' Hset. exact (grid_set_shape w h _ _ _ _ _ Hset).
Qed.

Section Copies.
Context `{RT : Runtime}.

Lemma closed_towards_copies store grid w h x y cell d :
  shape w h grid →
  closed_towards Cli store grid w h x y cell d
  = closed_towards App store grid w h x y cell d.
Proof.
  intros Hs. unfold closed_towards.
  destruct (in_bounds w h (x + dx d) (y + dy d)) eqn:Hin; [|done].
  apply in_bounds_inb in Hin. destruct (entry_inb w h grid _ Hs Hin) as [r Hr].
  by rewrite (grid_get_entry w h grid _ _ _ Hs Hr).
Qed.

Lemma loops_body_copies w h grid s :
  shape w h grid → loops_body Cli w h grid s = loops_body App w h grid s.
Proof.
  intros Hs. unfold loops_body.
  destruct (randint (ls_rng s) 0 (w - 1)) as [[x g1]| |]; simpl; try done.
  destruct (randint g1 0 (h - 1)) as [[y g2]| |]; simpl; try done.
  destruct (grid_get grid x y) as [cell| |]; simpl; try done.
  unfold select.
  rewrite (for_fold_ext
             (λ acc d, b ← closed_towards Cli (ls_cells s) grid w h x y cell d;
                       Returns (if b : bool then acc ++ [d] else acc))
             (λ acc d, b ← closed_towards App (ls_cells s) grid w h x y cell d;
                       Returns (if b : bool then acc ++ [d] else acc))); [done|].
  intros acc d. by rewrite closed_towards_copies.
Qed.

Lemma while_body_ext {St} cond (f g : St → res St) n s :
  (∀ s, f s = g s) → while n cond f s = while n cond g s.
Proof.
  intros Hfg. revert s. induction n as [|n IH]; intros s; [done|]. simpl.
  destruct (cond s); [|done]. rewrite Hfg. destruct (g s); simpl; auto.
Qed.

Lemma while_cond_ext {St} (c1 c2 : St → bool) (body : St → res St) n s :
  (∀ s, c1 s = c2 s) → while n c1 body s = while n c2 body s.
Proof.
  intros Hc. revert s. induction n as [|n IH]; intros s; [done|]. simpl.
  rewrite Hc. destruct (c2 s); [|done]. destruct (body s); simpl; auto.
Qed.

Lemma while_reached t cap1 cap2 (body : loop_state → res loop_state) n s0 s :
  cap1 ≤ cap2 →
  while n (loops_cond t cap1) body s0 = Returns s → t ≤ ls_added s →
  while n (loops_cond t cap2) body s0 = Returns s.
Proof.
  intros Hcap. revert s0. induction n as [|n IH]; intros s0 H Ht; [done|].
  simpl in *. unfold loops_cond in *.
  destruct (bool_decide (ls_added s0 < t)) eqn:Ha; simpl in *.
  - case_bool_decide as Hc1; simpl in *.
    + rewrite bool_decide_eq_true_2 by lia. simpl.
      destruct (body s0) as [s1| |]; simpl in *; try done. by apply IH.
    + simplify_eq. apply bool_decide_eq_true in Ha. lia.
  - done.
Qed.

Lemma add_loops_copies fuel cells w h lf g t :
  total_loops w h lf = Returns t →
  (100 ≤ t →
   add_loops Cli fuel cells w h lf g = add_loops App fuel cells w h lf g)
  ∧ ∀ s, add_loops Cli fuel cells w h lf g = Returns s → t ≤ ls_added s →
         add_loops App fuel cells w h lf g = Returns s.
Proof.
  intros Ht. unfold add_loops. rewrite Ht. cbn [mbind res_bind].
  destruct (index_cells cells w h) as [grid| |] eqn:Hgrid; cbn [mbind res_bind];
    [|by split..].
  pose proof (index_cells_shape _ _ _ _ Hgrid) as Hs. split.
  - intros H100. unfold max_attempts. rewrite Z.max_r by lia.
    apply while_body_ext. intros s. by apply loops_body_copies.
  - intros s H Hadded.
    rewrite <- (while_body_ext _ (loops_body Cli w h grid))
      by (intros s1; by apply loops_body_copies).
    eapply while_reached; [|exact H|exact Hadded]. unfold max_attempts. lia.
Qed.

End Copies.

(** * The specification's properties, on the code *)

Section Properties.
Context `{RT : Runtime}.

(** C1: for every width and height of at least 1 and any seed,
    [generate_maze] returns (given fuel for [2 * width * height] iterations
    of its loop) exactly [width * height] cells, one per coordinate, with
    symmetric flags, in which exactly [width * height - 1] passages are open
    on both sides and every cell is reachable from every other: a spanning
    tree of the cell graph. *)
Theorem generate_maze_spanning_tree fuel w h seed g :
  1 ≤ w → 1 ≤ h → (Z.to_nat (2 * w * h) ≤ fuel)%nat →
  ∃ cells g', generate_maze fuel w h seed g = Returns (cells, g')
    ∧ length cells = Z.to_nat (w * h)
    ∧ is_grid w h cells
    ∧ symmetric w h cells
    ∧ passage_pairs cells = Z.to_nat (w * h - 1)
    ∧ connected w h cells.
Proof.
  intros Hw Hh Hfuel.
  destruct (generate_maze_spec fuel w h seed g Hw Hh Hfuel)
    as (s & _ & _ & Hgen & Hlen & Hg & Hsym & Hpairs & Hconn).
  do 2 eexists. split; [exact Hgen|].
  split; [done|]. split; [done|]. split; [by apply symmetric_of_flags|].
  split; [done|done].
Qed.

(** C2: with a seed given, the cells [generate_maze] returns do not depend
    on the state the generator was in: two calls with the same width,
    height and seed return the same list of cells (and leave the generator
    in the same state). *)
Theorem generate_maze_deterministic fuel w h seed g1 g2 :
  1 ≤ w → 1 ≤ h → (Z.to_nat (2 * w * h) ≤ fuel)%nat →
  ∃ cells g', generate_maze fuel w h (Some seed) g1 = Returns (cells, g')
              ∧ generate_maze fuel w h (Some seed) g2 = Returns (cells, g').
Proof.
  intros Hw Hh Hfuel.
  destruct (generate_maze_spec fuel w h (Some seed) g1 Hw Hh Hfuel)
    as (s & _ & _ & Hgen & _).
  do 2 eexists. split; exact Hgen.
Qed.

(** C3: the cells [generate_maze] returns have symmetric flags: towards a
    neighbour inside the grid a flag is 1 exactly when the neighbour's
    opposite flag is 1, and no flag towards the outside is 1.  On every grid
    with symmetric flags (that of [generate_maze] is one) the list is a grid
    with symmetric flags after every number [k] of iterations of the loop of
    [add_loops], in either copy, and in the state [add_loops] ends in. *)
Theorem passages_stay_symmetric fuel w h seed g :
  1 ≤ w → 1 ≤ h → (Z.to_nat (2 * w * h) ≤ fuel)%nat →
  (∃ cells g', generate_maze fuel w h seed g = Returns (cells, g')
     ∧ is_grid w h cells ∧ symmetric w h cells)
  ∧ ∀ cells v lf g1 t,
      is_grid w h cells → symmetric w h cells →
      total_loops w h lf = Returns t →
      (∀ k, ∃ s, add_loops_after v k cells w h lf g1 = Returns s
                 ∧ is_grid w h (ls_cells s) ∧ symmetric w h (ls_cells s))
      ∧ (∀ n s, add_loops v n cells w h lf g1 = Returns s →
                symmetric w h (ls_cells s)).
Proof.
  intros Hw Hh Hfuel. split.
  { destruct (generate_maze_spec fuel w h seed g Hw Hh Hfuel)
      as (s0 & _ & _ & Hgen & _ & Hg & Hsym & _).
    do 2 eexists. split; [exact Hgen|]. split; [done|].
    by apply symmetric_of_flags. }
  intros cells v lf g1 t Hg Hsym Ht.
  assert (Hafter : ∀ k, ∃ s, add_loops_after v k cells w h lf g1 = Returns s
                    ∧ is_grid w h (ls_cells s) ∧ symmetric w h (ls_cells s)).
  { intros k.
    destruct (add_loops_after_inv v k cells w h lf g1 t Hw Hh Hg Ht)
      as (s & grid & Hrun & Hinv).
    exists s. split; [done|]. destruct Hinv as [Hg' _ Hsym' _ _].
    split; [done|]. apply symmetric_of_flags; [done|].
    by apply Hsym', flags_of_symmetric. }
  split; [exact Hafter|]. intros n s Hrun.
  destruct (Hafter n) as (s' & Hrun' & _ & Hsym').
  unfold add_loops in Hrun. unfold add_loops_after in Hrun'.
  rewrite Ht in Hrun, Hrun'. simpl in Hrun, Hrun'.
  destruct (index_cells cells w h) as [grid| |]; simpl in *; try done.
  apply while_iterations in Hrun. rewrite Hrun in Hrun'. by injection Hrun' as <-.
Qed.

(** C6: on a grid, once the target [t] is computed, [add_loops] (either
    copy) ends without an exception within [max(1000, t * 10)] attempts:
    fuel for that many iterations and the final test is enough, the state
    it ends in is the state after at most that many iterations, and the
    attempt counter ends at most there.  The loop also ends where fewer
    than [t] passages were added; then the cap of the copy was reached. *)
Theorem add_loops_attempts_bounded v fuel cells w h lf g t :
  1 ≤ w → 1 ≤ h → is_grid w h cells → total_loops w h lf = Returns t →
  (Z.to_nat (Z.max 1000 (t * 10)) < fuel)%nat →
  ∃ s, add_loops v fuel cells w h lf g = Returns s
    ∧ add_loops_after v (Z.to_nat (Z.max 1000 (t * 10))) cells w h lf g = Returns s
    ∧ 0 ≤ ls_attempts s ≤ Z.max 1000 (t * 10)
    ∧ (ls_added s < t → max_attempts v t ≤ ls_attempts s).
Proof.
  intros Hw Hh Hg Ht Hfuel.
  assert (Hcap : max_attempts v t ≤ Z.max 1000 (t * 10)) by (destruct v; simpl; lia).
  set (N := Z.to_nat (Z.max 1000 (t * 10))) in *.
  destruct (add_loops_total v (S N) cells w h lf g t Hw Hh Hg Ht)
    as (s & grid & Hrun & Hinv & Hle & Hcond); [lia|].
  exists s.
  unfold add_loops, add_loops_after in *. rewrite Ht in *.
  cbn [mbind res_bind] in *.
  destruct (index_cells cells w h) as [grid'| |]; cbn [mbind res_bind] in *; try done.
  split; [by apply (while_mono _ _ (S N) fuel)|].
  split; [by apply while_S_iterations|]. split.
  - split; [apply Hinv|lia].
  - intros Hfew. unfold loops_cond in Hcond.
    apply andb_false_iff in Hcond as [Hc|Hc]; apply bool_decide_eq_false in Hc; lia.
Qed.

(** C8: with a loop factor of zero [add_loops] does not enter its loop.
    Whenever it returns, the cells, the counters and the generator are as
    they were, so the count of open passages is unchanged; on a grid whose
    size converts to a float it does return; and [build_data] with
    [loops = 0] returns the very cells [generate_maze] made. *)
Theorem loop_factor_zero_noop v fuel cells w h sg g :
  (∀ s, add_loops v fuel cells w h (S754_zero sg) g = Returns s →
        s = LoopState cells 0 0 g
        ∧ passage_pairs (ls_cells s) = passage_pairs cells)
  ∧ (is_grid w h cells → total_loops w h (S754_zero sg) = Returns 0 →
     (0 < fuel)%nat →
     add_loops v fuel cells w h (S754_zero sg) g = Returns (LoopState cells 0 0 g))
  ∧ (∀ seed start_str end_str m g',
       build_data fuel w h seed (S754_zero sg) start_str end_str g = Returns (m, g') →
       generate_maze fuel w h seed g = Returns (m_cells m, g')).
Proof.
  split; [|split].
  - intros s Hs. apply add_loops_zero in Hs as ->. done.
  - intros Hg Ht Hfuel. unfold add_loops. rewrite Ht. simpl.
    destruct (index_cells_spec w h cells Hg) as (grid & -> & _). simpl.
    destruct fuel as [|fuel]; [lia|]. reflexivity.
  - intros seed ss es m g' H. unfold build_data in H.
    destruct (generate_maze fuel w h seed g) as [[cells0 g1]| |]; simpl in H; try done.
    replace (SFltb float_zero (S754_zero sg)) with false in H
      by (by destruct sg).
    simpl in H.
    destruct (coordinate_or ss _) as [start| |]; simpl in H; try done.
    destruct (coordinate_or es _) as [end_| |]; simpl in H; try done.
    by injection H as <- <-.
Qed.

(** C10: for every width and height of at least 1 and any seed, the carving
    loop ends, and then no entry of the grid is [None]: every read
    [grid[y][x]] of the flatten step finds a cell, and what that step
    returns is the cells of the grid themselves, row after row, none of
    them made by its defensive branch. *)
Theorem carve_leaves_no_hole fuel w h seed g :
  1 ≤ w → 1 ≤ h → (Z.to_nat (2 * w * h) ≤ fuel)%nat →
  ∃ s, carve fuel w h seed g = Returns s
    ∧ (∀ x y, in_bounds w h x y = true →
              ∃ c, grid_get (cs_grid s) x y = Returns (Some c))
    ∧ ∃ rows : list (list cell),
        cs_grid s = (fmap (M:=list) Some) <$> rows
        ∧ flatten (cs_grid s) w h = Returns (concat rows).
Proof.
  intros Hw Hh Hfuel.
  destruct (carve_total fuel w h seed g Hw Hh Hfuel) as (s & Hrun & Hinv & Hstack).
  pose proof (carve_all_visited w h s Hinv Hstack) as Hall.
  pose proof (ci_shape w h s Hinv) as Hs.
  exists s. split; [done|]. split.
  - intros x y Hin. apply in_bounds_inb in Hin.
    destruct (Hall _ Hin) as [c Hc]. exists c. by eapply grid_get_entry.
  - exists (flat_rows (cs_grid s) w h). split.
    + by apply flat_rows_grid.
    + rewrite concat_mjoin. by apply flatten_rows.
Qed.

(** C7, as the code has it: [main] clamps both dimensions with
    [max(1, _)] before it calls [build_data], so for a width or height
    below 1 (as for any other) the call returns a whole maze of the clamped
    size, and nothing like an invalid-dimension error exists.  Called
    itself with a width or height below 1, [build_data] ends in the
    [IndexError] of [generate_maze] and returns nothing. *)
Theorem main_clamps_dimensions fuel :
  (∀ args_width args_height seed loops g t,
     SFltb float_zero loops = false
     ∨ total_loops (Z.max 1 args_width) (Z.max 1 args_height) loops = Returns t →
     (Z.to_nat (2 * Z.max 1 args_width * Z.max 1 args_height) ≤ fuel)%nat →
     (Z.to_nat (max_attempts Cli t) < fuel)%nat →
     ∃ m g', main_data fuel args_width args_height seed loops None None g
             = Returns (m, g')
       ∧ m_width m = Z.max 1 args_width ∧ m_height m = Z.max 1 args_height
       ∧ is_grid (m_width m) (m_height m) (m_cells m)
       ∧ m_start m = [0; 0]
       ∧ ∃ x y, m_end m = [x; y] ∧ inb (m_width m) (m_height m) (x, y))
  ∧ (∀ w h seed loops start_str end_str g,
       w < 1 ∨ h < 1 →
       build_data fuel w h seed loops start_str end_str g = Raises IndexError).
Proof.
  split.
  - intros aw ah seed loops g t Hloops Hf1 Hf2. unfold main_data.
    destruct (build_data_total fuel (Z.max 1 aw) (Z.max 1 ah) seed loops g t)
      as (m & g' & -> & Hmw & Hmh & _ & Hg & Hstart & Hend); try done; try lia.
    exists m, g'. rewrite Hmw, Hmh. done.
  - intros w h seed loops ss es g Hwh. unfold build_data.
    by rewrite generate_maze_invalid.
Qed.

(** C4, at the failing input: the mazes [build_data] makes for a 1x1 grid
    with loop factors 0.0 and 0.5 differ in their loop factor, and both
    copies of [export_compact_lines] write the same text for them (the
    first copy leaves out start and end as well).  So no parser gets the
    loop factor back from the text. *)
Theorem export_drops_loop_factor seed g :
  ∃ m1 m2 g1 g2,
    build_data 4 1 1 seed float_zero None None g = Returns (m1, g1)
    ∧ build_data 4 1 1 seed float_half None None g = Returns (m2, g2)
    ∧ m_loops m1 ≠ m_loops m2
    ∧ (∀ v, export_compact_lines v m1 = export_compact_lines v m2)
    ∧ ∀ (parse : string → option maze) v t,
        export_compact_lines v m1 = Returns t →
        ¬ (parse t = Some m1 ∧ parse t = Some m2).
Proof.
  do 4 eexists. split; [|split; [|split; [|split]]].
  - unfold build_data, generate_maze, carve. carve_run.
    vm_compute. reflexivity.
  - unfold build_data, generate_maze, carve. carve_run.
    vm_compute. reflexivity.
  - done.
  - intros []; reflexivity.
  - intros parse v t _ [H1 H2]. rewrite H1 in H2. by injection H2.
Qed.

(** C5, as the code has it: on a grid, every start inside the bounds gives
    a coordinate inside the bounds, without an exception (fuel for
    [width * height] iterations is enough).  [find_farthest_cell] has no
    bounds check of its own: a start that Python's indices reach, with
    coordinates down to minus the width and height, is searched from
    without an exception, and a start at or beyond the width or height, or
    below their negations, ends in the [IndexError] of
    [visited[start[1]][start[0]]] with no coordinate returned. *)
Theorem find_farthest_cell_bounds fuel cells w h sx sy :
  is_grid w h cells → 1 ≤ w → 1 ≤ h → (Z.to_nat (w * h) < fuel)%nat →
  (inb w h (sx, sy) →
   ∃ x y, find_farthest_cell fuel cells w h [sx; sy] = Returns [x; y]
          ∧ inb w h (x, y))
  ∧ (wrapped w h (sx, sy) →
     ∃ x y, find_farthest_cell fuel cells w h [sx; sy] = Returns [x; y]
            ∧ wrapped w h (x, y))
  ∧ (¬ wrapped w h (sx, sy) →
     find_farthest_cell fuel cells w h [sx; sy] = Raises IndexError).
Proof.
  intros Hg Hw Hh Hfuel. split; [|split].
  - intros Hin.
    by apply (find_farthest_total w h (inb w h) ltac:(lia) ltac:(lia) (λ p H, H)
                (inb_wrapped w h)).
  - intros Hin.
    by apply (find_farthest_total w h (wrapped w h) ltac:(lia) ltac:(lia)
                (inb_wrapped w h) (λ p H, H)).
  - intros Hout. apply find_farthest_out; try done; try lia.
    unfold wrapped in Hout. simpl in Hout. lia.
Qed.

(** C9, as the code has it: for every seed [generate_maze(1, 5, seed)] is
    the column of five cells, each open towards the next row, and
    [find_farthest_cell] from (0, 0) returns (0, 4): the far end of the
    corridor is at x = 0, y = 4. *)
Theorem corridor_farthest fuel seed g :
  (10 ≤ fuel)%nat →
  ∃ g', generate_maze fuel 1 5 seed g = Returns (corridor, g')
        ∧ find_farthest_cell fuel corridor 1 5 [0; 0] = Returns [0; 4].
Proof.
  intros Hfuel. destruct (carve_corridor seed g) as [g' Hc].
  exists g'. split.
  - unfold generate_maze. rewrite (carve_mono 10 fuel _ _ _ _ _ Hc Hfuel).
    reflexivity.
  - apply (find_farthest_mono 10); [|done]. vm_compute. reflexivity.
Qed.

End Properties.

(** * The properties at concrete inputs *)

Lemma generate_maze_spanning_tree_witness :
  ∃ cells g', generate_maze (RT:=lcg) 18 3 3 (Some 42) 0 = Returns (cells, g')
    ∧ length cells = Z.to_nat (3 * 3)
    ∧ is_grid 3 3 cells
    ∧ symmetric 3 3 cells
    ∧ passage_pairs cells = Z.to_nat (3 * 3 - 1)
    ∧ connected 3 3 cells.
Proof.
  apply (generate_maze_spanning_tree (RT:=lcg) 18 3 3 (Some 42) 0);
    [lia|lia|vm_compute; lia].
Defined.

Lemma generate_maze_deterministic_witness :
  ∃ cells g', generate_maze (RT:=lcg) 18 3 3 (Some 42) 0 = Returns (cells, g')
              ∧ generate_maze (RT:=lcg) 18 3 3 (Some 42) 7 = Returns (cells, g').
Proof.
  apply (generate_maze_deterministic (RT:=lcg) 18 3 3 42 0 7);
    [lia|lia|vm_compute; lia].
Defined.

Lemma passages_stay_symmetric_witness :
  (∃ cells g', generate_maze (RT:=lcg) 18 3 3 (Some 42) 0 = Returns (cells, g')
     ∧ is_grid 3 3 cells ∧ symmetric 3 3 cells)
  ∧ ∀ cells v lf g1 t,
      is_grid 3 3 cells → symmetric 3 3 cells →
      total_loops 3 3 lf = Returns t →
      (∀ k, ∃ s, add_loops_after (RT:=lcg) v k cells 3 3 lf g1 = Returns s
                 ∧ is_grid 3 3 (ls_cells s) ∧ symmetric 3 3 (ls_cells s))
      ∧ (∀ n s, add_loops (RT:=lcg) v n cells 3 3 lf g1 = Returns s →
                symmetric 3 3 (ls_cells s)).
Proof.
  apply (passages_stay_symmetric (RT:=lcg) 18 3 3 (Some 42) 0);
    [lia|lia|vm_compute; lia].
Defined.

(** The 1x1 grid with loop factor 1.0: the target is one passage, there is
    none to open, and the loop stops at its cap. *)
Lemma add_loops_attempts_bounded_witness :
  ∃ s, add_loops (RT:=lcg) App 1001 [make_cell 0 0] 1 1 float_one 0 = Returns s
    ∧ add_loops_after (RT:=lcg) App (Z.to_nat (Z.max 1000 (1 * 10)))
        [make_cell 0 0] 1 1 float_one 0 = Returns s
    ∧ 0 ≤ ls_attempts s ≤ Z.max 1000 (1 * 10)
    ∧ (ls_added s < 1 → max_attempts App 1 ≤ ls_attempts s).
Proof.
  apply (add_loops_attempts_bounded (RT:=lcg) App 1001 [make_cell 0 0] 1 1
           float_one 0 1);
    [lia|lia|exact is_grid_single|reflexivity|vm_compute; lia].
Defined.

Lemma loop_factor_zero_noop_witness :
  add_loops (RT:=lcg) Cli 1 [make_cell 0 0] 1 1 float_zero 0
  = Returns (LoopState (RT:=lcg) [make_cell 0 0] 0 0 0).
Proof.
  apply (proj1 (proj2 (loop_factor_zero_noop (RT:=lcg) Cli 1 [make_cell 0 0] 1 1
                         false 0)));
    [exact is_grid_single|reflexivity|lia].
Defined.

Lemma carve_leaves_no_hole_witness :
  ∃ s, carve (RT:=lcg) 18 3 3 (Some 42) 0 = Returns s
    ∧ (∀ x y, in_bounds 3 3 x y = true →
              ∃ c, grid_get (cs_grid s) x y = Returns (Some c))
    ∧ ∃ rows : list (list cell),
        cs_grid s = (fmap (M:=list) Some) <$> rows
        ∧ flatten (cs_grid s) 3 3 = Returns (concat rows).
Proof.
  apply (carve_leaves_no_hole (RT:=lcg) 18 3 3 (Some 42) 0);
    [lia|lia|vm_compute; lia].
Defined.

Lemma main_clamps_dimensions_witness :
  ∃ m g', main_data (RT:=lcg) 3 0 (-2) None float_zero None None 0 = Returns (m, g')
    ∧ m_width m = Z.max 1 0 ∧ m_height m = Z.max 1 (-2)
    ∧ is_grid (m_width m) (m_height m) (m_cells m)
    ∧ m_start m = [0; 0]
    ∧ ∃ x y, m_end m = [x; y] ∧ inb (m_width m) (m_height m) (x, y).
Proof.
  apply (proj1 (main_clamps_dimensions (RT:=lcg) 3) 0 (-2) None float_zero 0 0);
    [by left|vm_compute; lia|vm_compute; lia].
Defined.

(** A width of 0: [main] hands [build_data] a width of 1 and gets a maze. *)
Lemma main_accepts_width_zero :
  main_data (RT:=lcg) 3 0 0 None float_zero None None 0
  = Returns (Maze 1 1 [make_cell 0 0] [0; 0] [0; 0] float_zero, 0).
Proof. vm_compute. reflexivity. Qed.

Lemma find_farthest_cell_bounds_witness :
  (inb 1 1 (0, 0) →
   ∃ x y, find_farthest_cell 2 [make_cell 0 0] 1 1 [0; 0] = Returns [x; y]
          ∧ inb 1 1 (x, y))
  ∧ (wrapped 1 1 (0, 0) →
     ∃ x y, find_farthest_cell 2 [make_cell 0 0] 1 1 [0; 0] = Returns [x; y]
            ∧ wrapped 1 1 (x, y))
  ∧ (¬ wrapped 1 1 (0, 0) →
     find_farthest_cell 2 [make_cell 0 0] 1 1 [0; 0] = Raises IndexError).
Proof.
  apply (find_farthest_cell_bounds 2 [make_cell 0 0] 1 1 0 0);
    [exact is_grid_single|lia|lia|vm_compute; lia].
Defined.

(** A start at x = -1 is outside the grid, and yet no exception is raised:
    Python's index -1 is the last column, and the start itself comes back. *)
Lemma find_farthest_cell_wraps :
  is_grid 1 1 [make_cell 0 0] ∧ ¬ inb 1 1 (-1, 0)
  ∧ find_farthest_cell 2 [make_cell 0 0] 1 1 [-1; 0] = Returns [-1; 0].
Proof.
  split; [exact is_grid_single|]. split; [|vm_compute; reflexivity].
  intros [H _]. simpl in H. lia.
Qed.

Lemma corridor_farthest_witness :
  ∃ g', generate_maze (RT:=lcg) 10 1 5 None 0 = Returns (corridor, g')
        ∧ find_farthest_cell 10 corridor 1 5 [0; 0] = Returns [0; 4].
Proof. apply (corridor_farthest (RT:=lcg) 10 None 0). lia. Defined.

(** The answer for the 1x5 maze is not (4, 0). *)
Lemma corridor_farthest_is_not_4_0 :
  ¬ ∃ cells g', generate_maze (RT:=lcg) 10 1 5 (Some 42) 0 = Returns (cells, g')
                ∧ find_farthest_cell 10 cells 1 5 [0; 0] = Returns [4; 0].
Proof.
  intros (cells & g' & Hgen & Hfar). vm_compute in Hgen.
  injection Hgen as <- _. vm_compute in Hfar. discriminate.
Qed.

(** * Runs *)

(** The 3x3 maze of seed 42 under the small generator above. *)
Example generate_maze_3x3 :
  generate_maze (RT:=lcg) 18 3 3 (Some 42) 0
  = Returns ([Cell (0, 0) [0; 1; 0; 0]; Cell (1, 0) [0; 0; 1; 1];
              Cell (2, 0) [0; 0; 1; 0]; Cell (0, 1) [0; 0; 1; 0];
              Cell (1, 1) [1; 1; 0; 0]; Cell (2, 1) [1; 0; 1; 1];
              Cell (0, 2) [1; 1; 0; 0]; Cell (1, 2) [0; 1; 0; 1];
              Cell (2, 2) [1; 0; 0; 1]], 6762).
Proof. vm_compute. reflexivity. Qed.

(** Width or height below 1: the first assignment [grid[0][0] = ...] fails. *)
Example generate_maze_0x5 :
  generate_maze (RT:=lcg) 18 0 5 None 0 = Raises IndexError.
Proof. vm_compute. reflexivity. Qed.

(** A loop factor of 1.0 on the 1x1 grid: no passage can be added, and the
    loop gives up at the cap of the copy, 10 attempts or 1000. *)
Example add_loops_1x1_cli :
  (s ← add_loops (RT:=lcg) Cli 11 [make_cell 0 0] 1 1 float_one 0;
   Returns (ls_cells s, ls_added s, ls_attempts s))
  = Returns ([make_cell 0 0], 0, 10).
Proof. vm_compute. reflexivity. Qed.

Example add_loops_1x1_app :
  (s ← add_loops (RT:=lcg) App 1001 [make_cell 0 0] 1 1 float_one 0;
   Returns (ls_cells s, ls_added s, ls_attempts s))
  = Returns ([make_cell 0 0], 0, 1000).
Proof. vm_compute. reflexivity. Qed.

(** The text of the second copy for a 1x1 maze. *)
Example export_1x1 :
  export_compact_lines App (Maze 1 1 [make_cell 0 0] [0; 0] [0; 0] float_zero)
  = Returns (join newline
      ["{";
       "  " +:+ quote +:+ "width" +:+ quote +:+ ": 1,";
       "  " +:+ quote +:+ "height" +:+ quote +:+ ": 1,";
       "  " +:+ quote +:+ "start" +:+ quote +:+ ": [0, 0],";
       "  " +:+ quote +:+ "end" +:+ quote +:+ ": [0, 0],";
       "  " +:+ quote +:+ "cells" +:+ quote +:+ ": [";
       "    { " +:+ quote +:+ "position" +:+ quote +:+ ": [0, 0], "
         +:+ quote +:+ "directions" +:+ quote +:+ ": [0, 0, 0, 0] }";
       "  ]";
       "}"]).
Proof. vm_compute. reflexivity. Qed.

(** * Further properties of the code *)

Section Further.
Context `{RT : Runtime}.

(** X1: [add_loops] only opens passages: whenever it returns, on any list
    of cells, the cell at every index has kept its position and the number
    of its flags, and every flag that was 1 is still 1.  So the positions
    are unchanged, and a connected maze stays connected. *)
Theorem add_loops_only_opens v fuel cells w h lf g s :
  add_loops v fuel cells w h lf g = Returns s →
  keeps cells (ls_cells s)
  ∧ position <$> ls_cells s = position <$> cells
  ∧ (connected w h cells → connected w h (ls_cells s)).
Proof.
  intros Hrun. pose proof (add_loops_keeps v fuel cells w h lf g s Hrun) as Hk.
  split; [done|]. split; [by apply keeps_positions|].
  intros Hconn p q Hp Hq. eapply reach_mono; [|by apply Hconn].
  intros p' e _. by apply keeps_lflag.
Qed.

(** X2: on a grid with symmetric flags, whenever [add_loops] returns, its
    counter [loops_added] is the number of passages it has opened: the
    passages open on both sides are those before plus [loops_added].  The
    counter never passes the target, and when the loop stops below its cap
    of attempts the target has been reached. *)
Theorem add_loops_counts_passages v fuel cells w h lf g s :
  1 ≤ w → 1 ≤ h → is_grid w h cells → symmetric w h cells →
  add_loops v fuel cells w h lf g = Returns s →
  ∃ t, total_loops w h lf = Returns t
    ∧ passage_pairs (ls_cells s)
      = (passage_pairs cells + Z.to_nat (ls_added s))%nat
    ∧ 0 ≤ ls_added s ≤ Z.max 0 t
    ∧ (ls_attempts s < max_attempts v t → ls_added s = Z.max 0 t).
Proof.
  intros Hw Hh Hg Hsym Hrun.
  pose proof (flags_of_symmetric w h cells Hg Hsym) as Hsym'.
  destruct (add_loops_counts v fuel cells w h lf g s Hw Hh Hg Hsym' Hrun)
    as (t & grid & Ht & [Hg1 _ Hsym1 Hcount Hadded] & Hcond).
  exists t. split; [done|]. split; [|split; [done|]].
  - rewrite (passage_pairs_flags w h cells Hg Hsym').
    by rewrite (passage_pairs_flags w h (ls_cells s) Hg1 Hsym1).
  - intros Hlt. unfold loops_cond in Hcond.
    apply andb_false_iff in Hcond as [Hc|Hc]; apply bool_decide_eq_false in Hc; lia.
Qed.

(** X3: the cells [generate_maze] returns are in row-major order: the cell
    at index [y * width + x] has position [(x, y)].  Each has four flags,
    and every flag is 0 or 1. *)
Theorem generate_maze_row_major fuel w h seed g :
  1 ≤ w → 1 ≤ h → (Z.to_nat (2 * w * h) ≤ fuel)%nat →
  ∃ cells g', generate_maze fuel w h seed g = Returns (cells, g')
    ∧ ∀ x y, inb w h (x, y) →
        ∃ c, cells !! Z.to_nat (y * w + x) = Some c
             ∧ position c = (x, y)
             ∧ length (directions c) = 4%nat ∧ bits c.
Proof.
  intros Hw Hh Hfuel.
  destruct (carve_total fuel w h seed g Hw Hh Hfuel) as (s & Hrun & Hinv & Hstack).
  pose proof (carve_all_visited w h s Hinv Hstack) as Hall.
  pose proof (carve_bits fuel w h seed g s Hrun) as Hbits.
  pose proof (ci_shape w h s Hinv) as Hs.
  exists (mjoin (flat_rows (cs_grid s) w h)), (cs_rng s). split.
  { unfold generate_maze. rewrite Hrun. simpl.
    by rewrite (flatten_rows w h _ Hs). }
  intros x y Hin. destruct (Hall _ Hin) as [c Hc]. exists c.
  pose proof (flat_rows_lookup w h (cs_grid s) x y Hin) as Hl.
  rewrite Hc in Hl. simpl in Hl. destruct Hin as [Hx Hy]. simpl in *.
  replace (Z.to_nat (y * w + x)) with (Z.to_nat y * Z.to_nat w + Z.to_nat x)%nat
    by nia.
  split; [done|].
  destruct (ci_cells w h s Hinv _ _ Hc) as [Hpos Hlen].
  split; [done|]. split; [done|]. by eapply all_cells_entry.
Qed.

(** X4: the search of [find_farthest_cell] is breadth-first.  From a start
    inside a grid it returns a cell together with which the start has a
    shortest walk of some length [n] through open passages (a flag that is 1,
    towards a cell inside the grid), and every cell a walk from the start
    reaches has a shortest walk of at most that length. *)
Theorem find_farthest_cell_is_farthest fuel cells w h sx sy :
  is_grid w h cells → inb w h (sx, sy) → (Z.to_nat (w * h) < fuel)%nat →
  ∃ x y n, find_farthest_cell fuel cells w h [sx; sy] = Returns [x; y]
    ∧ distance w h (lflag cells) (sx, sy) (x, y) n
    ∧ ∀ q m, walk w h (lflag cells) (sx, sy) m q →
        ∃ k, distance w h (lflag cells) (sx, sy) q k ∧ (k ≤ n)%nat.
Proof. apply find_farthest_search. Qed.

(** X5: called without start and end, [build_data] returns a maze that is
    connected, also after [add_loops], and whose end is a cell farthest from
    (0, 0): every cell of the grid has a shortest walk from (0, 0), none
    longer than the one to the end. *)
Theorem build_data_end_is_farthest fuel w h seed loops g t :
  1 ≤ w → 1 ≤ h →
  SFltb float_zero loops = false ∨ total_loops w h loops = Returns t →
  (Z.to_nat (2 * w * h) ≤ fuel)%nat → (Z.to_nat (max_attempts Cli t) < fuel)%nat →
  ∃ m g', build_data fuel w h seed loops None None g = Returns (m, g')
    ∧ is_grid w h (m_cells m) ∧ connected w h (m_cells m)
    ∧ ∃ x y n, m_end m = [x; y]
        ∧ distance w h (lflag (m_cells m)) (0, 0) (x, y) n
        ∧ ∀ q, inb w h q →
            ∃ k, distance w h (lflag (m_cells m)) (0, 0) q k ∧ (k ≤ n)%nat.
Proof. apply build_data_farthest. Qed.

(** X6: the two renderers draw the same picture.  [render_ascii_grid]
    raises what [render_maze_grid] raises, and otherwise returns the lines
    the latter prints, joined by newlines. *)
Theorem renderers_draw_the_same m start end_ :
  render_ascii_grid m start end_
  = (let r := render_maze_grid m start end_ in
     _ ← r.2; Returns (join newline r.1)).
Proof. apply renderers_agree. Qed.

(** X7: on a grid both renderers succeed, and the picture has
    [2 * height + 1] lines of [4 * width + 1] characters: the top border,
    then for every row a line with the cells and a line below it.  The cell
    at column [x] takes four characters from position [4 * x + 1]: in the
    first line its content (S for the start, else E for the end) and a wall
    on its East side unless that flag is 1, in the second a wall on its South
    side unless that flag is 1, and a corner. *)
Theorem renderers_draw_the_walls m start end_ :
  0 ≤ m_width m → 0 ≤ m_height m →
  is_grid (m_width m) (m_height m) (m_cells m) →
  ∃ lines, render_maze_grid m start end_ = (lines, Returns tt)
    ∧ render_ascii_grid m start end_ = Returns (join newline lines)
    ∧ drawing (m_cells m) start end_ (m_width m) (m_height m) lines.
Proof. apply renderers_draw. Qed.

(** X8: a start and an end given to [build_data] are taken as parsed and
    never compared with the grid: whatever tuples the two strings parse to,
    inside the grid or not, of two integers or not, the maze is returned
    with them, and [find_farthest_cell] is not run. *)
Theorem build_data_keeps_given_ends fuel w h seed loops g t ss es s0 e0 :
  1 ≤ w → 1 ≤ h →
  SFltb float_zero loops = false ∨ total_loops w h loops = Returns t →
  (Z.to_nat (2 * w * h) ≤ fuel)%nat → (Z.to_nat (max_attempts Cli t) < fuel)%nat →
  ss ≠ EmptyString → es ≠ EmptyString →
  parse_ints ss = Returns s0 → parse_ints es = Returns e0 →
  ∃ m g', build_data fuel w h seed loops (Some ss) (Some es) g = Returns (m, g')
    ∧ is_grid w h (m_cells m) ∧ m_start m = s0 ∧ m_end m = e0.
Proof. apply build_data_explicit. Qed.

(** X9: the text [export_compact_lines] writes determines the width, the
    height and the list of cells, positions and flags, and in the second
    copy the start and the end as well: two mazes with the same text agree
    on them. *)
Theorem export_determines_the_maze v d1 d2 t :
  export_compact_lines v d1 = Returns t → export_compact_lines v d2 = Returns t →
  m_width d1 = m_width d2 ∧ m_height d1 = m_height d2 ∧ m_cells d1 = m_cells d2
  ∧ (v = App → m_start d1 = m_start d2 ∧ m_end d1 = m_end d2).
Proof. apply export_inj. Qed.

(** X10: the two copies of [add_loops] differ in the cap of attempts only.
    For a target of 100 passages or more the caps are equal and the copies
    do the same; below, whenever the copy of [maze_tool.py] reaches its
    target, the copy of [app_streamlit_maze.py] returns the same cells,
    counters and generator. *)
Theorem add_loops_copies_agree fuel cells w h lf g t :
  total_loops w h lf = Returns t →
  (100 ≤ t →
   add_loops Cli fuel cells w h lf g = add_loops App fuel cells w h lf g)
  ∧ ∀ s, add_loops Cli fuel cells w h lf g = Returns s → t ≤ ls_added s →
         add_loops App fuel cells w h lf g = Returns s.
Proof. apply add_loops_copies. Qed.

(** X11: the loop factor bounds the passages of the maze [build_data]
    returns.  The maze is symmetric and has [width * height - 1] passages
    and [k] more, where [k] is at most the target
    [int(width * height * loops)] of [add_loops], and 0 when [loops] is not
    above 0.0. *)
Theorem build_data_passages fuel w h seed loops g t :
  1 ≤ w → 1 ≤ h →
  SFltb float_zero loops = false ∨ total_loops w h loops = Returns t →
  (Z.to_nat (2 * w * h) ≤ fuel)%nat → (Z.to_nat (max_attempts Cli t) < fuel)%nat →
  ∃ m g' k, build_data fuel w h seed loops None None g = Returns (m, g')
    ∧ is_grid w h (m_cells m) ∧ symmetric w h (m_cells m)
    ∧ passage_pairs (m_cells m) = (Z.to_nat (w * h - 1) + k)%nat
    ∧ (k ≤ Z.to_nat t)%nat
    ∧ (SFltb float_zero loops = false → k = 0%nat).
Proof. apply build_data_passage_count. Qed.

End Further.

(** * The further properties at concrete inputs *)

Lemma add_loops_only_opens_witness :
  keeps maze_2x2 maze_2x2_looped
  ∧ position <$> maze_2x2_looped = position <$> maze_2x2
  ∧ (connected 2 2 maze_2x2 → connected 2 2 maze_2x2_looped).
Proof.
  apply (add_loops_only_opens (RT:=lcg) Cli 100 maze_2x2 2 2 float_half 0
           (LoopState (RT:=lcg) maze_2x2_looped 1 20 27641)).
  vm_compute. reflexivity.
Defined.

Lemma add_loops_counts_passages_witness :
  ∃ t, total_loops 2 2 float_half = Returns t
    ∧ passage_pairs maze_2x2_looped = (passage_pairs maze_2x2 + Z.to_nat 1)%nat
    ∧ 0 ≤ 1 ≤ Z.max 0 t
    ∧ (20 < max_attempts Cli t → 1 = Z.max 0 t).
Proof.
  apply (add_loops_counts_passages (RT:=lcg) Cli 100 maze_2x2 2 2 float_half 0
           (LoopState (RT:=lcg) maze_2x2_looped 1 20 27641));
    [lia|lia|apply maze_2x2_grid|apply maze_2x2_grid|vm_compute; reflexivity].
Defined.

Lemma generate_maze_row_major_witness :
  ∃ cells g', generate_maze (RT:=lcg) 18 3 3 (Some 42) 0 = Returns (cells, g')
    ∧ ∀ x y, inb 3 3 (x, y) →
        ∃ c, cells !! Z.to_nat (y * 3 + x) = Some c
             ∧ position c = (x, y)
             ∧ length (directions c) = 4%nat ∧ bits c.
Proof.
  apply (generate_maze_row_major (RT:=lcg) 18 3 3 (Some 42) 0);
    [lia|lia|vm_compute; lia].
Defined.

Lemma find_farthest_cell_is_farthest_witness :
  ∃ x y n, find_farthest_cell 5 maze_2x2 2 2 [0; 0] = Returns [x; y]
    ∧ distance 2 2 (lflag maze_2x2) (0, 0) (x, y) n
    ∧ ∀ q m, walk 2 2 (lflag maze_2x2) (0, 0) m q →
        ∃ k, distance 2 2 (lflag maze_2x2) (0, 0) q k ∧ (k ≤ n)%nat.
Proof.
  apply (find_farthest_cell_is_farthest 5 maze_2x2 2 2 0 0);
    [apply maze_2x2_grid|split; simpl; lia|vm_compute; lia].
Defined.

Lemma build_data_end_is_farthest_witness :
  ∃ m g', build_data (RT:=lcg) 41 3 3 (Some 42) float_half None None 0
          = Returns (m, g')
    ∧ is_grid 3 3 (m_cells m) ∧ connected 3 3 (m_cells m)
    ∧ ∃ x y n, m_end m = [x; y]
        ∧ distance 3 3 (lflag (m_cells m)) (0, 0) (x, y) n
        ∧ ∀ q, inb 3 3 q →
            ∃ k, distance 3 3 (lflag (m_cells m)) (0, 0) q k ∧ (k ≤ n)%nat.
Proof.
  apply (build_data_end_is_farthest (RT:=lcg) 41 3 3 (Some 42) float_half 0 4);
    [lia|lia|right; vm_compute; reflexivity|vm_compute; lia|vm_compute; lia].
Defined.

Lemma renderers_draw_the_walls_witness :
  ∃ lines,
    render_maze_grid (Maze 2 2 maze_2x2 [0; 0] [0; 1] float_zero) [0; 0] [0; 1]
    = (lines, Returns tt)
    ∧ render_ascii_grid (Maze 2 2 maze_2x2 [0; 0] [0; 1] float_zero) [0; 0] [0; 1]
      = Returns (join newline lines)
    ∧ drawing maze_2x2 [0; 0] [0; 1] 2 2 lines.
Proof.
  apply (renderers_draw_the_walls (Maze 2 2 maze_2x2 [0; 0] [0; 1] float_zero)
           [0; 0] [0; 1]); [simpl; lia|simpl; lia|apply maze_2x2_grid].
Defined.

(** A start outside the 2x2 grid and an end of three numbers. *)
Lemma build_data_keeps_given_ends_witness :
  ∃ m g', build_data (RT:=lcg_parsing) 8 2 2 (Some 42) float_zero
            (Some "7,-9") (Some "1,2,3") 0 = Returns (m, g')
    ∧ is_grid 2 2 (m_cells m) ∧ m_start m = [7; -9] ∧ m_end m = [1; 2; 3].
Proof.
  apply (build_data_keeps_given_ends (RT:=lcg_parsing) 8 2 2 (Some 42) float_zero
           0 0 "7,-9" "1,2,3" [7; -9] [1; 2; 3]);
    [lia|lia|by left|vm_compute; lia|vm_compute; lia|done|done
    |vm_compute; reflexivity|vm_compute; reflexivity].
Defined.

(** Two mazes that differ in the loop factor only, and their text. *)
Lemma export_determines_the_maze_witness :
  m_width (Maze 1 1 [make_cell 0 0] [0; 0] [0; 0] float_zero)
  = m_width (Maze 1 1 [make_cell 0 0] [0; 0] [0; 0] float_half)
  ∧ m_height (Maze 1 1 [make_cell 0 0] [0; 0] [0; 0] float_zero)
    = m_height (Maze 1 1 [make_cell 0 0] [0; 0] [0; 0] float_half)
  ∧ m_cells (Maze 1 1 [make_cell 0 0] [0; 0] [0; 0] float_zero)
    = m_cells (Maze 1 1 [make_cell 0 0] [0; 0] [0; 0] float_half)
  ∧ (App = App →
     m_start (Maze 1 1 [make_cell 0 0] [0; 0] [0; 0] float_zero)
     = m_start (Maze 1 1 [make_cell 0 0] [0; 0] [0; 0] float_half)
     ∧ m_end (Maze 1 1 [make_cell 0 0] [0; 0] [0; 0] float_zero)
       = m_end (Maze 1 1 [make_cell 0 0] [0; 0] [0; 0] float_half)).
Proof.
  apply (export_determines_the_maze App
           (Maze 1 1 [make_cell 0 0] [0; 0] [0; 0] float_zero)
           (Maze 1 1 [make_cell 0 0] [0; 0] [0; 0] float_half)
           (join newline
              ["{";
               "  " +:+ quote +:+ "width" +:+ quote +:+ ": 1,";
               "  " +:+ quote +:+ "height" +:+ quote +:+ ": 1,";
               "  " +:+ quote +:+ "start" +:+ quote +:+ ": [0, 0],";
               "  " +:+ quote +:+ "end" +:+ quote +:+ ": [0, 0],";
               "  " +:+ quote +:+ "cells" +:+ quote +:+ ": [";
               "    { " +:+ quote +:+ "position" +:+ quote +:+ ": [0, 0], "
                 +:+ quote +:+ "directions" +:+ quote +:+ ": [0, 0, 0, 0] }";
               "  ]";
               "}"]));
    vm_compute; reflexivity.
Defined.

(** The 2x2 maze with loop factor 0.25: the target is one passage, and the
    first attempt opens it. *)
Lemma add_loops_copies_agree_witness :
  (100 ≤ 1 →
   add_loops (RT:=lcg) Cli 100 maze_2x2 2 2 float_quarter 0
   = add_loops (RT:=lcg) App 100 maze_2x2 2 2 float_quarter 0)
  ∧ ∀ s, add_loops (RT:=lcg) Cli 100 maze_2x2 2 2 float_quarter 0 = Returns s →
         1 ≤ ls_added s →
         add_loops (RT:=lcg) App 100 maze_2x2 2 2 float_quarter 0 = Returns s.
Proof.
  apply (add_loops_copies_agree (RT:=lcg) 100 maze_2x2 2 2 float_quarter 0 1).
  vm_compute. reflexivity.
Defined.

Lemma build_data_passages_witness :
  ∃ m g' k, build_data (RT:=lcg) 41 3 3 (Some 42) float_half None None 0
            = Returns (m, g')
    ∧ is_grid 3 3 (m_cells m) ∧ symmetric 3 3 (m_cells m)
    ∧ passage_pairs (m_cells m) = (Z.to_nat (3 * 3 - 1) + k)%nat
    ∧ (k ≤ Z.to_nat 4)%nat
    ∧ (SFltb float_zero float_half = false → k = 0%nat).
Proof.
  apply (build_data_passages (RT:=lcg) 41 3 3 (Some 42) float_half 0 4);
    [lia|lia|right; vm_compute; reflexivity|vm_compute; lia|vm_compute; lia].
Defined.

(** * Further runs *)

(** The picture of the 2x2 maze above, start (0, 0) and end (0, 1). *)
Example render_2x2 :
  render_maze_grid (Maze 2 2 maze_2x2 [0; 0] [0; 1] float_zero) [0; 0] [0; 1]
  = (["+---+---+";
      "| S     |";
      "+---+   +";
      "| E     |";
      "+---+---+"], Returns tt).
Proof. vm_compute. reflexivity. Qed.
